(** * Message-Aggregator: the incremental Telegram collector

    A shallow embedding of [telegram_collector.py] (class
    [TelegramCollector]) and the properties of its incremental collection
    run [get_new_messages_without_duplication]: watermark tracking,
    per-channel failure isolation, the fallback time window, the final
    ordering of the corpus and the persistence of the tracking file.

    Conventions.
    - Python [int] is [Z]; [str] is [string]; [None]-able values are
      [option]; a [dict] is an insertion-ordered association list.
    - An [await]ed call on the Telegram client, the clock and the logger are
      effects on a [World]; a call either returns or raises an [Exception].
    - [try/except Exception] is [try_except]; a [for] loop over a list is a
      recursion over that list.
    - The Telegram client, the clock and [json.loads] are parameters of the
      collector; module [Telegram] gives one server to run it against.

    The main results.
    - C1  [watermark_is_max_of_collected_ids]: the watermark after a run.
    - C2  [corpus_has_no_duplicates]: one record for each channel and id.
    - C3  [cursor_fetch_skips_the_next_message]: the cursor request misses
          the message right after the watermark.
    - C4  [save_overwrites_in_place]: the save is not atomic.
    - C5  [write_failure_is_swallowed]: a failed write is not reported.
    - C6  [media_failure_drops_the_channel]: a failed download costs the
          whole channel.
    - C7  [corpus_sorted_by_timestamp]: the corpus is sorted by time, the
          dates the client delivers being in UTC.
    - C8  [unreachable_channel_is_skipped]: a failing channel is skipped.
    - C9  [fallback_keeps_the_window]: the time window of FallbackMode.
    - C10 [load_never_raises]: loading the tracking file never raises.

    Further results, on the code around these.
    - [verify_channels] and the collection by time window
      [get_new_messages] of the same class: what they return, what they
      leave alone, and when they raise.
    - The [sources] of an analysis, counted by [collect_and_analyze]
      ([main.py]).
    - [ConfigManager] ([config_manager.py]): the channels, their
      descriptions, the analysis prompts and the save that never reports.
    - [CleanupManager.cleanup_folder] ([cleanup_manager.py]): which files
      go and which are kept.
    - [LLMAnalyzer._call_api_with_retry] ([llm_analyzer.py]): the number
      of requests and the two ways in which the attempts run out. *)

From Stdlib Require Import ZArith List String Ascii Bool Lia.
From Stdlib Require Import Sorted Permutation.
From Stdlib Require Import Decimal DecimalString DecimalZ.
Import ListNotations.

Local Open Scope Z_scope.
Local Open Scope list_scope.

Infix "+++" := String.append (at level 60, right associativity).

(* ================================================================== *)
(** * Python values *)
(* ================================================================== *)

(** An instance of [Exception] (whatever its subclass), with the text that
    [str(e)] gives. *)
Inductive exn : Type :=
  | Exception (what : string).

(** What a call does: it returns a value or raises. *)
Inductive outcome (A : Type) : Type :=
  | Returns (a : A)
  | Raises (e : exn).
Arguments Returns {A} a.
Arguments Raises {A} e.

(** [str(n)] for an [int]. *)
Definition str (n : Z) : string := NilZero.string_of_int (Z.to_int n).

(** ** dict: insertion-ordered, keys unique *)

(** [s[:n]] and [s[n:]] *)
Fixpoint string_take (n : nat) (s : string) : string :=
  match n, s with
  | O, _ => EmptyString
  | _, EmptyString => EmptyString
  | S n', String c rest => String c (string_take n' rest)
  end.

Fixpoint string_drop (n : nat) (s : string) : string :=
  match n, s with
  | O, _ => s
  | _, EmptyString => EmptyString
  | S n', String c rest => string_drop n' rest
  end.

Section Dict.
Context {V : Type}.

(** [d.get(k)] *)
Fixpoint dict_get (k : string) (d : list (string * V)) : option V :=
  match d with
  | [] => None
  | (k', v) :: rest => if String.eqb k k' then Some v else dict_get k rest
  end.

(** [d[k] = v]: replaces the value where the key is, appends otherwise. *)
Fixpoint dict_set (k : string) (v : V) (d : list (string * V)) : list (string * V) :=
  match d with
  | [] => [(k, v)]
  | (k', v') :: rest =>
      if String.eqb k k' then (k, v) :: rest else (k', v') :: dict_set k v rest
  end.

(** [k in d] *)
Definition dict_contains (k : string) (d : list (string * V)) : bool :=
  match dict_get k d with Some _ => true | None => false end.
End Dict.

(** [max(...)] over a non-empty sequence of ints, [None] for [ValueError]
    on an empty one. *)
Fixpoint py_max (l : list Z) : option Z :=
  match l with
  | [] => None
  | x :: rest => match py_max rest with
                 | None => Some x
                 | Some m => Some (Z.max x m)
                 end
  end.

(* ================================================================== *)
(** * datetime *)
(* ================================================================== *)

(** A [datetime.datetime]: the broken-down fields it stores and its
    [tzinfo], given by its [utcoffset()] in seconds ([None] when naive). *)
Record datetime : Type := mk_datetime {
  year : Z; month : Z; day : Z;
  hour : Z; minute : Z; second : Z; microsecond : Z;
  tzinfo : option Z
}.

Definition is_leap (y : Z) : bool :=
  (y mod 4 =? 0) && (negb (y mod 100 =? 0) || (y mod 400 =? 0)).

Definition days_before_year (y : Z) : Z :=
  let y' := y - 1 in y' * 365 + y' / 4 - y' / 100 + y' / 400.

Definition days_in_month (y m : Z) : Z :=
  if m =? 2 then (if is_leap y then 29 else 28)
  else if (m =? 4) || (m =? 6) || (m =? 9) || (m =? 11) then 30 else 31.

(** Days in the year before the first day of month [m]. *)
Definition days_before_month (y m : Z) : Z :=
  nth (Z.to_nat m) [0; 0; 31; 59; 90; 120; 151; 181; 212; 243; 273; 304; 334] 0
  + (if (2 <? m) && is_leap y then 1 else 0).

(** Proleptic Gregorian ordinal, 0001-01-01 being day 1. *)
Definition ymd2ord (y m d : Z) : Z :=
  days_before_year y + days_before_month y m + d.

(** The invariants of the [datetime] type. *)
Definition valid_datetime (d : datetime) : bool :=
  (1 <=? year d) && (year d <=? 9999) &&
  (1 <=? month d) && (month d <=? 12) &&
  (1 <=? day d) && (day d <=? days_in_month (year d) (month d)) &&
  (0 <=? hour d) && (hour d <? 24) &&
  (0 <=? minute d) && (minute d <? 60) &&
  (0 <=? second d) && (second d <? 60) &&
  (0 <=? microsecond d) && (microsecond d <? 1000000) &&
  match tzinfo d with
  | None => true
  | Some off => (-86400 <? off) && (off <? 86400)
  end.

Definition utc : option Z := Some 0.

(** [d.replace(tzinfo=timezone.utc)] *)
Definition replace_tzinfo_utc (d : datetime) : datetime :=
  mk_datetime (year d) (month d) (day d) (hour d) (minute d) (second d)
              (microsecond d) utc.

(** The instant of an aware datetime, in microseconds of UTC since
    0001-01-01T00:00:00: what the comparison of two aware datetimes
    compares.  For a naive datetime, the instant it has when it is read
    as UTC. *)
Definition timestamp (d : datetime) : Z :=
  (((ymd2ord (year d) (month d) (day d) - 1) * 86400
    + hour d * 3600 + minute d * 60 + second d
    - match tzinfo d with Some off => off | None => 0 end) * 1000000)
  + microsecond d.

(** [a < b] for an aware [b], given by its instant: the instants are
    compared when [a] is aware too, and Python raises [TypeError] when [a]
    is naive. *)
Definition datetime_lt (a : datetime) (b_instant : Z) : outcome bool :=
  match tzinfo a with
  | Some _ => Returns (timestamp a <? b_instant)
  | None =>
      Raises (Exception "TypeError: can't compare offset-naive and offset-aware datetimes")
  end.

(** ** isoformat *)

Definition digit (n : Z) : ascii := ascii_of_N (48 + Z.to_N (n mod 10)).

(** ["%0<w>d" % n] for [0 <= n < 10^w]. *)
Fixpoint zpad (w : nat) (n : Z) : string :=
  match w with
  | O => EmptyString
  | S w' => zpad w' (n / 10) +++ String (digit n) EmptyString
  end.

Definition format_offset (off : Z) : string :=
  let sign := if off <? 0 then "-"%string else "+"%string in
  let a := Z.abs off in
  let hh := a / 3600 in
  let mm := (a mod 3600) / 60 in
  let ss := a mod 60 in
  sign +++ zpad 2 hh +++ ":" +++ zpad 2 mm
  +++ (if ss =? 0 then EmptyString else ":" +++ zpad 2 ss).

(** [d.isoformat()]: [YYYY-MM-DDTHH:MM:SS], then [.ffffff] when the
    microsecond is not 0, then the UTC offset when the datetime is aware. *)
Definition isoformat (d : datetime) : string :=
  zpad 4 (year d) +++ "-" +++ zpad 2 (month d) +++ "-" +++ zpad 2 (day d)
  +++ "T" +++ zpad 2 (hour d) +++ ":" +++ zpad 2 (minute d) +++ ":" +++ zpad 2 (second d)
  +++ (if microsecond d =? 0 then EmptyString else "." +++ zpad 6 (microsecond d))
  +++ match tzinfo d with
      | None => EmptyString
      | Some off => format_offset off
      end.

(* ================================================================== *)
(** * Telegram objects *)
(* ================================================================== *)

(** What [client.get_entity] returns; an attribute the object may lack
    ([hasattr]) is an [option]. *)
Record Entity : Type := mk_entity {
  entity_id : Z;
  entity_title : option string;
  entity_username : option string;
  entity_about : option string
}.

(** [msg.media]: [None], a [MessageMediaPhoto], a [MessageMediaDocument] or
    any other media object. *)
Inductive Media : Type :=
  | NoMedia
  | MessageMediaPhoto
  | MessageMediaDocument
  | OtherMedia.

(** A message of a channel's history.  [msg_reply_to] is
    [msg.reply_to.reply_to_msg_id] when the message has a truthy
    [reply_to]; [msg_message], [msg_views] and [msg_forwards] are [None]
    when the attribute is absent. *)
Record Message : Type := mk_message {
  msg_id : Z;
  msg_date : datetime;
  msg_message : option string;
  msg_media : Media;
  msg_reply_to : option Z;
  msg_views : option Z;
  msg_forwards : option Z
}.

Record GetHistoryRequest : Type := mk_request {
  peer : Entity;
  limit : Z;
  offset_date : option datetime;
  offset_id : Z;
  max_id : Z;
  min_id : Z;
  add_offset : Z;
  hash : Z
}.

(** The dictionary of [get_channel_info]. *)
Record ChannelInfo : Type := mk_info {
  info_id : Z;
  info_title : option string;
  info_username : option string;
  info_description : option string;
  info_participants_count : option Z
}.

Inductive MediaType : Type := photo | document.

(** The [message_data] dictionary: one record of the corpus. *)
Record NormalizedMessage : Type := mk_normalized {
  nm_id : Z;
  nm_channel_id : Z;
  nm_channel_title : option string;
  nm_channel_username : option string;
  nm_channel_description : option string;
  nm_date : string;
  nm_text : string;
  nm_media_path : option string;
  nm_media_type : option MediaType;
  nm_views : option Z;
  nm_forwards : option Z;
  nm_reply_to_msg_id : option Z;
  nm_reply_to_msg_text : option string
}.

(** [last_message_tracking]: channel id (as text) to last message id. *)
Definition Tracking : Type := list (string * Z).

(* ================================================================== *)
(** * The world the collector runs in *)
(* ================================================================== *)

(** The Telegram client and the clock, over a state [R] of the remote side
    that every call may change.  Each call returns or raises. *)
Record Client (R : Type) : Type := mk_client {
  (** [await client.get_entity(username)] *)
  client_get_entity : string -> R -> outcome Entity * R;
  (** [await client.get_participants_count(entity)], when the client has
      that method *)
  client_get_participants_count : option (Entity -> R -> outcome Z * R);
  (** [await client(GetHistoryRequest(...))], giving [messages.messages] *)
  client_call : GetHistoryRequest -> R -> outcome (list Message) * R;
  (** [await client.download_media(message.media, file=...)] *)
  client_download_media : Message -> R -> outcome (option string) * R;
  (** [await client.get_messages(entity, ids=...)] *)
  client_get_messages : Entity -> Z -> R -> outcome (option Message) * R;
  (** [datetime.now(timezone.utc)], as an instant in microseconds *)
  datetime_now_utc : R -> Z * R
}.
Arguments client_get_entity {R}.
Arguments client_get_participants_count {R}.
Arguments client_call {R}.
Arguments client_download_media {R}.
Arguments client_get_messages {R}.
Arguments datetime_now_utc {R}.

(** The file [data/last_message_tracking.json] and what can go wrong with
    it.  [tracking_file] is the text on the device, [None] when the path
    does not exist.  A file opened for writing is buffered: what [fp.write]
    is given stays with the file object until the object passes it on to
    the device, which it does when it is closed at the latest. *)
Record FileSystem : Type := mk_fs {
  tracking_file : option string;
  (** what opening or reading the file raises, if it does *)
  read_error : option exn;
  (** what [os.makedirs(data, exist_ok=True)] raises, if it does *)
  makedirs_error : option exn;
  (** what [open(tracking_file, 'w')] raises, if it does *)
  open_write_error : option exn;
  (** how many writes the device takes from the file object before one
      raises; [None] when it takes them all *)
  write_capacity : option nat;
  (** the text the file object opened for writing holds back *)
  write_buffer : string;
  (** how many characters, from the first, the file object passes on to
      the device after an [fp.write] that leaves it holding the given text:
      Python leaves this to the size of the buffer *)
  buffering : string -> nat
}.

Inductive Level : Type := INFO | WARNING | ERROR.

Record World (R : Type) : Type := mk_world {
  remote : R;
  fs : FileSystem;
  log : list (Level * string)
}.
Arguments mk_world {R}.
Arguments remote {R}.
Arguments fs {R}.
Arguments log {R}.

(** The instants a [datetime] can hold: years 1 to 9999. *)
Definition max_timestamp : Z := 3652059 * 86400 * 1000000.

(* ================================================================== *)
(** * Effects: state of the world and exceptions *)
(* ================================================================== *)

Section Effects.
Context {R : Type}.

Definition IO (A : Type) : Type := World R -> outcome A * World R.

Definition ret {A} (a : A) : IO A := fun w => (Returns a, w).

Definition raise {A} (e : exn) : IO A := fun w => (Raises e, w).

Definition bind {A B} (c : IO A) (k : A -> IO B) : IO B :=
  fun w => match c w with
           | (Returns a, w') => k a w'
           | (Raises e, w') => (Raises e, w')
           end.

(** [try: body  except Exception as e: handler(e)] *)
Definition try_except {A} (body : IO A) (handler : exn -> IO A) : IO A :=
  fun w => match body w with
           | (Returns a, w') => (Returns a, w')
           | (Raises e, w') => handler e w'
           end.

(** A call on the remote side. *)
Definition call {A} (f : R -> outcome A * R) : IO A :=
  fun w => let (o, r) := f (remote w) in (o, mk_world r (fs w) (log w)).

(** [self.logger.<level>(text)] *)
Definition logger (lvl : Level) (text : string) : IO unit :=
  fun w => (Returns tt, mk_world (remote w) (fs w) (log w ++ [(lvl, text)])).

Definition get_fs : IO FileSystem := fun w => (Returns (fs w), w).

Definition put_fs (f : FileSystem) : IO unit :=
  fun w => (Returns tt, mk_world (remote w) f (log w)).
End Effects.

Declare Scope io_scope.
Delimit Scope io_scope with io.
Notation "x <- c1 ;; c2" := (bind c1 (fun x => c2))
  (at level 61, c1 at next level, right associativity) : io_scope.
Notation "' pat <- c1 ;; c2" := (bind c1 (fun x => match x with pat => c2 end))
  (at level 61, pat pattern, c1 at next level, right associativity) : io_scope.
Notation "c1 ;; c2" := (bind c1 (fun _ => c2))
  (at level 61, right associativity) : io_scope.
Local Open Scope io_scope.

(* ================================================================== *)
(** * json.dump of the tracking dictionary *)
(* ================================================================== *)

Definition quote : ascii := ascii_of_N 34.
Definition backslash : ascii := ascii_of_N 92.

Definition hex_digit (n : N) : ascii :=
  if (n <? 10)%N then ascii_of_N (48 + n) else ascii_of_N (87 + n).

(** The replacement [json.encoder.encode_basestring] makes for one
    character ([ensure_ascii=False]). *)
Definition escape_char (c : ascii) : string :=
  let n := N_of_ascii c in
  if (n =? 34)%N then String backslash (String quote EmptyString)
  else if (n =? 92)%N then String backslash (String backslash EmptyString)
  else if (n =? 10)%N then String backslash "n"
  else if (n =? 13)%N then String backslash "r"
  else if (n =? 9)%N then String backslash "t"
  else if (n =? 8)%N then String backslash "b"
  else if (n =? 12)%N then String backslash "f"
  else if (n <? 32)%N then
    String backslash ("u00" +++ String (hex_digit (n / 16)) (String (hex_digit (n mod 16)) EmptyString))
  else String c EmptyString.

Fixpoint escape_string (s : string) : string :=
  match s with
  | EmptyString => EmptyString
  | String c rest => escape_char c +++ escape_string rest
  end.

Definition encode_basestring (s : string) : string :=
  String quote (escape_string s) +++ String quote EmptyString.

Definition newline : string := String (ascii_of_N 10) EmptyString.

(** The chunks the encoder yields for the items of a dictionary, with
    [indent=2]. *)
Fixpoint iterencode_items (first : bool) (items : Tracking) : list string :=
  match items with
  | [] => []
  | (key, value) :: rest =>
      (if first then [] else ["," +++ newline +++ "  "])
      ++ [encode_basestring key; ": "%string; str value]
      ++ iterencode_items false rest
  end.

(** The chunks [json.dump(tracking_data, f, ensure_ascii=False, indent=2)]
    writes, one [f.write] each. *)
Definition iterencode (tracking_data : Tracking) : list string :=
  match tracking_data with
  | [] => ["{}"%string]
  | _ => ["{"%string; newline +++ "  "]
         ++ iterencode_items true tracking_data
         ++ [newline; "}"%string]
  end.

(** The whole text of the dump. *)
Definition json_dumps (tracking_data : Tracking) : string :=
  fold_right String.append EmptyString (iterencode tracking_data).

(* ================================================================== *)
(** * The tracking file *)
(* ================================================================== *)

Section TrackingFile.
Context {R : Type}.

(** [json.loads]: the dictionary a text parses to, or the exception. *)
Variable json_loads : string -> outcome Tracking.

Definition set_tracking_file (f : FileSystem) (content : option string)
           (cap : option nat) : FileSystem :=
  mk_fs content (read_error f) (makedirs_error f) (open_write_error f) cap
        (write_buffer f) (buffering f).

Definition set_write_buffer (f : FileSystem) (held : string) : FileSystem :=
  mk_fs (tracking_file f) (read_error f) (makedirs_error f) (open_write_error f)
        (write_capacity f) held (buffering f).

(** [os.path.exists(tracking_file)] *)
Definition os_path_exists : IO (R := R) bool :=
  f <- get_fs ;;
  ret (match tracking_file f with Some _ => true | None => false end).

(** [with open(tracking_file, 'r', encoding='utf-8') as f: ... f.read()] *)
Definition read_text : IO (R := R) string :=
  f <- get_fs ;;
  match read_error f with
  | Some e => raise e
  | None => match tracking_file f with
            | Some text => ret text
            | None => raise (Exception "FileNotFoundError")
            end
  end.

Definition of_outcome {A} (o : outcome A) : IO (R := R) A :=
  match o with
  | Returns a => ret a
  | Raises e => raise e
  end.

(** [_load_last_message_tracking] (lines 243-254) *)
Definition _load_last_message_tracking : IO (R := R) Tracking :=
  found <- os_path_exists ;;
  if (found : bool) then
    try_except
      (text <- read_text ;; of_outcome (json_loads text))
      (fun e => logger ERROR "Error loading message tracking data" ;; ret [])
  else ret [].

(** [os.makedirs(os.path.join(os.getcwd(), "data"), exist_ok=True)] *)
Definition os_makedirs : IO (R := R) unit :=
  f <- get_fs ;;
  match makedirs_error f with
  | Some e => raise e
  | None => ret tt
  end.

(** [open(tracking_file, 'w', encoding='utf-8')]: creates the file or
    truncates it, and gives a file object that holds nothing yet. *)
Definition open_write : IO (R := R) unit :=
  f <- get_fs ;;
  match open_write_error f with
  | Some e => raise e
  | None =>
      put_fs (set_write_buffer
                (set_tracking_file f (Some EmptyString) (write_capacity f))
                EmptyString)
  end.

(** The device takes a text at the end of the file, or raises. *)
Definition device_write (text : string) : IO (R := R) unit :=
  f <- get_fs ;;
  let on_device := match tracking_file f with Some t => t | None => EmptyString end in
  match write_capacity f with
  | Some O => raise (Exception "OSError")
  | Some (S n) => put_fs (set_tracking_file f (Some (on_device +++ text)) (Some n))
  | None => put_fs (set_tracking_file f (Some (on_device +++ text)) None)
  end.

(** The file object passes the first [n] characters it holds on to the
    device, and keeps the others; with nothing to pass on, the device is
    not written to. *)
Definition pass_on (n : nat) : IO (R := R) unit :=
  f <- get_fs ;;
  match string_take n (write_buffer f) with
  | EmptyString => ret tt
  | text =>
      device_write text ;;
      f' <- get_fs ;;
      put_fs (set_write_buffer f' (string_drop n (write_buffer f)))
  end.

(** [fp.write(chunk)] on the file opened for writing: the chunk goes to
    the file object, which then passes on what its buffering says. *)
Definition fp_write (chunk : string) : IO (R := R) unit :=
  f <- get_fs ;;
  put_fs (set_write_buffer f (write_buffer f +++ chunk)) ;;
  pass_on (buffering f (write_buffer f +++ chunk)).

(** [fp.close()]: what the file object still holds goes to the device; the
    object is gone afterwards, whether or not the device took the text. *)
Definition fp_close : IO (R := R) unit :=
  f <- get_fs ;;
  put_fs (set_write_buffer f EmptyString) ;;
  match write_buffer f with
  | EmptyString => ret tt
  | text => device_write text
  end.

(** [with ... as f: body], once the file is open: the file is closed when
    the body is left, whether it returns or raises. *)
Definition with_file {A} (body : IO (R := R) A) : IO (R := R) A :=
  fun w => match body w with
           | (Returns a, w1) => (fp_close ;; ret a) w1
           | (Raises e, w1) =>
               match fp_close w1 with
               | (Returns _, w2) => (Raises e, w2)
               | (Raises e', w2) => (Raises e', w2)
               end
           end.

(** [for chunk in iterable: fp.write(chunk)] *)
Fixpoint write_chunks (chunks : list string) : IO (R := R) unit :=
  match chunks with
  | [] => ret tt
  | chunk :: rest => fp_write chunk ;; write_chunks rest
  end.

(** [_save_last_message_tracking] (lines 256-265) *)
Definition _save_last_message_tracking (tracking_data : Tracking) : IO (R := R) unit :=
  os_makedirs ;;
  try_except
    (open_write ;; with_file (write_chunks (iterencode tracking_data)))
    (fun e => logger ERROR "Error saving message tracking data").

(** The effects of a save, in the order they happen: the process can be
    stopped between any two of them. *)
Definition save_effects (tracking_data : Tracking) : list (IO (R := R) unit) :=
  os_makedirs :: open_write :: map fp_write (iterencode tracking_data) ++ [fp_close].

(** The world in which a process stopped after the first [k] effects of
    the list leaves things: what is on the device then is what stays, and
    what the file object holds is lost with the process. *)
Fixpoint stopped_after (k : nat) (effects : list (IO (R := R) unit)) (w : World R) : World R :=
  match k, effects with
  | O, _ => w
  | _, [] => w
  | S k', effect :: rest =>
      match effect w with
      | (Returns _, w') => stopped_after k' rest w'
      | (Raises _, w') => w'
      end
  end.
End TrackingFile.

(* ================================================================== *)
(** * The corpus order: [all_messages.sort(key=lambda x: x["date"])] *)
(* ================================================================== *)

(** [list.sort] is a stable sort, and the result of a stable sort is
    determined by the key order: stable insertion gives the same list.
    The keys are [str], compared code point by code point. *)
Fixpoint insert_by_date (x : NormalizedMessage) (l : list NormalizedMessage)
  : list NormalizedMessage :=
  match l with
  | [] => [x]
  | y :: rest =>
      if String.leb (nm_date x) (nm_date y) then x :: y :: rest
      else y :: insert_by_date x rest
  end.

Fixpoint sort_by_date (l : list NormalizedMessage) : list NormalizedMessage :=
  match l with
  | [] => []
  | x :: rest => insert_by_date x (sort_by_date rest)
  end.

(* ================================================================== *)
(** * TelegramCollector *)
(* ================================================================== *)

Section Collector.
Context {R : Type}.
Variable client : Client R.
Variable json_loads : string -> outcome Tracking.

Local Abbreviation IO := (IO (R := R)).

(** [get_channel_info] (lines 41-58) *)
Definition get_channel_info (channel_username : string) : IO ChannelInfo :=
  entity <- call (client_get_entity client channel_username) ;;
  participants_count <-
    match client_get_participants_count client with
    | Some count => n <- call (count entity) ;; ret (Some n)
    | None => ret None
    end ;;
  ret (mk_info (entity_id entity) (entity_title entity) (entity_username entity)
               (entity_about entity) participants_count).

(** [download_media] (lines 60-75): the file name is made of the message
    id and the local time, and plays no part in what follows.  The call of
    the client is not guarded: when it raises, [download_media] raises. *)
Definition download_media (message : Message) : IO (option string) :=
  match msg_media message with
  | NoMedia => ret None
  | _ => call (client_download_media client message)
  end.

Definition media_type_of (m : Media) : option MediaType :=
  match m with
  | MessageMediaPhoto => Some photo
  | MessageMediaDocument => Some document
  | _ => None
  end.

(** [msg.message if hasattr(msg, "message") else ""] *)
Definition text_of (m : Message) : string :=
  match msg_message m with Some t => t | None => EmptyString end.

(** The text of the message a reply answers (lines 184-197): looked up in
    the batch, then on the server; [None] when neither has it or the lookup
    raises. *)
Definition resolve_reply (entity : Entity) (batch : list Message)
           (reply_to_msg_id : Z) : IO (option string) :=
  try_except
    (original_msg <-
       match find (fun m => msg_id m =? reply_to_msg_id) batch with
       | Some m => ret (Some m)
       | None => call (client_get_messages client entity reply_to_msg_id)
       end ;;
     ret (option_map text_of original_msg))
    (fun e => logger WARNING "Could not fetch replied-to message" ;; ret None).

(** [msg_date], made aware when it is naive. *)
Definition aware (d : datetime) : datetime :=
  match tzinfo d with
  | None => replace_tzinfo_utc d
  | Some _ => d
  end.

(** The body of [for msg in messages.messages] for one message that passed
    the date filter (lines 168-214): the [message_data] dictionary. *)
Definition make_message_data (entity : Entity) (channel_info : ChannelInfo)
           (batch : list Message) (msg : Message) : IO NormalizedMessage :=
  media_path <- download_media msg ;;
  let media_type := media_type_of (msg_media msg) in
  reply_to_msg_text <-
    match msg_reply_to msg with
    | Some reply_to_msg_id => resolve_reply entity batch reply_to_msg_id
    | None => ret None
    end ;;
  ret (mk_normalized (msg_id msg) (entity_id entity)
         (info_title channel_info) (info_username channel_info)
         (info_description channel_info)
         (isoformat (msg_date msg)) (text_of msg)
         media_path media_type (msg_views msg) (msg_forwards msg)
         (msg_reply_to msg) reply_to_msg_text).

(** [if not use_id_tracking: ... if msg_date < since_date: continue]
    (lines 160-166): whether the message is passed over.  [since_date] is
    aware, and [msg_date] is compared with it after it is made aware. *)
Definition date_filter (use_id_tracking : bool) (since_date : Z) (msg : Message)
  : outcome bool :=
  if use_id_tracking then Returns false
  else datetime_lt (aware (msg_date msg)) since_date.

(** [for msg in messages.messages: ...] over the messages still to do,
    [channel_messages] being the list built so far. *)
Fixpoint process_messages (entity : Entity) (channel_info : ChannelInfo)
         (use_id_tracking : bool) (since_date : Z) (batch todo : list Message)
         (channel_messages : list NormalizedMessage) : IO (list NormalizedMessage) :=
  match todo with
  | [] => ret channel_messages
  | msg :: rest =>
      passed_over <- of_outcome (date_filter use_id_tracking since_date msg) ;;
      if (passed_over : bool) then
        process_messages entity channel_info use_id_tracking since_date batch rest
                         channel_messages
      else
        message_data <- make_message_data entity channel_info batch msg ;;
        process_messages entity channel_info use_id_tracking since_date batch rest
                         (channel_messages ++ [message_data])
  end.

(** The request of CursorMode (lines 125-134). *)
Definition cursor_request (entity : Entity) (lim last_message_id : Z) : GetHistoryRequest :=
  mk_request entity lim None 0 0 (last_message_id + 1) 0 0.

(** The request of FallbackMode (lines 141-150). *)
Definition fallback_request (entity : Entity) (lim : Z) : GetHistoryRequest :=
  mk_request entity lim None 0 0 0 0 0.

(** [channel_id in last_message_tracking and
     last_message_tracking[channel_id] > 0] *)
Definition use_id_tracking_for (channel_id : string) (last_message_tracking : Tracking) : bool :=
  match dict_get channel_id last_message_tracking with
  | Some last => 0 <? last
  | None => false
  end.

(** [datetime.now(timezone.utc) - timedelta(hours=fallback_hours)], which
    raises [OverflowError] outside the years a datetime can hold. *)
Definition since_date_for (fallback_hours : Z) : IO Z :=
  now <- call (fun r => let (t, r') := datetime_now_utc client r in (Returns t, r')) ;;
  let since_date := now - fallback_hours * 3600 * 1000000 in
  if (0 <=? since_date) && (since_date <? max_timestamp) then ret since_date
  else raise (Exception "OverflowError").

(** The first statements of [try:] (lines 109-115): the channel is resolved
    and described. *)
Definition resolve_channel (username : string) : IO (Entity * ChannelInfo) :=
  logger INFO "Attempting to access channel" ;;
  entity <- call (client_get_entity client username) ;;
  logger INFO "Successfully resolved entity" ;;
  channel_info <- get_channel_info username ;;
  ret (entity, channel_info).

(** The fetch of one channel (lines 120-152): the messages and, in
    FallbackMode, the bound of the time window. *)
Definition fetch_messages (entity : Entity) (lim fallback_hours : Z)
           (channel_id : string) (last_message_tracking : Tracking)
  : IO (list Message * Z) :=
  '(messages, since_date) <-
     (if use_id_tracking_for channel_id last_message_tracking then
        match dict_get channel_id last_message_tracking with
        | Some last_message_id =>
            logger INFO "Retrieving messages newer than ID" ;;
            messages <- call (client_call client
                                (cursor_request entity lim last_message_id)) ;;
            ret (messages, 0)
        | None => raise (Exception "KeyError")
        end
      else
        since_date <- since_date_for fallback_hours ;;
        logger INFO "No message tracking data, falling back to time-based retrieval" ;;
        messages <- call (client_call client (fallback_request entity lim)) ;;
        ret (messages, since_date)) ;;
  logger INFO "Retrieved raw messages" ;;
  ret (messages, since_date).

(** [# Update message tracking with the newest message ID] (lines
    219-226) *)
Definition update_tracking (channel_id : string) (use_id_tracking : bool)
           (channel_messages : list NormalizedMessage)
           (last_message_tracking : Tracking) : outcome Tracking :=
  match py_max (map nm_id channel_messages) with
  | None => Returns last_message_tracking
  | Some newest_id =>
      if use_id_tracking then
        match dict_get channel_id last_message_tracking with
        | Some last => Returns (dict_set channel_id (Z.max newest_id last) last_message_tracking)
        | None => Raises (Exception "KeyError")
        end
      else Returns (dict_set channel_id newest_id last_message_tracking)
  end.

(** The state of the loop over the channels: [last_message_tracking] and
    [all_messages]. *)
Definition RunState : Type := (Tracking * list NormalizedMessage)%type.

(** The body of [try:] for one channel.  The two lists are only changed
    by its last statements, which cannot raise. *)
Definition channel_body (username : string) (lim fallback_hours : Z) (st : RunState)
  : IO RunState :=
  let (last_message_tracking, all_messages) := st in
  '(entity, channel_info) <- resolve_channel username ;;
  let channel_id := str (entity_id entity) in
  let use_id_tracking := use_id_tracking_for channel_id last_message_tracking in
  '(messages, since_date) <-
     fetch_messages entity lim fallback_hours channel_id last_message_tracking ;;
  channel_messages <-
    process_messages entity channel_info use_id_tracking since_date messages messages [] ;;
  tracking' <- of_outcome (update_tracking channel_id use_id_tracking channel_messages
                                           last_message_tracking) ;;
  logger INFO "Added messages" ;;
  ret (tracking', all_messages ++ channel_messages).

(** One turn of [for username in channel_usernames] (lines 107-233). *)
Definition process_channel (username : string) (lim fallback_hours : Z) (st : RunState)
  : IO RunState :=
  try_except
    (channel_body username lim fallback_hours st)
    (fun e => logger ERROR "Error retrieving messages" ;; ret st).

Fixpoint channels_loop (channel_usernames : list string) (lim fallback_hours : Z)
         (st : RunState) : IO RunState :=
  match channel_usernames with
  | [] => ret st
  | username :: rest =>
      st' <- process_channel username lim fallback_hours st ;;
      channels_loop rest lim fallback_hours st'
  end.

(** [get_new_messages_without_duplication] (lines 92-241) *)
Definition get_new_messages_without_duplication (channel_usernames : list string)
           (lim fallback_hours : Z) : IO (list NormalizedMessage) :=
  last_message_tracking <- _load_last_message_tracking json_loads ;;
  '(last_message_tracking', all_messages) <-
     channels_loop channel_usernames lim fallback_hours (last_message_tracking, []) ;;
  _save_last_message_tracking last_message_tracking' ;;
  logger INFO "Total messages collected from all channels" ;;
  ret (sort_by_date all_messages).
End Collector.

(* ================================================================== *)
(** * The other entry points of the collector *)
(* ================================================================== *)

Section TimeWindowCollector.
Context {R : Type}.
Variable client : Client R.

(** [isinstance(e, ValueError)], which chooses between the two [except]
    clauses around [get_entity] (lines 280-285). *)
Variable is_ValueError : exn -> bool.

Local Abbreviation IO := (IO (R := R)).

(** [for username in channel_usernames] of [verify_channels], over the
    handles still to do. *)
Fixpoint verify_loop (channel_usernames accessible_channels : list string)
  : IO (list string) :=
  match channel_usernames with
  | [] => ret accessible_channels
  | username :: rest =>
      accessible_channels' <-
        try_except
          (entity <- call (client_get_entity client username) ;;
           logger INFO "Channel is accessible" ;;
           ret (accessible_channels ++ [username]))
          (fun e => logger ERROR "Cannot access channel" ;; ret accessible_channels) ;;
      verify_loop rest accessible_channels'
  end.

(** [verify_channels] (lines 78-90) *)
Definition verify_channels (channel_usernames : list string) : IO (list string) :=
  verify_loop channel_usernames [].

(** [{"id": entity.id, "title": username}] (line 293): what stands for the
    channel's description when [get_channel_info] raises. *)
Definition default_channel_info (entity : Entity) (username : string) : ChannelInfo :=
  mk_info (entity_id entity) (Some username) None None None.

(** The [message_data] dictionary of [get_new_messages] (lines 322-371):
    its [date] is the text of the date made aware. *)
Definition make_window_message_data (entity : Entity) (channel_info : ChannelInfo)
           (batch : list Message) (msg : Message) : IO NormalizedMessage :=
  media_path <- download_media client msg ;;
  let media_type := media_type_of (msg_media msg) in
  reply_to_msg_text <-
    match msg_reply_to msg with
    | Some reply_to_msg_id => resolve_reply client entity batch reply_to_msg_id
    | None => ret None
    end ;;
  ret (mk_normalized (msg_id msg) (entity_id entity)
         (info_title channel_info) (info_username channel_info)
         (info_description channel_info)
         (isoformat (aware (msg_date msg))) (text_of msg)
         media_path media_type (msg_views msg) (msg_forwards msg)
         (msg_reply_to msg) reply_to_msg_text).

(** [for msg in messages.messages: ...] of [get_new_messages] (lines
    313-374): every message goes through the date filter. *)
Fixpoint process_window (entity : Entity) (channel_info : ChannelInfo)
         (since_date : Z) (batch todo : list Message)
         (channel_messages : list NormalizedMessage) : IO (list NormalizedMessage) :=
  match todo with
  | [] => ret channel_messages
  | msg :: rest =>
      passed_over <- of_outcome (datetime_lt (aware (msg_date msg)) since_date) ;;
      if (passed_over : bool) then
        process_window entity channel_info since_date batch rest channel_messages
      else
        message_data <- make_window_message_data entity channel_info batch msg ;;
        process_window entity channel_info since_date batch rest
                       (channel_messages ++ [message_data])
  end.

(** The inner [try] around [get_entity] (lines 278-285): [None] stands for
    [continue]. *)
Definition window_entity (username : string) : IO (option Entity) :=
  try_except
    (entity <- call (client_get_entity client username) ;; ret (Some entity))
    (fun e =>
       (if is_ValueError e
        then logger ERROR "Invalid channel identifier"
        else logger ERROR "Failed to get entity") ;;
       ret None).

(** The inner [try] around [get_channel_info] (lines 289-293). *)
Definition window_channel_info (entity : Entity) (username : string) : IO ChannelInfo :=
  try_except
    (get_channel_info client username)
    (fun e => logger ERROR "Failed to get channel info" ;;
              ret (default_channel_info entity username)).

(** The statements of the outer [try] once [channel_info] is bound (lines
    295-380): the request, the loop over the messages and the [extend]. *)
Definition window_history (entity : Entity) (channel_info : ChannelInfo)
           (lim since_date : Z) (all_messages : list NormalizedMessage)
  : IO (list NormalizedMessage) :=
  logger INFO "Retrieving message history" ;;
  messages <- call (client_call client (fallback_request entity lim)) ;;
  logger INFO "Retrieved raw messages" ;;
  channel_messages <- process_window entity channel_info since_date messages messages [] ;;
  logger INFO "Added messages after filtering" ;;
  ret (all_messages ++ channel_messages).

(** The statements of the outer [try] after the channel is resolved
    (lines 287-380). *)
Definition window_collect (entity : Entity) (username : string) (lim since_date : Z)
           (all_messages : list NormalizedMessage) : IO (list NormalizedMessage) :=
  logger INFO "Successfully resolved entity" ;;
  channel_info <- window_channel_info entity username ;;
  window_history entity channel_info lim since_date all_messages.

(** One turn of [for username in channel_usernames] (lines 274-383). *)
Definition window_channel (username : string) (lim since_date : Z)
           (all_messages : list NormalizedMessage) : IO (list NormalizedMessage) :=
  try_except
    (logger INFO "Attempting to access channel" ;;
     resolved <- window_entity username ;;
     match resolved with
     | None => ret all_messages
     | Some entity => window_collect entity username lim since_date all_messages
     end)
    (fun e => logger ERROR "Error retrieving messages" ;; ret all_messages).

Fixpoint window_loop (channel_usernames : list string) (lim since_date : Z)
         (all_messages : list NormalizedMessage) : IO (list NormalizedMessage) :=
  match channel_usernames with
  | [] => ret all_messages
  | username :: rest =>
      all_messages' <- window_channel username lim since_date all_messages ;;
      window_loop rest lim since_date all_messages'
  end.

(** [get_new_messages] (lines 267-387): the bound of the window is
    computed once, before the loop and outside every [try]. *)
Definition get_new_messages (channel_usernames : list string) (lim since_hours : Z)
  : IO (list NormalizedMessage) :=
  since_date <- since_date_for client since_hours ;;
  all_messages <- window_loop channel_usernames lim since_date [] ;;
  logger INFO "Total messages collected from all channels" ;;
  ret (sort_by_date all_messages).
End TimeWindowCollector.

(* ================================================================== *)
(** * Application: the sources of an analysis *)
(* ================================================================== *)

(** An entry of [channel_stats] ([main.py], lines 154-158). *)
Record ChannelStats : Type := mk_stats {
  stats_channel_id : Z;
  stats_channel_name : option string;
  stats_message_count : Z
}.

(** [channel_stats]: from channel id to entry, in the order of
    insertion. *)
Definition StatsDict : Type := list (Z * ChannelStats).

(** [channel_id in channel_stats] *)
Fixpoint stats_contains (channel_id : Z) (channel_stats : StatsDict) : bool :=
  match channel_stats with
  | [] => false
  | (k, _) :: rest => (k =? channel_id) || stats_contains channel_id rest
  end.

(** [channel_stats[channel_id]["message_count"] += 1], which raises
    [KeyError] when the key is not there. *)
Fixpoint stats_increment (channel_id : Z) (channel_stats : StatsDict) : outcome StatsDict :=
  match channel_stats with
  | [] => Raises (Exception "KeyError")
  | (k, entry) :: rest =>
      if k =? channel_id then
        Returns ((k, mk_stats (stats_channel_id entry) (stats_channel_name entry)
                              (stats_message_count entry + 1)) :: rest)
      else
        match stats_increment channel_id rest with
        | Returns rest' => Returns ((k, entry) :: rest')
        | Raises e => Raises e
        end
  end.

(** The body of [for msg in messages] (lines 150-160). *)
Definition count_message (msg : NormalizedMessage) (channel_stats : StatsDict)
  : outcome StatsDict :=
  let channel_id := nm_channel_id msg in
  let channel_title := nm_channel_title msg in
  stats_increment channel_id
    (if stats_contains channel_id channel_stats then channel_stats
     else channel_stats ++ [(channel_id, mk_stats channel_id channel_title 0)]).

Fixpoint count_messages (messages : list NormalizedMessage) (channel_stats : StatsDict)
  : outcome StatsDict :=
  match messages with
  | [] => Returns channel_stats
  | msg :: rest =>
      match count_message msg channel_stats with
      | Returns channel_stats' => count_messages rest channel_stats'
      | Raises e => Raises e
      end
  end.

(** [analysis["sources"]] as [collect_and_analyze] builds it from the
    corpus (lines 148-162): [list(channel_stats.values())]. *)
Definition sources (messages : list NormalizedMessage) : outcome (list ChannelStats) :=
  match count_messages messages [] with
  | Returns channel_stats => Returns (map snd channel_stats)
  | Raises e => Raises e
  end.

(* ================================================================== *)
(** * ConfigManager: the configured channels and subscribers *)
(* ================================================================== *)

(** [config["telegram"]], as far as the manager's own methods read it:
    the lists [channels] and [subscribers], each [None] when the key is
    missing.  The credentials stored beside them are never touched by the
    methods embedded here. *)
Record TelegramSection : Type := mk_telegram {
  section_channels : option (list string);
  section_subscribers : option (list string)
}.

(** [self.config] ([config_manager.py]), taken at the types of the default
    configuration (lines 46-80): a section is [None] when its key is
    missing. *)
Record Config : Type := mk_config {
  telegram : option TelegramSection;
  channel_descriptions : option (list (string * string));
  analysis_prompts : option (list (string * string))
}.

(** What [config_file] holds: nothing, the dump of a configuration, or
    the beginning of a dump that was cut short. *)
Inductive ConfigFile : Type :=
  | NoConfigFile
  | DumpOf (c : Config)
  | TornDump.

(** The file and what can go wrong when it is written. *)
Record ConfigDisk : Type := mk_disk {
  config_file : ConfigFile;
  (** what [open(config_file, 'w')] raises, if it does *)
  config_open_error : option exn;
  (** what [json.dump] raises after the file is opened, if it does *)
  config_dump_error : option exn
}.

(** A [ConfigManager]: its [config], the disk and the lines it logged. *)
Record ConfigManager : Type := mk_manager {
  config : Config;
  disk : ConfigDisk;
  manager_log : list (Level * string)
}.

Definition manager_logs (lvl : Level) (text : string) (m : ConfigManager) : ConfigManager :=
  mk_manager (config m) (disk m) (manager_log m ++ [(lvl, text)]).

Definition with_config (c : Config) (m : ConfigManager) : ConfigManager :=
  mk_manager c (disk m) (manager_log m).

(** [_save_config()] (lines 82-98): every exception is caught and
    logged. *)
Definition _save_config (m : ConfigManager) : ConfigManager :=
  match config_open_error (disk m) with
  | Some e => manager_logs ERROR "Error saving configuration" m
  | None =>
      match config_dump_error (disk m) with
      | Some e =>
          manager_logs ERROR "Error saving configuration"
            (mk_manager (config m)
               (mk_disk TornDump (config_open_error (disk m)) (config_dump_error (disk m)))
               (manager_log m))
      | None =>
          manager_logs INFO "Configuration saved"
            (mk_manager (config m)
               (mk_disk (DumpOf (config m)) (config_open_error (disk m))
                        (config_dump_error (disk m)))
               (manager_log m))
      end
  end.

(** [self.config["telegram"]["channels"]] *)
Definition config_channels (c : Config) : outcome (list string) :=
  match telegram c with
  | None => Raises (Exception "KeyError: 'telegram'")
  | Some section =>
      match section_channels section with
      | None => Raises (Exception "KeyError: 'channels'")
      | Some channels => Returns channels
      end
  end.

(** [self.config["telegram"]["subscribers"]] *)
Definition config_subscribers (c : Config) : outcome (list string) :=
  match telegram c with
  | None => Raises (Exception "KeyError: 'telegram'")
  | Some section =>
      match section_subscribers section with
      | None => Raises (Exception "KeyError: 'subscribers'")
      | Some subscribers => Returns subscribers
      end
  end.

(** The list [channels] is changed in place: the configuration with the
    list as it now is. *)
Definition set_channels (channels : list string) (c : Config) : Config :=
  mk_config
    (match telegram c with
     | Some section => Some (mk_telegram (Some channels) (section_subscribers section))
     | None => None
     end)
    (channel_descriptions c) (analysis_prompts c).

Definition set_subscribers (subscribers : list string) (c : Config) : Config :=
  mk_config
    (match telegram c with
     | Some section => Some (mk_telegram (section_channels section) (Some subscribers))
     | None => None
     end)
    (channel_descriptions c) (analysis_prompts c).

Definition set_descriptions (descriptions : option (list (string * string))) (c : Config)
  : Config :=
  mk_config (telegram c) descriptions (analysis_prompts c).

(** [x in l] for a list of [str]. *)
Definition list_contains (x : string) (l : list string) : bool :=
  existsb (String.eqb x) l.

(** [l.remove(x)] when [x in l]: the first occurrence goes. *)
Fixpoint list_remove (x : string) (l : list string) : list string :=
  match l with
  | [] => []
  | y :: rest => if String.eqb x y then rest else y :: list_remove x rest
  end.

(** [del d[k]] when [k in d]. *)
Fixpoint dict_del {V : Type} (k : string) (d : list (string * V)) : list (string * V) :=
  match d with
  | [] => []
  | (k', v) :: rest => if String.eqb k k' then rest else (k', v) :: dict_del k rest
  end.

(** The truth value of an optional [str]: [None] and [""] are false. *)
Definition truthy (s : option string) : bool :=
  match s with
  | Some EmptyString => false
  | Some _ => true
  | None => false
  end.

(** [add_channel] (lines 146-174) *)
Definition add_channel (channel : string) (description : option string) (m : ConfigManager)
  : bool * ConfigManager :=
  match config_channels (config m) with
  | Raises e => (false, manager_logs ERROR "Error adding channel" m)
  | Returns channels =>
      let channels' :=
        if negb (list_contains channel channels) then channels ++ [channel] else channels in
      let c1 := set_channels channels' (config m) in
      let c2 :=
        match description with
        | Some text =>
            if truthy description
               && negb (dict_contains channel
                          (match channel_descriptions c1 with Some d => d | None => [] end))
            then
              let descriptions :=
                match channel_descriptions c1 with Some d => d | None => [] end in
              set_descriptions (Some (dict_set channel text descriptions)) c1
            else c1
        | None => c1
        end in
      (true, _save_config (with_config c2 m))
  end.

(** [remove_channel] (lines 176-200) *)
Definition remove_channel (channel : string) (m : ConfigManager) : bool * ConfigManager :=
  match config_channels (config m) with
  | Raises e => (false, manager_logs ERROR "Error removing channel" m)
  | Returns channels =>
      let channels' :=
        if list_contains channel channels then list_remove channel channels else channels in
      let c1 := set_channels channels' (config m) in
      let c2 :=
        match channel_descriptions c1 with
        | Some descriptions =>
            if dict_contains channel descriptions
            then set_descriptions (Some (dict_del channel descriptions)) c1
            else c1
        | None => c1
        end in
      (true, _save_config (with_config c2 m))
  end.

(** [add_subscriber] (lines 202-223): saved only when the list changed. *)
Definition add_subscriber (user_id : string) (m : ConfigManager) : bool * ConfigManager :=
  match config_subscribers (config m) with
  | Raises e => (false, manager_logs ERROR "Error adding subscriber" m)
  | Returns subscribers =>
      if negb (list_contains user_id subscribers) then
        (true, _save_config (with_config (set_subscribers (subscribers ++ [user_id])
                                                          (config m)) m))
      else (true, m)
  end.

(** [remove_subscriber] (lines 225-246) *)
Definition remove_subscriber (user_id : string) (m : ConfigManager) : bool * ConfigManager :=
  match config_subscribers (config m) with
  | Raises e => (false, manager_logs ERROR "Error removing subscriber" m)
  | Returns subscribers =>
      if list_contains user_id subscribers then
        (true, _save_config (with_config (set_subscribers (list_remove user_id subscribers)
                                                          (config m)) m))
      else (true, m)
  end.

(** [get_channels] (lines 248-255):
    [config.get("telegram", {}).get("channels", [])] *)
Definition get_channels (m : ConfigManager) : list string :=
  match telegram (config m) with
  | Some section =>
      match section_channels section with Some channels => channels | None => [] end
  | None => []
  end.

(** [get_subscribers] (lines 257-264) *)
Definition get_subscribers (m : ConfigManager) : list string :=
  match telegram (config m) with
  | Some section =>
      match section_subscribers section with Some subscribers => subscribers | None => [] end
  | None => []
  end.

(** [get_channel_descriptions] (lines 266-273) *)
Definition get_channel_descriptions (m : ConfigManager) : list (string * string) :=
  match channel_descriptions (config m) with Some d => d | None => [] end.

(** [get_analysis_prompt] (lines 275-286):
    [prompts.get(prompt_type, prompts.get("default", ""))] *)
Definition get_analysis_prompt (prompt_type : string) (m : ConfigManager) : string :=
  let prompts := match analysis_prompts (config m) with Some d => d | None => [] end in
  match dict_get prompt_type prompts with
  | Some prompt => prompt
  | None => match dict_get "default" prompts with
            | Some prompt => prompt
            | None => EmptyString
            end
  end.

(** [set_analysis_prompt] (lines 288-309) *)
Definition set_analysis_prompt (prompt_type prompt : string) (m : ConfigManager)
  : bool * ConfigManager :=
  let prompts := match analysis_prompts (config m) with Some d => d | None => [] end in
  let c1 := mk_config (telegram (config m)) (channel_descriptions (config m))
                      (Some (dict_set prompt_type prompt prompts)) in
  (true, _save_config (with_config c1 m)).

(* ================================================================== *)
(** * CleanupManager: the retention of files *)
(* ================================================================== *)

Section Cleanup.

(** The type of [os.path.getmtime(...)] and of [cutoff_date.timestamp()]:
    floats, of which [cleanup_folder] uses nothing but [<]. *)
Variable Time : Type.
Variable time_lt : Time -> Time -> bool.

(** [os.path.join] *)
Variable os_path_join : string -> string -> string.

(** What [os.listdir] finds in a folder: [entry_path] is the
    [os.path.join] of the folder and of the name. *)
Record FolderEntry : Type := mk_entry {
  entry_folder : string;
  entry_path : string;
  (** [os.path.isfile(file_path)] *)
  entry_is_file : bool;
  (** [os.path.getmtime(file_path)] *)
  entry_mtime : Time;
  (** [os.path.getsize(file_path)] *)
  entry_size : Z;
  (** what [os.remove(file_path)] raises, if it does *)
  entry_remove_error : option exn
}.

Inductive CleanupLevel : Type :=
  | CleanupDebug
  | CleanupInfo
  | CleanupWarning
  | CleanupError.

(** The manager, the disk and the clock. *)
Record CleanupWorld : Type := mk_cleanup_world {
  (** [self.base_dir] *)
  base_dir : string;
  (** the paths that are directories *)
  directories : list string;
  disk_entries : list FolderEntry;
  (** [(datetime.now() - timedelta(days=max_age_days)).timestamp()], which
      may raise [OverflowError] *)
  cutoff_of : Z -> outcome Time;
  (** [datetime.now().isoformat()] *)
  now_isoformat : string;
  cleanup_log : list (CleanupLevel * string)
}.

(** What [cleanup_folder] returns.  [deleted_size] is the number of bytes
    that the code divides by [1024 * 1024] for [deleted_size_mb]. *)
Inductive CleanupResult : Type :=
  | Skipped
  | Completed (folder : string) (deleted_count deleted_size : Z) (timestamp : string).

Definition cleanup_logs (lvl : CleanupLevel) (text : string) (s : CleanupWorld)
  : CleanupWorld :=
  mk_cleanup_world (base_dir s) (directories s) (disk_entries s) (cutoff_of s)
                   (now_isoformat s) (cleanup_log s ++ [(lvl, text)]).

Definition with_entries (entries : list FolderEntry) (s : CleanupWorld) : CleanupWorld :=
  mk_cleanup_world (base_dir s) (directories s) entries (cutoff_of s)
                   (now_isoformat s) (cleanup_log s).

(** [os.path.exists(path)] *)
Definition cleanup_path_exists (path : string) (s : CleanupWorld) : bool :=
  list_contains path (directories s)
  || existsb (fun e => String.eqb (entry_path e) path) (disk_entries s).

(** [os.listdir(folder_path)] *)
Definition os_listdir (folder_path : string) (s : CleanupWorld) : outcome (list FolderEntry) :=
  if list_contains folder_path (directories s)
  then Returns (filter (fun e => String.eqb (entry_folder e) folder_path) (disk_entries s))
  else Raises (Exception "NotADirectoryError").

(** [os.path.getsize(file_path)] *)
Definition os_path_getsize (file_path : string) (s : CleanupWorld) : outcome Z :=
  match find (fun e => String.eqb (entry_path e) file_path) (disk_entries s) with
  | Some e => Returns (entry_size e)
  | None => Raises (Exception "FileNotFoundError")
  end.

(** The entries without the first one under the path. *)
Fixpoint without_path (file_path : string) (entries : list FolderEntry) : list FolderEntry :=
  match entries with
  | [] => []
  | e :: rest =>
      if String.eqb (entry_path e) file_path then rest
      else e :: without_path file_path rest
  end.

(** [os.remove(file_path)] *)
Definition os_remove (file_path : string) (s : CleanupWorld) : outcome unit * CleanupWorld :=
  match find (fun e => String.eqb (entry_path e) file_path) (disk_entries s) with
  | Some e =>
      match entry_remove_error e with
      | Some err => (Raises err, s)
      | None => (Returns tt, with_entries (without_path file_path (disk_entries s)) s)
      end
  | None => (Raises (Exception "FileNotFoundError"), s)
  end.

(** [files.sort(key=lambda x: x[1], reverse=True)]: a stable sort, newest
    first.  Where [<] orders the keys the result of a stable sort is
    determined by the order, and stable insertion gives it. *)
Fixpoint insert_newest_first (x : string * Time) (l : list (string * Time))
  : list (string * Time) :=
  match l with
  | [] => [x]
  | y :: rest =>
      if time_lt (snd x) (snd y) then y :: insert_newest_first x rest
      else x :: y :: rest
  end.

Fixpoint sort_newest_first (l : list (string * Time)) : list (string * Time) :=
  match l with
  | [] => []
  | x :: rest => insert_newest_first x (sort_newest_first rest)
  end.

(** [files[:keep_latest] if keep_latest > 0 else []] *)
Definition protected_files (keep_latest : Z) (files : list (string * Time))
  : list (string * Time) :=
  if 0 <? keep_latest then firstn (Z.to_nat keep_latest) files else [].

(** [for file_path, mod_time in files: ...] (lines 60-74) *)
Fixpoint delete_old_files (files : list (string * Time)) (protected_paths : list string)
         (cutoff_timestamp : Time) (deleted_count deleted_size : Z) (s : CleanupWorld)
  : Z * Z * CleanupWorld :=
  match files with
  | [] => (deleted_count, deleted_size, s)
  | (file_path, mod_time) :: rest =>
      if list_contains file_path protected_paths then
        delete_old_files rest protected_paths cutoff_timestamp deleted_count deleted_size s
      else if time_lt mod_time cutoff_timestamp then
        match os_path_getsize file_path s with
        | Returns file_size =>
            match os_remove file_path s with
            | (Returns _, s1) =>
                delete_old_files rest protected_paths cutoff_timestamp
                  (deleted_count + 1) (deleted_size + file_size)
                  (cleanup_logs CleanupDebug "Deleted old file" s1)
            | (Raises e, s1) =>
                delete_old_files rest protected_paths cutoff_timestamp
                  deleted_count deleted_size
                  (cleanup_logs CleanupError "Error deleting file" s1)
            end
        | Raises e =>
            delete_old_files rest protected_paths cutoff_timestamp
              deleted_count deleted_size
              (cleanup_logs CleanupError "Error deleting file" s)
        end
      else
        delete_old_files rest protected_paths cutoff_timestamp deleted_count deleted_size s
  end.

(** The list [files] of [cleanup_folder] before it is sorted (lines
    38-43). *)
Definition listed_files (listing : list FolderEntry) : list (string * Time) :=
  map (fun e => (entry_path e, entry_mtime e)) (filter entry_is_file listing).

(** [cleanup_folder] ([cleanup_manager.py], lines 18-87) *)
Definition cleanup_folder (folder_name : string) (max_age_days keep_latest : Z)
           (s : CleanupWorld) : outcome CleanupResult * CleanupWorld :=
  let folder_path := os_path_join (base_dir s) folder_name in
  if negb (cleanup_path_exists folder_path s) then
    (Returns Skipped, cleanup_logs CleanupWarning "Folder does not exist, skipping cleanup" s)
  else
    let s1 := cleanup_logs CleanupInfo "Starting cleanup" s in
    match os_listdir folder_path s1 with
    | Raises e => (Raises e, s1)
    | Returns listing =>
        let files := sort_newest_first (listed_files listing) in
        let protected_paths := map fst (protected_files keep_latest files) in
        match cutoff_of s1 max_age_days with
        | Raises e => (Raises e, s1)
        | Returns cutoff_timestamp =>
            let '(deleted_count, deleted_size, s2) :=
              delete_old_files files protected_paths cutoff_timestamp 0 0 s1 in
            let s3 := cleanup_logs CleanupInfo "Cleanup completed" s2 in
            (Returns (Completed folder_path deleted_count deleted_size (now_isoformat s3)), s3)
        end
    end.
End Cleanup.

Arguments mk_entry {Time}.
Arguments entry_folder {Time}.
Arguments entry_path {Time}.
Arguments entry_is_file {Time}.
Arguments entry_mtime {Time}.
Arguments entry_size {Time}.
Arguments entry_remove_error {Time}.
Arguments mk_cleanup_world {Time}.
Arguments base_dir {Time}.
Arguments directories {Time}.
Arguments disk_entries {Time}.
Arguments cutoff_of {Time}.
Arguments now_isoformat {Time}.
Arguments cleanup_log {Time}.
Arguments cleanup_logs {Time}.
Arguments with_entries {Time}.
Arguments cleanup_path_exists {Time}.
Arguments os_listdir {Time}.
Arguments os_path_getsize {Time}.
Arguments without_path {Time}.
Arguments os_remove {Time}.
Arguments insert_newest_first {Time}.
Arguments sort_newest_first {Time}.
Arguments protected_files {Time}.
Arguments delete_old_files {Time}.
Arguments listed_files {Time}.
Arguments cleanup_folder {Time}.

(* ================================================================== *)
(** * LLMAnalyzer: the call of the API with retries *)
(* ================================================================== *)

(** What [requests.post] returns, as far as the retry loop reads it: the
    status, the [Retry-After] header when there is one, and the text. *)
Record Response : Type := mk_response {
  status_code : Z;
  retry_after_header : option string;
  response_text : string
}.

(** The argument of [time.sleep]: an [int] of seconds after a 429, and
    otherwise [base_delay * (2 ** attempt) + random.uniform(0, 1)], a float
    kept here as its two terms. *)
Inductive Delay (Jitter : Type) : Type :=
  | Seconds (retry_after : Z)
  | Backoff (whole : Z) (jitter : Jitter).
Arguments Seconds {Jitter}.
Arguments Backoff {Jitter}.

(** The world of the retry loop, over a state [Net] that every call may
    change. *)
Record Http (Request Jitter Net : Type) : Type := mk_http {
  (** [requests.post(url, headers=headers, json=payload, timeout=60)] *)
  requests_post : Request -> Net -> outcome Response * Net;
  (** [time.sleep(...)] *)
  time_sleep : Delay Jitter -> Net -> outcome unit * Net;
  (** [random.uniform(0, 1)] *)
  random_uniform : Net -> Jitter * Net;
  (** [int(text)] for the text of a header *)
  int_of_header : string -> outcome Z;
  (** [isinstance(e, (ConnectionError, Timeout))] *)
  is_connection_failure : exn -> bool
}.
Arguments requests_post {Request Jitter Net}.
Arguments time_sleep {Request Jitter Net}.
Arguments random_uniform {Request Jitter Net}.
Arguments int_of_header {Request Jitter Net}.
Arguments is_connection_failure {Request Jitter Net}.

Section Retry.
Context {Request Jitter Net : Type}.
Variable http : Http Request Jitter Net.

Local Abbreviation IO := (IO (R := Net)).

(** [try: body  except (ConnectionError, Timeout) as e: handler(e)]: any
    other exception goes on. *)
Definition try_except_if {A} (catches : exn -> bool) (body : IO A) (handler : exn -> IO A)
  : IO A :=
  fun w => match body w with
           | (Returns a, w') => (Returns a, w')
           | (Raises e, w') => if catches e then handler e w' else (Raises e, w')
           end.

(** How one turn of the loop ends: with [continue] or the end of the body,
    or with [return response]. *)
Inductive Turn : Type :=
  | NextAttempt
  | ReturnResponse (response : Response).

(** [delay = base_delay * (2 ** attempt) + random.uniform(0, 1)], the
    warning and [time.sleep(delay)]. *)
Definition sleep_backoff (base_delay attempt : Z) : IO unit :=
  jitter <- call (fun s => let (j, s') := random_uniform http s in (Returns j, s')) ;;
  logger WARNING "Retrying after a delay" ;;
  call (time_sleep http (Backoff (base_delay * 2 ^ attempt) jitter)).

(** The body of [try:] (lines 113-133). *)
Definition attempt_body (request : Request) (max_retries base_delay attempt : Z) : IO Turn :=
  response <- call (requests_post http request) ;;
  if status_code response =? 429 then
    retry_after <-
      of_outcome (match retry_after_header response with
                  | Some text => int_of_header http text
                  | None => Returns (base_delay * 2 ^ attempt)
                  end) ;;
    logger WARNING "Rate limited" ;;
    call (time_sleep http (Seconds retry_after)) ;;
    ret NextAttempt
  else if status_code response =? 200 then
    ret (ReturnResponse response)
  else if attempt <? max_retries - 1 then
    sleep_backoff base_delay attempt ;;
    ret NextAttempt
  else
    logger ERROR "API request failed" ;;
    ret (ReturnResponse response).

(** The [except] clause (lines 135-142). *)
Definition attempt_handler (max_retries base_delay attempt : Z) (e : exn) : IO Turn :=
  if attempt <? max_retries - 1 then
    sleep_backoff base_delay attempt ;;
    ret NextAttempt
  else
    logger ERROR "Connection failed" ;;
    raise e.

(** [for attempt in range(max_retries)], with [remaining] turns to go,
    and the [raise] after the loop. *)
Fixpoint retry_loop (request : Request) (max_retries base_delay : Z)
         (remaining : nat) (attempt : Z) : IO Response :=
  match remaining with
  | O => raise (Exception "API request failed after all attempts")
  | S remaining' =>
      turn <- try_except_if (is_connection_failure http)
                (attempt_body request max_retries base_delay attempt)
                (attempt_handler max_retries base_delay attempt) ;;
      match turn with
      | NextAttempt => retry_loop request max_retries base_delay remaining' (attempt + 1)
      | ReturnResponse response => ret response
      end
  end.

(** [_call_api_with_retry] ([llm_analyzer.py], lines 109-145) *)
Definition _call_api_with_retry (request : Request) (max_retries base_delay : Z)
  : IO Response :=
  retry_loop request max_retries base_delay (Z.to_nat max_retries) 0.
End Retry.

(* ================================================================== *)
(** * A Telegram server to run the collector against *)
(* ================================================================== *)

(** The server is not part of the repository.  It is modelled here as
    Telegram documents [messages.getHistory]: channels with their
    histories, a request being answered with the newest messages whose id
    lies strictly between [min_id] and [max_id], at most [limit] of them
    ("min_id: if a positive value was transferred, the method will return
    only messages with IDs more than min_id"; likewise "less than max_id").
    Faults are part of the state: handles that do not resolve, channels
    whose history cannot be read, media that cannot be downloaded. *)
Module Telegram.

Record Channel : Type := mk_channel {
  handle : string;
  entity : Entity;
  (** newest first, as the server lists it *)
  history : list Message
}.

Record Server : Type := mk_server {
  channels : list Channel;
  (** the instant [datetime.now] reads, in microseconds *)
  clock : Z;
  (** ids of the channels whose history request raises *)
  private_channels : list Z;
  (** ids of the messages whose media download raises *)
  broken_media : list Z
}.

Definition find_channel (s : Server) (name : string) : option Channel :=
  find (fun c => String.eqb (handle c) name) (channels s).

Definition find_peer (s : Server) (e : Entity) : option Channel :=
  find (fun c => entity_id (entity c) =? entity_id e) (channels s).

Definition mem (x : Z) (l : list Z) : bool := existsb (Z.eqb x) l.

(** [min_id]: only messages with ids more than it; [max_id]: only
    messages with ids less than it; both when positive. *)
Definition in_range (req : GetHistoryRequest) (m : Message) : bool :=
  (if 0 <? min_id req then min_id req <? msg_id m else true)
  && (if 0 <? max_id req then msg_id m <? max_id req else true).

(** [messages.getHistory] from the newest message ([offset_id = 0],
    [add_offset = 0], as the collector asks). *)
Definition get_history (hist : list Message) (req : GetHistoryRequest) : list Message :=
  firstn (Z.to_nat (limit req)) (filter (in_range req) hist).

Definition get_entity (name : string) (s : Server) : outcome Entity * Server :=
  match find_channel s name with
  | Some c => (Returns (entity c), s)
  | None => (Raises (Exception "ValueError: no such channel"), s)
  end.

Definition invoke (req : GetHistoryRequest) (s : Server) : outcome (list Message) * Server :=
  match find_peer s (peer req) with
  | Some c =>
      if mem (entity_id (entity c)) (private_channels s)
      then (Raises (Exception "ChannelPrivateError"), s)
      else (Returns (get_history (history c) req), s)
  | None => (Raises (Exception "ChannelInvalidError"), s)
  end.

Definition download (m : Message) (s : Server) : outcome (option string) * Server :=
  if mem (msg_id m) (broken_media s)
  then (Raises (Exception "ConnectionError"), s)
  else (Returns (Some ("media/" +++ str (msg_id m))), s).

Definition get_messages (e : Entity) (id : Z) (s : Server)
  : outcome (option Message) * Server :=
  match find_peer s e with
  | Some c => (Returns (find (fun m => msg_id m =? id) (history c)), s)
  | None => (Raises (Exception "ChannelInvalidError"), s)
  end.

Definition now (s : Server) : Z * Server := (clock s, s).

Definition client : Client Server :=
  mk_client Server get_entity None invoke download get_messages now.

(** [json.loads] for the sample runs: the dump of one of the [known]
    dictionaries parses back to it, any other text is malformed. *)
Definition loads (known : list Tracking) (text : string) : outcome Tracking :=
  match find (fun d => String.eqb (json_dumps d) text) known with
  | Some d => Returns d
  | None => Raises (Exception "JSONDecodeError")
  end.

(** A text message at 12:00:00 UTC with the given seconds, on
    2024-03-01. *)
Definition text_message (id sec : Z) : Message :=
  mk_message id (mk_datetime 2024 3 1 12 0 sec 0 utc) (Some "hello"%string)
             NoMedia None (Some 1) (Some 0).

Definition photo_message (id sec : Z) : Message :=
  mk_message id (mk_datetime 2024 3 1 12 0 sec 0 utc) (Some "look"%string)
             MessageMediaPhoto None (Some 1) (Some 0).

Definition channel (name : string) (id : Z) (hist : list Message) : Channel :=
  mk_channel name (mk_entity id (Some name) (Some name) None) hist.

(** Noon of 2024-03-01 plus one hour. *)
Definition one_pm : Z :=
  timestamp (mk_datetime 2024 3 1 13 0 0 0 utc).

(** The file object of the sample runs passes nothing on before it is
    closed, as Python's does with a text shorter than its buffer. *)
Definition holds_back (held : string) : nat := 0%nat.

Definition healthy_fs (content : option string) : FileSystem :=
  mk_fs content None None None None EmptyString holds_back.

Definition world (s : Server) (f : FileSystem) : World Server :=
  mk_world s f [].

(** ** Sample channels *)

(** A message of 2024-02-20, long before [one_pm]. *)
Definition old_message (id : Z) : Message :=
  mk_message id (mk_datetime 2024 2 20 8 0 0 0 utc) (Some "old news"%string)
             NoMedia None (Some 9) (Some 2).

(** The channel [news], id 1001, with the messages 11, 12 and 13 of
    2024-03-01 and the message 5 of 2024-02-20. *)
Definition news : Channel :=
  channel "news" 1001
          [text_message 13 3; text_message 12 2; text_message 11 1; old_message 5].

(** The channel [gallery], id 2002: a text message and, after it, a photo. *)
Definition gallery : Channel :=
  channel "gallery" 2002 [photo_message 23 5; text_message 22 4].

(** The watermarks of an earlier run. *)
Definition tracked : Tracking := [("1001"%string, 10); ("2002"%string, 20)].

(** Both channels, at one o'clock. *)
Definition server : Server := mk_server [news; gallery] one_pm [] [].

(** The same server when the photo 23 cannot be downloaded. *)
Definition server_broken_photo : Server := mk_server [news; gallery] one_pm [] [23].

(** A first run: no tracking file yet. *)
Definition first_run : World Server := world server (healthy_fs None).

(** A later run: the tracking file holds [tracked]. *)
Definition later_run : World Server :=
  world server (healthy_fs (Some (json_dumps tracked))).

(** A later run on a device where the tracking file cannot be opened for
    writing. *)
Definition read_only_run : World Server :=
  world server (mk_fs (Some (json_dumps tracked)) None None
                      (Some (Exception "PermissionError")) None EmptyString holds_back).

(** A later run on a device that is full: it takes no write. *)
Definition full_disk_run : World Server :=
  world server (mk_fs (Some (json_dumps tracked)) None None None (Some 0%nat)
                      EmptyString holds_back).

(** A later run against the server whose photo cannot be downloaded. *)
Definition later_run_broken_photo : World Server :=
  world server_broken_photo (healthy_fs (Some (json_dumps tracked))).

(** The parser of the sample runs. *)
Definition parse : string -> outcome Tracking := loads [tracked].

(** Two channels in two time zones: [home] posts at 12:00 UTC, [abroad]
    posts at 12:30 of a zone two hours ahead, which is 10:30 UTC. *)
Definition noon_utc : datetime := mk_datetime 2024 3 1 12 0 0 0 utc.
Definition half_past_noon_plus_two : datetime :=
  mk_datetime 2024 3 1 12 30 0 0 (Some 7200).

Definition server_two_zones : Server :=
  mk_server
    [ channel "home" 3003
        [mk_message 31 noon_utc (Some "at noon"%string) NoMedia None None None];
      channel "abroad" 4004
        [mk_message 41 half_past_noon_plus_two (Some "earlier"%string)
                    NoMedia None None None] ]
    one_pm [] [].

Definition two_zones_run : World Server := world server_two_zones (healthy_fs None).




(** A server all of whose messages carry dates that [ok] accepts. *)
Definition dated_by (ok : datetime -> Prop) (s : Server) : Prop :=
  Forall (fun c => Forall (fun m => ok (msg_date m)) (history c)) (channels s).

(** A server in order: in every history the ids are positive and all
    different. *)
Definition tidy (s : Server) : Prop :=
  Forall (fun c => NoDup (map msg_id (history c))
                   /\ Forall (fun m => 0 < msg_id m) (history c))
         (channels s).
End Telegram.

(* ================================================================== *)
(** * The vocabulary of the properties *)
(* ================================================================== *)

(** [max(W, i1, ..., in)] *)
Definition max_with (W : Z) (ids : list Z) : Z := fold_right Z.max W ids.

(** The chunks, one after the other. *)
Definition concat_chunks (chunks : list string) : string :=
  fold_right String.append EmptyString chunks.

(** A device without faults. *)
Definition writable (f : FileSystem) : Prop :=
  makedirs_error f = None /\ open_write_error f = None /\ write_capacity f = None.

(** In the middle of a save on a device that takes every write: the text
    on the device, followed by the text the file object holds, is
    [text]. *)
Definition mid_save {R : Type} (text : string) (w : World R) : Prop :=
  write_capacity (fs w) = None /\
  exists passed, tracking_file (fs w) = Some passed /\
                 passed +++ write_buffer (fs w) = text.

(** The file object passes nothing on before it is closed. *)
Definition holds_everything (f : FileSystem) : Prop :=
  forall held, buffering f held = 0%nat.

(** The record made of a message carries its id, its channel and the
    text of its date. *)
Definition renders (entity : Entity) (m : Message) (nm : NormalizedMessage) : Prop :=
  nm_id nm = msg_id m /\ nm_channel_id nm = entity_id entity /\
  nm_date nm = isoformat (msg_date m).

(** The pass filters by date and the message is older than the bound:
    the instants are compared, that of a naive date being its instant in
    UTC. *)
Definition too_old (use_id_tracking : bool) (since_date : Z) (msg : Message) : bool :=
  negb use_id_tracking && (timestamp (aware (msg_date msg)) <? since_date).

(** The messages that pass the date filter. *)
Definition kept (use_id_tracking : bool) (since_date : Z) (msgs : list Message)
  : list Message :=
  filter (fun m => negb (too_old use_id_tracking since_date m)) msgs.

(** The message is not older than the bound, its date read as UTC when it
    is naive. *)
Definition within_window (since_date : Z) (m : Message) : bool :=
  since_date <=? timestamp (aware (msg_date m)).

(** The ids of the records of one channel. *)
Definition emitted_ids (channel_id : string) (msgs : list NormalizedMessage) : list Z :=
  map nm_id (filter (fun m => String.eqb (str (nm_channel_id m)) channel_id) msgs).

(** The key of a record: its channel and its id. *)
Definition record_key (m : NormalizedMessage) : Z * Z := (nm_channel_id m, nm_id m).

(** The order of the sort: the [date] strings, code point by code point. *)
Definition date_le (a b : NormalizedMessage) : Prop :=
  String.leb (nm_date a) (nm_date b) = true.

(** The invariant of the loop, [tracking0] being the dictionary it starts
    from: no two records share a key; the entry of a record's channel is
    positive and not below the record's id; no positive entry goes down;
    and a record is above the entry its channel started with. *)
Definition deduplicated (tracking0 : Tracking) (st : RunState) : Prop :=
  NoDup (map record_key (snd st)) /\
  (forall m, In m (snd st) ->
     exists t, dict_get (str (nm_channel_id m)) (fst st) = Some t /\ 0 < t /\ nm_id m <= t) /\
  (forall cid W, dict_get cid tracking0 = Some W -> 0 < W ->
     exists t, dict_get cid (fst st) = Some t /\ W <= t) /\
  (forall m W, In m (snd st) ->
     dict_get (str (nm_channel_id m)) tracking0 = Some W -> 0 < W -> W < nm_id m).

(** The offset of a datetime, a naive one read as UTC. *)
Definition utcoffset (d : datetime) : Z :=
  match tzinfo d with Some off => off | None => 0 end.

(** The date of a message as Telethon delivers it: a datetime, which is
    valid as every [datetime] is, and aware with the zone UTC. *)
Definition utc_date (d : datetime) : Prop :=
  valid_datetime d = true /\ tzinfo d = utc.

(** The instants do not go down along the list. *)
Definition by_instant (d1 d2 : datetime) : Prop := timestamp d1 <= timestamp d2.

(** The date of the record is the text of a date [ok] accepts. *)
Definition dated (ok : datetime -> Prop) (nm : NormalizedMessage) (d : datetime) : Prop :=
  nm_date nm = isoformat d /\ ok d.

(** The records are in the order of the instants, as far as [same] goes:
    whenever the dates of a record and of a later one are the texts of two
    valid datetimes that [same] relates, the first instant is not after
    the second. *)
Definition chronological (same : datetime -> datetime -> Prop)
           (corpus : list NormalizedMessage) : Prop :=
  forall i j r1 r2 d1 d2,
    (i < j)%nat -> nth_error corpus i = Some r1 -> nth_error corpus j = Some r2 ->
    valid_datetime d1 = true -> valid_datetime d2 = true ->
    nm_date r1 = isoformat d1 -> nm_date r2 = isoformat d2 ->
    same d1 d2 ->
    timestamp d1 <= timestamp d2.

(** First difference decides. *)
Definition lex (c1 c2 : comparison) : comparison :=
  match c1 with Eq => c2 | _ => c1 end.

(** The part of [isoformat] after the seconds. *)
Definition iso_tail (d : datetime) : string :=
  (if microsecond d =? 0 then EmptyString else "." +++ zpad 6 (microsecond d))
  +++ match tzinfo d with
      | None => EmptyString
      | Some off => format_offset off
      end.

(** The day a leap year adds. *)
Definition leap_day (y : Z) : Z := if is_leap y then 1 else 0.

Section Vocabulary.
Context {R : Type}.

(** A property of the world that a computation keeps. *)
Definition preserves {A} (P : World R -> Prop) (c : IO (R := R) A) : Prop :=
  forall w, P w -> P (snd (c w)).

Variable client : Client R.

(** [datetime.now(timezone.utc)] as a call. *)
Definition read_clock : IO (R := R) Z :=
  call (fun r => let (t, r') := datetime_now_utc client r in (Returns t, r')).

(** A property of the world that no call of the client and no line of
    the log breaks. *)
Record stable (P : World R -> Prop) : Prop := mk_stable {
  stable_logger : forall lvl text, preserves P (logger lvl text);
  stable_get_entity : forall u, preserves P (call (client_get_entity client u));
  stable_count : forall count e,
      client_get_participants_count client = Some count ->
      preserves P (call (count e));
  stable_call : forall req, preserves P (call (client_call client req));
  stable_download : forall m, preserves P (call (client_download_media client m));
  stable_get_messages : forall e id,
      preserves P (call (client_get_messages client e id));
  stable_now : preserves P read_clock
}.

(** What the run relies on from the server, in the states [good] a run
    can meet: the ids of an answer are positive and all different, and
    none is below a positive [min_id] (whether or not the bound itself may
    come back). *)
Record well_behaved (good : R -> Prop) : Prop := mk_well_behaved {
  good_stable : stable (fun w => good (remote w));
  unique_ids : forall req r msgs r',
      good r -> client_call client req r = (Returns msgs, r') ->
      NoDup (map msg_id msgs);
  positive_ids : forall req r msgs r',
      good r -> client_call client req r = (Returns msgs, r') ->
      Forall (fun m => 0 < msg_id m) msgs;
  honours_min_id : forall req r msgs r',
      good r -> client_call client req r = (Returns msgs, r') ->
      0 < min_id req -> Forall (fun m => min_id req <= msg_id m) msgs
}.

(** What the order and the window of a corpus rely on from the client, in
    the states [good] a run can meet: the dates of the messages of an
    answer are dates that [ok] accepts. *)
Record delivers_dates (good : R -> Prop) (ok : datetime -> Prop) : Prop :=
  mk_delivers_dates {
  dates_good_stable : stable (fun w => good (remote w));
  dates_of_answers : forall req r msgs r',
      good r -> client_call client req r = (Returns msgs, r') ->
      Forall (fun m => ok (msg_date m)) msgs
}.

(** The resolution of the channel raises, or its fetch does. *)
Definition channel_unreachable (username : string) (lim fallback_hours : Z)
           (tracking : Tracking) (w : World R) : Prop :=
  (exists e r, client_get_entity client username (remote w) = (Raises e, r)) \/
  (exists e w1, resolve_channel client username w = (Raises e, w1)) \/
  (exists entity info w1 e w2,
      resolve_channel client username w = (Returns (entity, info), w1) /\
      fetch_messages client entity lim fallback_hours (str (entity_id entity)) tracking w1
      = (Raises e, w2)).
End Vocabulary.

(** The run on the sample server, with the sample parser. *)
Definition sample_run (channel_usernames : list string) (w : World Telegram.Server)
  : outcome (list NormalizedMessage) * World Telegram.Server :=
  get_new_messages_without_duplication Telegram.client Telegram.parse
    channel_usernames 100 24 w.

(** The handles of the two sample channels. *)
Definition both : list string := ["news"%string; "gallery"%string].

(* ================================================================== *)
(** * The vocabulary of the further properties *)
(* ================================================================== *)

(** One list is the other with some of its elements left out. *)
Inductive subsequence {A : Type} : list A -> list A -> Prop :=
  | subsequence_nil : subsequence [] []
  | subsequence_keep : forall x l l', subsequence l l' -> subsequence (x :: l) (x :: l')
  | subsequence_skip : forall x l l', subsequence l l' -> subsequence l (x :: l').

Section Vocabulary2.
Context {R : Type}.
Variable client : Client R.

(** The handle resolves in the state [r] of the remote side. *)
Definition resolves (username : string) (r : R) : bool :=
  match fst (client_get_entity client username r) with
  | Returns _ => true
  | Raises _ => false
  end.

(** Looking a handle up changes nothing on the remote side. *)
Definition lookups_are_pure : Prop :=
  forall username r, snd (client_get_entity client username r) = r.
End Vocabulary2.

(** The record [get_new_messages] makes of a message: its id, its
    channel, the text of its date made aware, and the channel's description
    as [channel_info] has it. *)
Definition window_renders (entity : Entity) (channel_info : ChannelInfo)
           (m : Message) (nm : NormalizedMessage) : Prop :=
  nm_id nm = msg_id m /\ nm_channel_id nm = entity_id entity /\
  nm_date nm = isoformat (aware (msg_date m)) /\
  nm_text nm = text_of m /\
  nm_channel_title nm = info_title channel_info /\
  nm_channel_username nm = info_username channel_info /\
  nm_channel_description nm = info_description channel_info.

(** The date text of the record is that of a datetime, valid as every
    [datetime] is and aware, that is not before the bound. *)
Definition dated_since (since_date : Z) (nm : NormalizedMessage) : Prop :=
  exists d, nm_date nm = isoformat d /\ valid_datetime d = true /\
            tzinfo d <> None /\ since_date <= timestamp d.

Section Vocabulary3.
Context {R : Type}.
Variable client : Client R.

(** The bound of the window of a run that starts in [w]: the reading of
    the clock less [since_hours]. *)
Definition window_bound (since_hours : Z) (w : World R) : Z :=
  fst (datetime_now_utc client (remote w)) - since_hours * 3600 * 1000000.

(** A bound that a [datetime] can hold. *)
Definition representable (since_date : Z) : Prop :=
  0 <= since_date < max_timestamp.
End Vocabulary3.

Section Vocabulary4.
Context {R : Type}.

(** The computation looks at the remote side only: what it returns or
    raises, and the state it leaves there, depend neither on the files nor
    on the log. *)
Definition remote_only {A} (c : IO (R := R) A) : Prop :=
  forall w1 w2, remote w1 = remote w2 ->
                fst (c w1) = fst (c w2) /\ remote (snd (c w1)) = remote (snd (c w2)).

(** No call of the client changes the remote side. *)
Definition quiet (client : Client R) : Prop :=
  forall r, stable client (fun w => remote w = r).

(** No call of the client other than the reading of the clock changes the
    remote side. *)
Definition silent (client : Client R) : Prop :=
  (forall u r, snd (client_get_entity client u r) = r) /\
  (forall count e r,
      client_get_participants_count client = Some count -> snd (count e r) = r) /\
  (forall req r, snd (client_call client req r) = r) /\
  (forall m r, snd (client_download_media client m r) = r) /\
  (forall e id r, snd (client_get_messages client e id r) = r).

(** The client with its clock stopped: a reading leaves the remote side
    as it is. *)
Definition with_still_clock (client : Client R) : Client R :=
  mk_client R (client_get_entity client) (client_get_participants_count client)
            (client_call client) (client_download_media client)
            (client_get_messages client)
            (fun r => (fst (datetime_now_utc client r), r)).

(** The record is described by the handle alone. *)
Definition titled_by_handle (username : string) (nm : NormalizedMessage) : Prop :=
  nm_channel_title nm = Some username /\ nm_channel_username nm = None /\
  nm_channel_description nm = None.
End Vocabulary4.

(** A client that may not count the participants of a channel. *)
Definition client_without_counts : Client Telegram.Server :=
  mk_client Telegram.Server Telegram.get_entity
    (Some (fun _ s => (Raises (Exception "ChatAdminRequiredError"), s)))
    Telegram.invoke Telegram.download Telegram.get_messages Telegram.now.

(** The sample client with a clock that goes: each reading moves it a
    second on. *)
Definition tick (s : Telegram.Server) : Z * Telegram.Server :=
  (Telegram.clock s,
   Telegram.mk_server (Telegram.channels s) (Telegram.clock s + 1000000)
                      (Telegram.private_channels s) (Telegram.broken_media s)).

Definition ticking_client : Client Telegram.Server :=
  mk_client Telegram.Server Telegram.get_entity None Telegram.invoke Telegram.download
            Telegram.get_messages tick.

(** [isinstance(e, ValueError)] for the exceptions of the sample server. *)
Definition is_value_error (e : exn) : bool :=
  match e with Exception what => prefix "ValueError" what end.


(** The ids of a list, each once, in the order of their first
    appearance. *)
Fixpoint first_appearances (ids : list Z) : list Z :=
  match ids with
  | [] => []
  | id :: rest => id :: filter (fun x => negb (x =? id)) (first_appearances rest)
  end.

(** The number of records of a channel. *)
Definition records_of (channel_id : Z) (messages : list NormalizedMessage) : Z :=
  Z.of_nat (List.length (filter (fun m => nm_channel_id m =? channel_id) messages)).

(** The first record of a channel. *)
Definition first_record_of (channel_id : Z) (messages : list NormalizedMessage)
  : option NormalizedMessage :=
  find (fun m => nm_channel_id m =? channel_id) messages.

(** The counts of the entries, added up. *)
Definition total_count (entries : list ChannelStats) : Z :=
  fold_right Z.add 0 (map stats_message_count entries).

(** The entry under a key. *)
Fixpoint stats_lookup (channel_id : Z) (channel_stats : StatsDict) : option ChannelStats :=
  match channel_stats with
  | [] => None
  | (k, entry) :: rest => if k =? channel_id then Some entry else stats_lookup channel_id rest
  end.

(** The count under a key, 0 when the key is not there. *)
Definition count_under (channel_id : Z) (channel_stats : StatsDict) : Z :=
  match stats_lookup channel_id channel_stats with
  | Some entry => stats_message_count entry
  | None => 0
  end.

(** Each entry is the first under its key and carries that key. *)
Definition stats_well_keyed (channel_stats : StatsDict) : Prop :=
  NoDup (map fst channel_stats) /\
  Forall (fun kv => stats_channel_id (snd kv) = fst kv) channel_stats.

(** ** The configuration *)

(** The manager on another disk. *)
Definition on_disk (d : ConfigDisk) (m : ConfigManager) : ConfigManager :=
  mk_manager (config m) d (manager_log m).

(** How often a handle is listed. *)
Definition occurrences (x : string) (l : list string) : nat :=
  List.length (filter (String.eqb x) l).

(** A manager with the default lists, two channels configured. *)
Definition sample_manager : ConfigManager :=
  mk_manager
    (mk_config (Some (mk_telegram (Some ["news"%string; "gallery"%string]) (Some [])))
               (Some [("news"%string, "Daily news"%string)]) None)
    (mk_disk NoConfigFile None None) [].

(** ** The retention of files *)

Section CleanupVocabulary.
Context {Time : Type}.
Variable time_lt : Time -> Time -> bool.

(** The entries of a folder. *)
Definition entries_of (folder_path : string) (s : CleanupWorld Time) : list (FolderEntry Time) :=
  filter (fun e => String.eqb (entry_folder e) folder_path) (disk_entries s).

(** The paths [cleanup_folder] protects in a folder: those of the first
    [keep_latest] regular files, newest first. *)
Definition protected_paths_of (folder_path : string) (keep_latest : Z)
           (s : CleanupWorld Time) : list string :=
  map fst
    (protected_files keep_latest
       (sort_newest_first time_lt (listed_files (entries_of folder_path s)))).

(** The entry can be removed. *)
Definition removable (e : FolderEntry Time) : bool :=
  match entry_remove_error e with None => true | Some _ => false end.

(** The entries that go: the regular files of the folder that are not
    protected, are older than the cutoff and can be removed. *)
Definition doomed (folder_path : string) (protected_paths : list string)
           (cutoff_timestamp : Time) (e : FolderEntry Time) : bool :=
  String.eqb (entry_folder e) folder_path && entry_is_file e
  && negb (list_contains (entry_path e) protected_paths)
  && time_lt (entry_mtime e) cutoff_timestamp
  && removable e.

(** The entries that the loop of [cleanup_folder] removes among those it
    is given: not protected, older than the cutoff, and removable. *)
Definition condemned (protected_paths : list string) (cutoff_timestamp : Time)
           (e : FolderEntry Time) : bool :=
  negb (list_contains (entry_path e) protected_paths)
  && time_lt (entry_mtime e) cutoff_timestamp
  && removable e.

(** The sizes of the entries, added up. *)
Definition total_size (entries : list (FolderEntry Time)) : Z :=
  fold_right Z.add 0 (map entry_size entries).

(** The first is not older than the second. *)
Definition not_older (a b : string * Time) : Prop := time_lt (snd a) (snd b) = false.

(** What [<] is on floats that are numbers: if [a < b] then not [b < a],
    and if neither [a < b] nor [b < c] then not [a < c]. *)
Definition orders_time : Prop :=
  (forall a b, time_lt a b = true -> time_lt b a = false) /\
  (forall a b c, time_lt a b = false -> time_lt b c = false -> time_lt a c = false).
End CleanupVocabulary.

(** A folder [data] with three files, of days 1, 9 and 5, and a
    subfolder; the cutoff is day 7 whatever the age asked for. *)
Definition sample_folder : CleanupWorld Z :=
  mk_cleanup_world "/app" ["/app/data"%string; "/app/data/old"%string]
    [ mk_entry "/app/data" "/app/data/a.json" true 1 100 None;
      mk_entry "/app/data" "/app/data/b.json" true 9 200 None;
      mk_entry "/app/data" "/app/data/old" false 2 0 None;
      mk_entry "/app/data" "/app/data/c.json" true 5 300 None ]
    (fun _ => Returns 7) "2024-03-10T00:00:00" [].

(** [os.path.join] for the sample folder. *)
Definition join_with_slash (a b : string) : string := a +++ "/" +++ b.

(** ** The retries *)

Section RetryVocabulary.
Context {Request Jitter Net : Type}.
Variable http : Http Request Jitter Net.

(** [made n s]: in the state [s], [n] requests have been posted.  Each
    post adds one; a sleep and a draw add none. *)
Definition counts_posts (made : nat -> Net -> Prop) : Prop :=
  (forall request n s, made n s -> made (S n) (snd (requests_post http request s))) /\
  (forall delay n s, made n s -> made n (snd (time_sleep http delay s))) /\
  (forall n s, made n s -> made n (snd (random_uniform http s))).

(** No sleep raises. *)
Definition sleeps_return : Prop :=
  forall delay s, fst (time_sleep http delay s) = Returns tt.

(** Every post is answered, with a status that [answers] accepts. *)
Definition always_answers (request : Request) (answers : Response -> Prop) : Prop :=
  forall s, exists response,
    fst (requests_post http request s) = Returns response /\ answers response.
End RetryVocabulary.

(** A server that gives one answer to every post and counts the posts;
    sleeping takes no time there. *)
Definition constant_server (response : Response) : Http unit unit nat :=
  mk_http unit unit nat
    (fun _ n => (Returns response, S n))
    (fun _ n => (Returns tt, n))
    (fun n => (tt, n))
    (fun _ => Raises (Exception "ValueError"))
    (fun _ => false).

Definition rate_limited : Response := mk_response 429 None "Too Many Requests".
Definition unavailable : Response := mk_response 503 None "Service Unavailable".

(** The world of a first call. *)
Definition no_posts_yet : World nat := mk_world 0%nat (mk_fs None None None None None EmptyString (fun _ => 0%nat)) [].

(* ================================================================== *)
(** * The program on small inputs *)
(* ================================================================== *)

Example isoformat_utc :
  isoformat (mk_datetime 2024 3 1 9 5 0 0 utc) = "2024-03-01T09:05:00+00:00"%string.
Proof. reflexivity. Qed.

Example isoformat_micro :
  isoformat (mk_datetime 2024 3 1 9 5 0 1500 (Some (-16200)))
  = "2024-03-01T09:05:00.001500-04:30"%string.
Proof. reflexivity. Qed.

Example str_examples : str 0 = "0"%string /\ str 1001 = "1001"%string /\ str (-7) = "-7"%string.
Proof. repeat split; reflexivity. Qed.

Example json_dumps_two :
  json_dumps [("1001"%string, 42); ("-7"%string, 3)]
  = "{" +++ newline +++ "  " +++ String quote "1001" +++ String quote ": 42,"
    +++ newline +++ "  " +++ String quote "-7" +++ String quote ": 3"
    +++ newline +++ "}".
Proof. reflexivity. Qed.

(* ================================================================== *)
(** * Facts about the Python values *)
(* ================================================================== *)

(** [str] tells ints apart: two channels never share a tracking key. *)
Lemma to_int_not_nil : forall z, Z.to_int z <> Pos Nil /\ Z.to_int z <> Neg Nil.
Proof.
  intros z. destruct z as [|p|p]; cbn; split; try discriminate;
    intro E; injection E as E; revert E; apply DecimalPos.Unsigned.to_uint_nonnil.
Qed.

Lemma str_inj : forall a b : Z, str a = str b -> a = b.
Proof.
  intros a b H. unfold str in H.
  apply (f_equal NilZero.int_of_string) in H.
  rewrite !NilZero.isi in H by apply to_int_not_nil.
  injection H as H. now apply DecimalZ.to_int_inj.
Qed.

Lemma dict_get_set_eq : forall (V : Type) (k : string) (v : V) d,
  dict_get k (dict_set k v d) = Some v.
Proof.
  induction d as [|[k' v'] d IH]; simpl.
  - now rewrite String.eqb_refl.
  - destruct (String.eqb k k') eqn:E; simpl.
    + now rewrite String.eqb_refl.
    + now rewrite E.
Qed.

Lemma dict_get_set_ne : forall (V : Type) (k k' : string) (v : V) d,
  k <> k' -> dict_get k' (dict_set k v d) = dict_get k' d.
Proof.
  induction d as [|[k0 v0] d IH]; simpl; intros Hne.
  - destruct (String.eqb_spec k' k); congruence.
  - destruct (String.eqb_spec k k0) as [->|Hk]; simpl.
    + destruct (String.eqb_spec k' k0); congruence.
    + destruct (String.eqb_spec k' k0); auto.
Qed.

Lemma max_with_app : forall W l l',
  max_with W (l ++ l') = max_with (max_with W l) l'.
Proof.
  unfold max_with. induction l as [|x l IH]; intros l'; simpl.
  - reflexivity.
  - rewrite IH. clear IH. induction l' as [|y l' IH]; simpl; lia.
Qed.

Lemma max_with_ge : forall W l, W <= max_with W l.
Proof. unfold max_with. induction l; simpl; lia. Qed.

Lemma max_with_bound : forall W l x, In x l -> x <= max_with W l.
Proof.
  unfold max_with. induction l as [|y l IH]; simpl; intros x H; [contradiction|].
  destruct H as [->|H]; [lia|]. specialize (IH _ H). lia.
Qed.

Lemma max_with_attained : forall W l,
  max_with W l = W \/ In (max_with W l) l.
Proof.
  unfold max_with. induction l as [|y l IH]; simpl; auto.
  destruct (Z.max_spec y (fold_right Z.max W l)) as [[_ ->]|[_ ->]]; intuition.
Qed.

Lemma py_max_none : forall l, py_max l = None -> l = [].
Proof. destruct l; simpl; auto. destruct (py_max l); discriminate. Qed.

Lemma py_max_some : forall l n W,
  py_max l = Some n -> max_with W l = Z.max n W.
Proof.
  unfold max_with. induction l as [|x l IH]; simpl; intros n W H; [discriminate|].
  destruct (py_max l) as [m|] eqn:E.
  - injection H as <-. rewrite (IH m W eq_refl). lia.
  - injection H as <-. apply py_max_none in E. subst. simpl. reflexivity.
Qed.

Lemma py_max_in : forall l n, py_max l = Some n -> In n l /\ Forall (fun x => x <= n) l.
Proof.
  induction l as [|x l IH]; simpl; intros n H; [discriminate|].
  destruct (py_max l) as [m|] eqn:E.
  - injection H as <-. destruct (IH m eq_refl) as [Hin Hall]. split.
    + destruct (Z.max_spec x m) as [[_ ->]|[_ ->]]; auto.
    + constructor; [lia|]. eapply Forall_impl; [|exact Hall]. simpl. intros; lia.
  - injection H as <-. apply py_max_none in E. subst. split; auto.
    constructor; [lia|constructor].
Qed.

(* ================================================================== *)
(** * Facts about effects *)
(* ================================================================== *)

Section EffectFacts.
Context {R : Type}.

Lemma preserves_ret : forall A (P : World R -> Prop) (a : A), preserves P (ret a).
Proof. intros A P a w H. exact H. Qed.

Lemma preserves_raise : forall A (P : World R -> Prop) e, preserves P (raise (A := A) e).
Proof. intros A P e w H. exact H. Qed.

Lemma preserves_bind : forall A B (P : World R -> Prop) (c : IO A) (k : A -> IO B),
  preserves P c -> (forall a, preserves P (k a)) -> preserves P (bind c k).
Proof.
  intros A B P c k Hc Hk w H. unfold bind.
  specialize (Hc w H). destruct (c w) as [[a|e] w']; simpl in *; auto.
  now apply Hk.
Qed.

Lemma preserves_try_except : forall A (P : World R -> Prop) (c : IO A) (h : exn -> IO A),
  preserves P c -> (forall e, preserves P (h e)) -> preserves P (try_except c h).
Proof.
  intros A P c h Hc Hh w H. unfold try_except.
  specialize (Hc w H). destruct (c w) as [[a|e] w']; simpl in *; auto.
  now apply Hh.
Qed.

Lemma preserves_of_outcome : forall A (P : World R -> Prop) (o : outcome A), preserves P (of_outcome o).
Proof. intros A P [a|e] w H; exact H. Qed.

(** The file system is out of reach of the client and of the logger. *)
Lemma call_keeps_fs : forall A (f : R -> outcome A * R) (f0 : FileSystem),
  preserves (fun w => fs w = f0) (call f).
Proof.
  intros A f f0 w H. unfold call. destruct (f (remote w)). exact H.
Qed.

Lemma logger_keeps_fs : forall lvl text (f0 : FileSystem),
  preserves (fun w : World R => fs w = f0) (logger lvl text).
Proof. intros lvl text f0 w H. exact H. Qed.
End EffectFacts.

(* ================================================================== *)
(** * The tracking file: load and save *)
(* ================================================================== *)

Ltac unfold_io :=
  unfold bind, ret, raise, try_except, call, logger, get_fs, put_fs, of_outcome in *.

(** Case analysis on what the next [match] of the goal looks at. *)
Ltac break_match :=
  match goal with
  | H : ?x = _ |- context [match ?x with _ => _ end] => rewrite H
  | |- context [match ?x with _ => _ end] =>
      lazymatch x with
      | context [match _ with _ => _ end] => fail
      | _ => destruct x eqn:?
      end
  end.

Ltac io_cases := unfold_io; repeat (cbn; break_match); cbn.

Section TrackingFileFacts.
Context {R : Type}.
Variable json_loads : string -> outcome Tracking.

Lemma load_keeps_fs : forall f0 : FileSystem,
  preserves (fun w : World R => fs w = f0) (_load_last_message_tracking json_loads).
Proof.
  intros f0 w H. unfold _load_last_message_tracking, os_path_exists, read_text.
  io_cases; auto.
Qed.

Lemma load_returns : forall w : World R,
  exists tracking w', _load_last_message_tracking json_loads w = (Returns tracking, w').
Proof.
  intros w. unfold _load_last_message_tracking, os_path_exists, read_text.
  io_cases; eexists _, _; reflexivity.
Qed.

(** C10.  Loading the tracking dictionary never raises.  The result is the
    empty dictionary when the file is absent, when it cannot be read and
    when its text does not parse; it is the stored dictionary when the file
    exists, can be read and parses, and in no other case. *)
Theorem load_never_raises : forall w : World R,
  exists tracking w',
    _load_last_message_tracking json_loads w = (Returns tracking, w') /\
    (tracking_file (fs w) = None -> tracking = []) /\
    (forall e, read_error (fs w) = Some e -> tracking = []) /\
    (forall text e, tracking_file (fs w) = Some text ->
                    json_loads text = Raises e -> tracking = []) /\
    (forall text d, tracking_file (fs w) = Some text -> read_error (fs w) = None ->
                    json_loads text = Returns d -> tracking = d) /\
    (tracking <> [] ->
     exists text, tracking_file (fs w) = Some text /\ read_error (fs w) = None /\
                  json_loads text = Returns tracking).
Proof.
  intros w. unfold _load_last_message_tracking, os_path_exists, read_text.
  io_cases; (eexists _, _; split; [reflexivity|]);
    repeat split; intros; try congruence; try contradiction.
  eexists; repeat split; eauto.
Qed.

(** ** Save *)

Lemma append_assoc : forall a b c : string, (a +++ b) +++ c = a +++ b +++ c.
Proof. induction a; simpl; intros; [reflexivity|now rewrite IHa]. Qed.

Lemma append_empty_r : forall a : string, a +++ EmptyString = a.
Proof. induction a; simpl; [reflexivity|now rewrite IHa]. Qed.

Lemma concat_chunks_app : forall l l',
  concat_chunks (l ++ l') = concat_chunks l +++ concat_chunks l'.
Proof.
  induction l as [|c l IH]; simpl; intros l'; [reflexivity|].
  now rewrite IH, append_assoc.
Qed.

(** What was written before an interruption is a beginning of the text. *)
Lemma firstn_chunks_prefix : forall n chunks,
  concat_chunks chunks
  = concat_chunks (firstn n chunks) +++ concat_chunks (skipn n chunks).
Proof.
  intros n chunks. rewrite <- concat_chunks_app. now rewrite firstn_skipn.
Qed.

Lemma string_take_drop : forall n s, string_take n s +++ string_drop n s = s.
Proof.
  induction n as [|n IH]; intros [|c s]; cbn; try reflexivity. now rewrite IH.
Qed.

(** One effect after the other, as long as the process is not stopped. *)
Lemma stopped_after_returns : forall (effect : IO (R := R) unit) rest k (w w' : World R),
  effect w = (Returns tt, w') ->
  stopped_after (S k) (effect :: rest) w = stopped_after k rest w'.
Proof. intros effect rest k w w' H. cbn [stopped_after]. now rewrite H. Qed.

Lemma device_write_takes : forall text passed (w : World R),
  write_capacity (fs w) = None -> tracking_file (fs w) = Some passed ->
  device_write text w
  = (Returns tt,
     mk_world (remote w) (set_tracking_file (fs w) (Some (passed +++ text)) None) (log w)).
Proof.
  intros text passed w Hcap Hfile. unfold device_write. unfold_io.
  now rewrite Hcap, Hfile.
Qed.

(** A write in the middle of a save: the chunk is added to what the
    device and the file object hold between them. *)
Lemma fp_write_mid_save : forall chunk text (w : World R),
  mid_save text w ->
  exists w',
    fp_write chunk w = (Returns tt, w') /\
    mid_save (text +++ chunk) w' /\
    buffering (fs w') = buffering (fs w) /\
    (holds_everything (fs w) -> tracking_file (fs w') = tracking_file (fs w)).
Proof.
  intros chunk text w (Hcap & passed & Hfile & Htext).
  unfold fp_write, pass_on. unfold bind, get_fs, put_fs, ret. cbn [fs write_buffer set_write_buffer].
  remember (write_buffer (fs w) +++ chunk) as held eqn:Hheld.
  destruct (string_take (buffering (fs w) held) held) as [|c text'] eqn:Htake.
  - eexists. split; [reflexivity|]. unfold mid_save. cbn. repeat split; auto.
    exists passed. split; [exact Hfile|].
    now rewrite Hheld, <- append_assoc, Htext.
  - erewrite device_write_takes; [|exact Hcap|exact Hfile]. cbn.
    eexists. split; [reflexivity|]. unfold mid_save. cbn. repeat split; auto.
    + eexists. split; [reflexivity|].
      rewrite append_assoc, <- Htake, string_take_drop.
      now rewrite Hheld, <- append_assoc, Htext.
    + intros Hall. rewrite Hall in Htake. cbn in Htake. discriminate.
Qed.

Lemma stopped_writing : forall chunks k text (w : World R),
  mid_save text w ->
  mid_save (text +++ concat_chunks (firstn k chunks))
           (stopped_after k (map fp_write chunks) w) /\
  (holds_everything (fs w) ->
   tracking_file (fs (stopped_after k (map fp_write chunks) w)) = tracking_file (fs w)).
Proof.
  induction chunks as [|c chunks IH]; intros k text w Hmid.
  - destruct k; cbn; rewrite append_empty_r; auto.
  - destruct k as [|k]; [cbn; rewrite append_empty_r; auto|].
    destruct (fp_write_mid_save c text w Hmid) as (w' & Hw & Hmid' & Hbuf & Hkeep).
    cbn [map firstn concat_chunks fold_right].
    rewrite (stopped_after_returns _ _ _ _ _ Hw).
    destruct (IH k (text +++ c) w' Hmid') as (H1 & H2).
    rewrite append_assoc in H1. split; [exact H1|].
    intros Hall. rewrite H2; [now apply Hkeep|].
    intros held. rewrite Hbuf. apply Hall.
Qed.

(** The writes run to their end, and the effects after them follow. *)
Lemma stopped_after_writes : forall chunks rest j text (w : World R),
  mid_save text w ->
  stopped_after (List.length chunks + j) (map fp_write chunks ++ rest) w
  = stopped_after j rest (stopped_after (List.length chunks) (map fp_write chunks) w).
Proof.
  induction chunks as [|c chunks IH]; intros rest j text w Hmid.
  - cbn. now destruct j.
  - destruct (fp_write_mid_save c text w Hmid) as (w' & Hw & Hmid' & _).
    cbn [List.length map Nat.add]. rewrite <- app_comm_cons.
    rewrite !(stopped_after_returns _ _ _ _ _ Hw). now apply (IH rest j (text +++ c)).
Qed.

(** Before the writes have run to their end, the effects after them do not
    count. *)
Lemma stopped_during_writes : forall (effects rest : list (IO (R := R) unit)) k (w : World R),
  (k <= List.length effects)%nat ->
  stopped_after k (effects ++ rest) w = stopped_after k effects w.
Proof.
  induction effects as [|effect effects IH]; intros rest k w Hk.
  - cbn in Hk. assert (k = 0%nat) by lia. subst k. reflexivity.
  - destruct k as [|k]; [reflexivity|]. rewrite <- app_comm_cons. cbn [stopped_after].
    destruct (effect w) as [[[]|e] w']; [|reflexivity].
    apply IH. cbn in Hk. lia.
Qed.

Lemma write_chunks_writes : forall chunks text (w : World R),
  mid_save text w ->
  write_chunks chunks w
  = (Returns tt, stopped_after (List.length chunks) (map fp_write chunks) w).
Proof.
  induction chunks as [|c chunks IH]; intros text w Hmid; cbn [write_chunks].
  - reflexivity.
  - destruct (fp_write_mid_save c text w Hmid) as (w' & Hw & Hmid' & _).
    cbn [List.length map]. rewrite (stopped_after_returns _ _ _ _ _ Hw).
    unfold bind. rewrite Hw. now apply (IH (text +++ c)).
Qed.

(** The close in the middle of a save: the whole text is on the device. *)
Lemma fp_close_mid_save : forall text (w : World R),
  mid_save text w ->
  exists w',
    fp_close w = (Returns tt, w') /\
    tracking_file (fs w') = Some text /\ write_buffer (fs w') = EmptyString.
Proof.
  intros text w (Hcap & passed & Hfile & Htext).
  unfold fp_close. unfold bind, get_fs, put_fs, ret. cbn [fs].
  destruct (write_buffer (fs w)) as [|c held] eqn:Hheld.
  - eexists. split; [reflexivity|]. cbn. rewrite append_empty_r in Htext.
    split; [congruence|reflexivity].
  - erewrite device_write_takes; [|exact Hcap|exact Hfile].
    eexists. split; [reflexivity|]. cbn. split; [now rewrite Htext|reflexivity].
Qed.

(** After the open the save is in its middle, with nothing written. *)
Lemma open_write_opens : forall w : World R,
  writable (fs w) ->
  exists w1,
    os_makedirs w = (Returns tt, w) /\
    open_write w = (Returns tt, w1) /\
    mid_save EmptyString w1 /\
    tracking_file (fs w1) = Some EmptyString /\
    buffering (fs w1) = buffering (fs w).
Proof.
  intros w (Hdir & Hopen & Hcap). unfold os_makedirs, open_write.
  unfold bind, get_fs, put_fs, ret, raise. rewrite Hdir, Hopen.
  eexists. split; [reflexivity|]. split; [reflexivity|]. cbn.
  repeat split; auto. exists EmptyString. split; reflexivity.
Qed.

Lemma save_effects_stopped : forall tracking_data k (w : World R),
  writable (fs w) ->
  (k <= List.length (iterencode tracking_data))%nat ->
  mid_save (concat_chunks (firstn k (iterencode tracking_data)))
           (stopped_after (S (S k)) (save_effects tracking_data) w) /\
  (holds_everything (fs w) ->
   tracking_file (fs (stopped_after (S (S k)) (save_effects tracking_data) w))
   = Some EmptyString).
Proof.
  intros d k w Hw Hk.
  destruct (open_write_opens w Hw) as (w1 & Hdir & Hopen & Hmid & Hfile & Hbuf).
  unfold save_effects.
  rewrite (stopped_after_returns _ _ _ _ _ Hdir).
  rewrite (stopped_after_returns _ _ _ _ _ Hopen).
  rewrite stopped_during_writes by (now rewrite length_map).
  destruct (stopped_writing (iterencode d) k EmptyString w1 Hmid) as (H1 & H2).
  split; [exact H1|].
  intros Hall. rewrite H2; [exact Hfile|].
  intros held. rewrite Hbuf. apply Hall.
Qed.

Lemma save_runs_every_effect : forall tracking_data (w : World R),
  writable (fs w) ->
  _save_last_message_tracking tracking_data w
  = (Returns tt,
     stopped_after (List.length (save_effects (R := R) tracking_data))
                   (save_effects tracking_data) w) /\
  tracking_file (fs (snd (_save_last_message_tracking tracking_data w)))
  = Some (json_dumps tracking_data).
Proof.
  intros d w Hw.
  destruct (open_write_opens w Hw) as (w1 & Hdir & Hopen & Hmid & _).
  pose proof (write_chunks_writes (iterencode d) EmptyString w1 Hmid) as Hwrite.
  destruct (stopped_writing (iterencode d) (List.length (iterencode d)) EmptyString w1 Hmid)
    as (Hend & _).
  rewrite firstn_all in Hend. cbn [String.append] in Hend.
  destruct (fp_close_mid_save _ _ Hend) as (w2 & Hclose & Hfile & _).
  assert (Hsave : _save_last_message_tracking d w = (Returns tt, w2)).
  { unfold _save_last_message_tracking, try_except, with_file.
    unfold bind at 1. rewrite Hdir. unfold bind at 1. rewrite Hopen.
    rewrite Hwrite. unfold bind. rewrite Hclose. reflexivity. }
  rewrite Hsave. split; [|exact Hfile].
  f_equal. unfold save_effects. cbn [List.length].
  rewrite (stopped_after_returns _ _ _ _ _ Hdir).
  rewrite (stopped_after_returns _ _ _ _ _ Hopen).
  rewrite length_app, length_map. cbn [List.length].
  rewrite (stopped_after_writes (iterencode d) [fp_close] 1 EmptyString w1 Hmid).
  rewrite (stopped_after_returns _ _ _ _ _ Hclose). reflexivity.
Qed.

(** C4, as the code has it.  Save overwrites the file in place.  On a
    device without faults, a save stopped before it opens the file leaves
    the old text.  Stopped anywhere between the open and the close it
    leaves a beginning of the new text: the chunks written so far less what
    the file object still holds, which is the empty text right after the
    open, and at every such point when the file object passes nothing on
    before it is closed.  A save that runs to its end leaves the whole new
    text. *)
Theorem save_overwrites_in_place : forall tracking_data (w : World R) (k : nat),
  writable (fs w) ->
  ((k <= 1)%nat ->
   tracking_file (fs (stopped_after k (save_effects tracking_data) w))
   = tracking_file (fs w)) /\
  ((2 <= k <= 2 + List.length (iterencode tracking_data))%nat ->
   exists passed,
     tracking_file (fs (stopped_after k (save_effects tracking_data) w)) = Some passed /\
     passed +++ write_buffer (fs (stopped_after k (save_effects tracking_data) w))
     = concat_chunks (firstn (k - 2) (iterencode tracking_data))) /\
  tracking_file (fs (stopped_after 2 (save_effects tracking_data) w)) = Some EmptyString /\
  (holds_everything (fs w) ->
   (2 <= k <= 2 + List.length (iterencode tracking_data))%nat ->
   tracking_file (fs (stopped_after k (save_effects tracking_data) w))
   = Some EmptyString) /\
  json_dumps tracking_data
  = concat_chunks (firstn (k - 2) (iterencode tracking_data))
    +++ concat_chunks (skipn (k - 2) (iterencode tracking_data)) /\
  _save_last_message_tracking tracking_data w
  = (Returns tt,
     stopped_after (List.length (save_effects (R := R) tracking_data))
                   (save_effects tracking_data) w) /\
  tracking_file (fs (snd (_save_last_message_tracking tracking_data w)))
  = Some (json_dumps tracking_data).
Proof.
  intros d w k Hw. split; [|split; [|split; [|split; [|split]]]].
  - intros Hk. destruct k as [|[|k]]; [reflexivity| |lia].
    destruct Hw as (Hdir & _). unfold save_effects. cbn [stopped_after].
    unfold os_makedirs. unfold_io. now rewrite Hdir.
  - intros Hk. destruct k as [|[|k]]; [lia|lia|].
    destruct (save_effects_stopped d k w Hw ltac:(lia)) as ((_ & passed & Hfile & Htext) & _).
    exists passed. split; [exact Hfile|].
    now replace (S (S k) - 2)%nat with k by lia.
  - destruct (save_effects_stopped d 0 w Hw ltac:(lia)) as ((_ & passed & Hfile & Htext) & _).
    cbn [firstn concat_chunks fold_right] in Htext.
    rewrite Hfile. f_equal.
    destruct passed; [reflexivity|discriminate].
  - intros Hall Hk. destruct k as [|[|k]]; [lia|lia|].
    now apply (save_effects_stopped d k w Hw ltac:(lia)).
  - apply firstn_chunks_prefix.
  - now apply save_runs_every_effect.
Qed.

Section SaveKeeps.
Variable P : World R -> Prop.
Hypothesis P_file : forall w content cap,
  P w -> P (mk_world (remote w) (set_tracking_file (fs w) content cap) (log w)).
Hypothesis P_buffer : forall w held,
  P w -> P (mk_world (remote w) (set_write_buffer (fs w) held) (log w)).
Hypothesis P_log : forall lvl text, preserves P (logger lvl text).

Lemma device_write_keeps : forall text, preserves P (device_write text).
Proof.
  intros text w H. unfold device_write. unfold_io.
  destruct (write_capacity (fs w)) as [[|n]|]; cbn; auto.
Qed.

Lemma pass_on_keeps : forall n, preserves P (pass_on n).
Proof.
  intros n w H. unfold pass_on. unfold bind at 1. unfold get_fs at 1.
  destruct (string_take n (write_buffer (fs w))) as [|c text]; [exact H|].
  unfold bind at 1.
  pose proof (device_write_keeps (String c text) w H) as H1.
  destruct (device_write (String c text) w) as [[[]|e] w1]; [|exact H1].
  cbn in H1. unfold bind, get_fs, put_fs. cbn. now apply P_buffer.
Qed.

Lemma fp_write_keeps : forall chunk, preserves P (fp_write chunk).
Proof.
  intros chunk w H.
  change (fp_write chunk w)
    with (pass_on (buffering (fs w) (write_buffer (fs w) +++ chunk))
            (mk_world (remote w)
                      (set_write_buffer (fs w) (write_buffer (fs w) +++ chunk)) (log w))).
  apply pass_on_keeps. now apply P_buffer.
Qed.

Lemma fp_close_keeps : preserves P fp_close.
Proof.
  intros w H. pose proof (P_buffer w EmptyString H) as H1.
  change (fp_close w)
    with (match write_buffer (fs w) with
          | EmptyString => ret tt
          | text => device_write text
          end (mk_world (remote w) (set_write_buffer (fs w) EmptyString) (log w))).
  destruct (write_buffer (fs w)); [exact H1|].
  now apply device_write_keeps.
Qed.

Lemma write_chunks_keeps : forall chunks, preserves P (write_chunks chunks).
Proof.
  induction chunks as [|c chunks IH]; intros w H; cbn [write_chunks]; [exact H|].
  unfold bind. pose proof (fp_write_keeps c w H) as H1.
  destruct (fp_write c w) as [[[]|e] w1]; cbn in *; auto.
Qed.

Lemma with_file_keeps : forall A (body : IO (R := R) A),
  preserves P body -> preserves P (with_file body).
Proof.
  intros A body Hbody w H. unfold with_file. specialize (Hbody w H).
  destruct (body w) as [[a|e] w1]; cbn in Hbody.
  - unfold bind. pose proof (fp_close_keeps w1 Hbody) as H1.
    destruct (fp_close w1) as [[[]|e] w2]; cbn in *; auto.
  - pose proof (fp_close_keeps w1 Hbody) as H1.
    destruct (fp_close w1) as [[[]|e'] w2]; cbn in *; auto.
Qed.

Lemma save_keeps : forall tracking_data,
  preserves P (_save_last_message_tracking tracking_data).
Proof.
  intros d w H. unfold _save_last_message_tracking.
  unfold bind at 1. unfold os_makedirs at 1. unfold bind at 1. unfold get_fs at 1.
  destruct (makedirs_error (fs w)); [exact H|]. cbn [ret raise].
  unfold try_except.
  assert (Hbody : preserves P
            (open_write ;; with_file (write_chunks (iterencode d)))).
  { intros w0 H0. unfold bind at 1. unfold open_write. unfold bind at 1.
    unfold get_fs at 1. destruct (open_write_error (fs w0)); [exact H0|].
    unfold put_fs at 1.
    apply with_file_keeps; [apply write_chunks_keeps|].
    apply P_buffer with (w := mk_world (remote w0)
                                (set_tracking_file (fs w0) (Some EmptyString)
                                                   (write_capacity (fs w0))) (log w0)).
    now apply P_file. }
  specialize (Hbody w H).
  destruct ((open_write ;; with_file (write_chunks (iterencode d))) w) as [[[]|e] w1];
    cbn in *; [exact Hbody|]. now apply P_log.
Qed.
End SaveKeeps.

(** The save raises only when the data directory cannot be made. *)
Lemma save_swallows_write_errors : forall tracking_data (w : World R),
  makedirs_error (fs w) = None ->
  exists w', _save_last_message_tracking tracking_data w = (Returns tt, w')
             /\ remote w' = remote w.
Proof.
  intros d w Hdir.
  pose proof (save_keeps (fun w0 => remote w0 = remote w)
                (fun _ _ _ H => H) (fun _ _ H => H) (fun _ _ _ H => H) d w eq_refl) as Hrem.
  unfold _save_last_message_tracking in *. unfold bind at 1 in Hrem. unfold bind at 1.
  unfold os_makedirs, bind, get_fs in *. rewrite Hdir in *. cbn [ret] in *.
  unfold try_except in *.
  match goal with
  | |- context [match ?c with _ => _ end] => destruct c as [[[]|e] w1]
  end; cbn in *; eexists; split; try reflexivity; exact Hrem.
Qed.

Lemma save_raises_without_directory : forall tracking_data (w : World R) e,
  makedirs_error (fs w) = Some e ->
  _save_last_message_tracking tracking_data w = (Raises e, w).
Proof.
  intros d w e Hdir. unfold _save_last_message_tracking, os_makedirs.
  unfold_io. now rewrite Hdir.
Qed.

(** When the file cannot be opened for writing, the save logs the error
    and returns, the file untouched. *)
Lemma save_logs_open_error : forall tracking_data (w : World R) e,
  makedirs_error (fs w) = None -> open_write_error (fs w) = Some e ->
  _save_last_message_tracking tracking_data w
  = (Returns tt,
     mk_world (remote w) (fs w)
              (log w ++ [(ERROR, "Error saving message tracking data"%string)])).
Proof.
  intros d w e Hdir Hopen.
  unfold _save_last_message_tracking, os_makedirs, open_write.
  unfold_io. rewrite Hdir. cbn. now rewrite Hopen.
Qed.
End TrackingFileFacts.

(* ================================================================== *)
(** * The collection run *)
(* ================================================================== *)

Section CollectorFacts.
Context {R : Type}.
Variable client : Client R.
Variable json_loads : string -> outcome Tracking.

Lemma fs_stable : forall f0 : FileSystem, stable client (fun w => fs w = f0).
Proof.
  intros f0. constructor; intros; try apply call_keeps_fs; try apply logger_keeps_fs.
Qed.

(** A date made aware is aware, so its comparison with the bound does not
    raise: it compares the instants. *)
Lemma aware_is_aware : forall d, tzinfo (aware d) <> None.
Proof. intros d. unfold aware. destruct (tzinfo d) eqn:E; [now rewrite E|discriminate]. Qed.

Lemma datetime_lt_aware : forall d since,
  datetime_lt (aware d) since = Returns (timestamp (aware d) <? since).
Proof.
  intros d since. unfold datetime_lt.
  destruct (tzinfo (aware d)) eqn:E; [reflexivity|]. now apply aware_is_aware in E.
Qed.

Lemma date_filter_returns : forall use since m,
  date_filter use since m = Returns (too_old use since m).
Proof.
  intros use since m. unfold date_filter, too_old.
  destruct use; [reflexivity|]. apply datetime_lt_aware.
Qed.

Lemma process_messages_cons : forall e info use since batch m todo acc,
  process_messages client e info use since batch (m :: todo) acc
  = if too_old use since m then
      process_messages client e info use since batch todo acc
    else
      bind (make_message_data client e info batch m)
           (fun message_data =>
              process_messages client e info use since batch todo (acc ++ [message_data])).
Proof.
  intros. cbn [process_messages]. rewrite date_filter_returns.
  destruct (too_old use since m); reflexivity.
Qed.

Section Stable.
Variable P : World R -> Prop.
Hypothesis HP : stable client P.

Create HintDb stable_db.

Ltac stable_step :=
  first
    [ solve [auto with stable_db nocore]
    | apply preserves_ret
    | apply preserves_raise
    | apply preserves_of_outcome
    | apply (stable_logger client P HP)
    | apply (stable_get_entity client P HP)
    | apply (stable_call client P HP)
    | apply (stable_download client P HP)
    | apply (stable_get_messages client P HP)
    | apply (stable_now client P HP)
    | apply preserves_bind; [|intros]
    | apply preserves_try_except; [|intros] ].

Lemma get_channel_info_stable : forall u, preserves P (get_channel_info client u).
Proof.
  intros u. unfold get_channel_info. repeat stable_step.
  destruct (client_get_participants_count client) as [count|] eqn:E;
    repeat stable_step.
  now apply (stable_count client P HP).
Qed.
#[local] Hint Resolve get_channel_info_stable : stable_db.

Lemma download_media_stable : forall m, preserves P (download_media client m).
Proof. intros m. unfold download_media. destruct (msg_media m); repeat stable_step. Qed.
#[local] Hint Resolve download_media_stable : stable_db.

Lemma resolve_reply_stable : forall e batch id,
  preserves P (resolve_reply client e batch id).
Proof.
  intros e batch id. unfold resolve_reply. repeat stable_step.
  destruct (find _ batch); repeat stable_step.
Qed.
#[local] Hint Resolve resolve_reply_stable : stable_db.

Lemma make_message_data_stable : forall e info batch m,
  preserves P (make_message_data client e info batch m).
Proof.
  intros e info batch m. unfold make_message_data.
  apply preserves_bind; [apply download_media_stable|intros].
  apply preserves_bind; [|intros; stable_step].
  destruct (msg_reply_to m); [apply resolve_reply_stable|stable_step].
Qed.
#[local] Hint Resolve make_message_data_stable : stable_db.

Lemma process_messages_stable : forall e info use since batch todo acc,
  preserves P (process_messages client e info use since batch todo acc).
Proof.
  intros e info use since batch todo.
  induction todo as [|m todo IH]; intros acc.
  - cbn [process_messages]. stable_step.
  - rewrite process_messages_cons. destruct (too_old use since m); [apply IH|].
    apply preserves_bind; [apply make_message_data_stable|intros; apply IH].
Qed.
#[local] Hint Resolve process_messages_stable : stable_db.

Lemma resolve_channel_stable : forall u, preserves P (resolve_channel client u).
Proof.
  intros u. unfold resolve_channel. repeat stable_step.
Qed.
#[local] Hint Resolve resolve_channel_stable : stable_db.

Lemma since_date_for_stable : forall fh, preserves P (since_date_for client fh).
Proof.
  intros fh. unfold since_date_for.
  apply preserves_bind; [apply (stable_now client P HP)|intros now].
  destruct (_ && _); stable_step.
Qed.
#[local] Hint Resolve since_date_for_stable : stable_db.

Lemma fetch_messages_stable : forall e lim fh cid tr,
  preserves P (fetch_messages client e lim fh cid tr).
Proof.
  intros e lim fh cid tr. unfold fetch_messages.
  apply preserves_bind; [|intros [msgs since]; repeat stable_step].
  destruct (use_id_tracking_for cid tr).
  - destruct (dict_get cid tr); repeat stable_step.
  - apply preserves_bind; [apply since_date_for_stable|intros; repeat stable_step].
Qed.
#[local] Hint Resolve fetch_messages_stable : stable_db.

Lemma channel_body_stable : forall u lim fh st,
  preserves P (channel_body client u lim fh st).
Proof.
  intros u lim fh [tr all]. unfold channel_body.
  apply preserves_bind; [apply resolve_channel_stable|intros [e info]].
  apply preserves_bind; [apply fetch_messages_stable|intros [msgs since]].
  apply preserves_bind; [apply process_messages_stable|intros cm].
  repeat stable_step.
Qed.
#[local] Hint Resolve channel_body_stable : stable_db.

Lemma process_channel_stable : forall u lim fh st,
  preserves P (process_channel client u lim fh st).
Proof.
  intros u lim fh st. unfold process_channel.
  apply preserves_try_except; [apply channel_body_stable|intros; repeat stable_step].
Qed.
#[local] Hint Resolve process_channel_stable : stable_db.

Lemma channels_loop_stable : forall us lim fh st,
  preserves P (channels_loop client us lim fh st).
Proof.
  induction us as [|u us IH]; intros lim fh st; cbn [channels_loop].
  - stable_step.
  - apply preserves_bind; [apply process_channel_stable|intros; apply IH].
Qed.
End Stable.

(** ** The loop always goes on *)

Lemma process_channel_returns : forall u lim fh st w,
  exists st' w', process_channel client u lim fh st w = (Returns st', w').
Proof.
  intros u lim fh st w. unfold process_channel, try_except.
  destruct (channel_body client u lim fh st w) as [[st'|e] w']; unfold_io; cbn; eauto.
Qed.

Lemma channels_loop_returns : forall us lim fh st w,
  exists st' w', channels_loop client us lim fh st w = (Returns st', w').
Proof.
  induction us as [|u us IH]; intros lim fh st w; cbn [channels_loop].
  - unfold ret. eauto.
  - unfold bind. destruct (process_channel_returns u lim fh st w) as (st1 & w1 & ->).
    apply IH.
Qed.

(** ** What one channel adds *)

Lemma bind_returns : forall A B (c : IO (R := R) A) (k : A -> IO B) w b w',
  bind c k w = (Returns b, w') ->
  exists a w1, c w = (Returns a, w1) /\ k a w1 = (Returns b, w').
Proof.
  intros A B c k w b w' H. unfold bind in H.
  destruct (c w) as [[a|e] w1]; [eauto|discriminate].
Qed.

Lemma make_message_data_renders : forall e info batch m w nm w',
  make_message_data client e info batch m w = (Returns nm, w') -> renders e m nm.
Proof.
  intros e info batch m w nm w' H. unfold make_message_data in H.
  apply bind_returns in H. destruct H as (path & w1 & _ & H).
  apply bind_returns in H. destruct H as (reply & w2 & _ & H).
  unfold ret in H. injection H as <- _. repeat split.
Qed.

Lemma process_messages_spec : forall e info use since batch todo acc w res w',
  process_messages client e info use since batch todo acc w = (Returns res, w') ->
  exists new, res = acc ++ new /\ Forall2 (renders e) (kept use since todo) new.
Proof.
  intros e info use since batch todo.
  induction todo as [|m todo IH]; intros acc w res w' H.
  - cbn [process_messages] in H.
    unfold ret in H. injection H as <- _. exists []. rewrite app_nil_r. split; constructor.
  - rewrite process_messages_cons in H. unfold kept. cbn [filter].
    destruct (too_old use since m); cbn [negb].
    + apply IH in H. exact H.
    + apply bind_returns in H. destruct H as (nm & w1 & Hnm & H).
      apply IH in H. destruct H as (new & -> & Hnew).
      exists (nm :: new). rewrite <- app_assoc. split; [reflexivity|].
      constructor; [|exact Hnew]. eapply make_message_data_renders; eauto.
Qed.

Lemma channel_body_inv : forall u lim fh tr all w tr' all' w',
  channel_body client u lim fh (tr, all) w = (Returns (tr', all'), w') ->
  exists entity info w1 messages since w2 cm w3,
    resolve_channel client u w = (Returns (entity, info), w1) /\
    fetch_messages client entity lim fh (str (entity_id entity)) tr w1
    = (Returns (messages, since), w2) /\
    process_messages client entity info
      (use_id_tracking_for (str (entity_id entity)) tr) since messages messages [] w2
    = (Returns cm, w3) /\
    update_tracking (str (entity_id entity))
      (use_id_tracking_for (str (entity_id entity)) tr) cm tr = Returns tr' /\
    all' = all ++ cm.
Proof.
  intros u lim fh tr all w tr' all' w' H. unfold channel_body in H.
  apply bind_returns in H. destruct H as ([entity info] & w1 & Hres & H).
  apply bind_returns in H. destruct H as ([messages since] & w2 & Hfetch & H).
  apply bind_returns in H. destruct H as (cm & w3 & Hproc & H).
  apply bind_returns in H. destruct H as (tr1 & w4 & Hupd & H).
  apply bind_returns in H. destruct H as (? & w5 & _ & H).
  unfold ret in H. injection H as <- <- _.
  exists entity, info, w1, messages, since, w2, cm, w3.
  repeat split; auto.
  unfold of_outcome in Hupd.
  destruct (update_tracking _ _ cm tr); unfold ret, raise in Hupd; congruence.
Qed.

Lemma process_channel_inv : forall u lim fh st w st' w',
  process_channel client u lim fh st w = (Returns st', w') ->
  st' = st \/ exists w1, channel_body client u lim fh st w = (Returns st', w1).
Proof.
  intros u lim fh st w st' w' H. unfold process_channel, try_except in H.
  destruct (channel_body client u lim fh st w) as [[st1|e] w1].
  - injection H as <- _. eauto.
  - unfold_io. cbn in H. injection H as <- _. auto.
Qed.

Lemma use_id_tracking_true : forall cid tr,
  use_id_tracking_for cid tr = true -> exists W, dict_get cid tr = Some W /\ 0 < W.
Proof.
  intros cid tr H. unfold use_id_tracking_for in H.
  destruct (dict_get cid tr) as [W|]; [|discriminate].
  exists W. split; [reflexivity|]. now apply Z.ltb_lt.
Qed.

Lemma use_id_tracking_false : forall cid tr W,
  use_id_tracking_for cid tr = false -> dict_get cid tr = Some W -> W <= 0.
Proof.
  intros cid tr W H E. unfold use_id_tracking_for in H. rewrite E in H.
  now apply Z.ltb_ge.
Qed.

Lemma call_returns : forall A (f : R -> outcome A * R) w a w',
  call f w = (Returns a, w') ->
  exists r, f (remote w) = (Returns a, r) /\ remote w' = r.
Proof.
  intros A f w a w' H. unfold call in H.
  destruct (f (remote w)) as [o r]. inversion H; subst. eauto.
Qed.

Lemma logger_returns : forall lvl text (w : World R) x w',
  logger lvl text w = (Returns x, w') -> remote w' = remote w.
Proof. intros lvl text w x w' H. unfold logger in H. inversion H; subst. reflexivity. Qed.

(** In CursorMode the messages are the answer to the cursor request. *)
Lemma fetch_cursor : forall e lim fh cid tr w msgs since w',
  fetch_messages client e lim fh cid tr w = (Returns (msgs, since), w') ->
  use_id_tracking_for cid tr = true ->
  exists W r, dict_get cid tr = Some W /\ 0 < W /\
              client_call client (cursor_request e lim W) (remote w) = (Returns msgs, r).
Proof.
  intros e lim fh cid tr w msgs since w' H Huse. unfold fetch_messages in H.
  rewrite Huse in H. destruct (use_id_tracking_true _ _ Huse) as (W & HW & Hpos).
  rewrite HW in H. exists W.
  apply bind_returns in H. destruct H as ([ms s] & w1 & H & Hlast).
  apply bind_returns in H. destruct H as (? & w2 & Hlog & H).
  apply bind_returns in H. destruct H as (ms' & w3 & Hcall & H).
  apply bind_returns in Hlast. destruct Hlast as (? & w4 & _ & Hlast).
  unfold ret in *. inversion H; subst. inversion Hlast; subst.
  apply call_returns in Hcall. destruct Hcall as (r & Hcall & _).
  apply logger_returns in Hlog. rewrite Hlog in Hcall. eauto.
Qed.

Lemma since_date_for_returns : forall fh w since w',
  since_date_for client fh w = (Returns since, w') ->
  exists now, datetime_now_utc client (remote w) = (now, remote w') /\
              since = now - fh * 3600 * 1000000.
Proof.
  intros fh w since w' H. unfold since_date_for in H.
  apply bind_returns in H. destruct H as (now & w1 & Hnow & H).
  apply call_returns in Hnow. destruct Hnow as (r & Hnow & Hr).
  destruct (datetime_now_utc client (remote w)) as [t r'] eqn:E.
  inversion Hnow; subst. exists now.
  match type of H with
  | context [if ?c then _ else _] => destruct c
  end; unfold ret, raise in H; inversion H; subst. auto.
Qed.

(** In FallbackMode they are the answer to the plain request, and the
    bound is the clock reading less the window. *)
Lemma fetch_fallback : forall e lim fh cid tr w msgs since w',
  fetch_messages client e lim fh cid tr w = (Returns (msgs, since), w') ->
  use_id_tracking_for cid tr = false ->
  exists now r1 r2,
    datetime_now_utc client (remote w) = (now, r1) /\
    since = now - fh * 3600 * 1000000 /\
    client_call client (fallback_request e lim) r1 = (Returns msgs, r2).
Proof.
  intros e lim fh cid tr w msgs since w' H Huse. unfold fetch_messages in H.
  rewrite Huse in H.
  apply bind_returns in H. destruct H as ([ms s] & w1 & H & Hlast).
  apply bind_returns in H. destruct H as (since0 & w2 & Hsince & H).
  apply bind_returns in H. destruct H as (? & w3 & Hlog & H).
  apply bind_returns in H. destruct H as (ms' & w4 & Hcall & H).
  apply bind_returns in Hlast. destruct Hlast as (? & w5 & _ & Hlast).
  unfold ret in *. inversion H; subst. inversion Hlast; subst.
  apply since_date_for_returns in Hsince. destruct Hsince as (now & Hnow & ->).
  apply call_returns in Hcall. destruct Hcall as (r & Hcall & _).
  apply logger_returns in Hlog. rewrite Hlog in Hcall.
  exists now, (remote w2), r. auto.
Qed.

(** ** Invariants of the loop over the channels *)

Lemma channels_loop_invariant :
  forall (P : World R -> Prop) (I : RunState -> Prop) lim fh,
    stable client P ->
    (forall u st w st' w',
        P w -> I st ->
        channel_body client u lim fh st w = (Returns st', w') -> I st') ->
    forall us st w st' w',
      P w -> I st ->
      channels_loop client us lim fh st w = (Returns st', w') -> I st'.
Proof.
  intros P I lim fh HP Hstep.
  induction us as [|u us IH]; intros st w st' w' Hw Hst H; cbn [channels_loop] in H.
  - unfold ret in H. inversion H; subst. exact Hst.
  - apply bind_returns in H. destruct H as (st1 & w1 & H1 & H).
    assert (Hw1 : P w1).
    { pose proof (process_channel_stable P HP u lim fh st w Hw) as Hp.
      rewrite H1 in Hp. exact Hp. }
    apply process_channel_inv in H1. destruct H1 as [->|(w2 & H1)].
    + eapply IH; eauto.
    + eapply IH; [exact Hw1| |exact H]. exact (Hstep u st w st1 w2 Hw Hst H1).
Qed.

Lemma true_stable : stable client (fun _ => True).
Proof. constructor; intros; intros w _; exact I. Qed.

Lemma renders_ids : forall e ms cm,
  Forall2 (renders e) ms cm -> map nm_id cm = map msg_id ms.
Proof.
  induction 1 as [|m nm ms cm (Hid & _) _ IH]; cbn; [reflexivity|].
  now rewrite Hid, IH.
Qed.

Lemma renders_channel : forall e ms cm,
  Forall2 (renders e) ms cm -> Forall (fun nm => nm_channel_id nm = entity_id e) cm.
Proof.
  induction 1 as [|m nm ms cm (_ & Hch & _) _ IH]; constructor; auto.
Qed.

Lemma emitted_ids_app : forall cid l l',
  emitted_ids cid (l ++ l') = emitted_ids cid l ++ emitted_ids cid l'.
Proof. intros. unfold emitted_ids. now rewrite filter_app, map_app. Qed.

Lemma emitted_ids_same : forall id cm,
  Forall (fun nm => nm_channel_id nm = id) cm -> emitted_ids (str id) cm = map nm_id cm.
Proof.
  unfold emitted_ids. induction 1 as [|nm cm Hnm _ IH]; cbn; [reflexivity|].
  rewrite Hnm, String.eqb_refl. cbn. now rewrite IH.
Qed.

Lemma emitted_ids_other : forall id cid cm,
  Forall (fun nm => nm_channel_id nm = id) cm -> str id <> cid -> emitted_ids cid cm = [].
Proof.
  unfold emitted_ids. induction 1 as [|nm cm Hnm _ IH]; cbn; intros Hne; [reflexivity|].
  rewrite Hnm. destruct (String.eqb_spec (str id) cid); [contradiction|]. now apply IH.
Qed.

Lemma update_tracking_empty : forall cid use tr, update_tracking cid use [] tr = Returns tr.
Proof. reflexivity. Qed.

Lemma update_tracking_other : forall cid' use cm tr tr' cid,
  update_tracking cid' use cm tr = Returns tr' -> cid' <> cid ->
  dict_get cid tr' = dict_get cid tr.
Proof.
  intros cid' use cm tr tr' cid H Hne. unfold update_tracking in H.
  destruct (py_max (map nm_id cm)) as [n|]; [|now inversion H].
  destruct use.
  - destruct (dict_get cid' tr); inversion H; subst. now apply dict_get_set_ne.
  - inversion H; subst. now apply dict_get_set_ne.
Qed.

Lemma update_tracking_cursor : forall cid cm tr M,
  dict_get cid tr = Some M ->
  exists tr', update_tracking cid true cm tr = Returns tr' /\
              dict_get cid tr' = Some (max_with M (map nm_id cm)) /\
              (cm = [] -> tr' = tr).
Proof.
  intros cid cm tr M HM. unfold update_tracking. rewrite HM.
  destruct (py_max (map nm_id cm)) as [n|] eqn:E.
  - eexists. split; [reflexivity|]. split.
    + rewrite dict_get_set_eq. f_equal. symmetry. now apply py_max_some.
    + intros ->. discriminate.
  - exists tr. apply py_max_none in E. rewrite E. auto.
Qed.

(** C1.  A channel that enters CursorMode with the watermark [W] leaves its
    pass with the entry [max(W, i1, ..., in)], the [i] being the ids of the
    records the pass made, and with the dictionary as it was when it made
    none.  Over a whole run the entry ends as the maximum of [W] and the
    ids of all the records collected for that channel, and as [W] when
    there are none. *)
Theorem watermark_is_max_of_collected_ids :
  forall usernames lim fh tracking (w : World R) channel_id W,
    dict_get channel_id tracking = Some W -> 0 < W ->
    use_id_tracking_for channel_id tracking = true /\
    (forall channel_messages,
        exists tracking',
          update_tracking channel_id true channel_messages tracking = Returns tracking' /\
          dict_get channel_id tracking' = Some (max_with W (map nm_id channel_messages)) /\
          (channel_messages = [] -> tracking' = tracking)) /\
    exists tracking' all_messages w',
      channels_loop client usernames lim fh (tracking, []) w
      = (Returns (tracking', all_messages), w') /\
      dict_get channel_id tracking'
      = Some (max_with W (emitted_ids channel_id all_messages)) /\
      (emitted_ids channel_id all_messages = [] ->
       dict_get channel_id tracking' = Some W).
Proof.
  intros us lim fh tr w cid W HW Hpos. split; [|split].
  - unfold use_id_tracking_for. rewrite HW. now apply Z.ltb_lt.
  - intros cm. now apply update_tracking_cursor.
  - destruct (channels_loop_returns us lim fh (tr, []) w) as ([tr' all] & w' & Hrun).
    exists tr', all, w'. split; [exact Hrun|].
    assert (Hinv : dict_get cid tr' = Some (max_with W (emitted_ids cid all))).
    { refine (channels_loop_invariant (fun _ => True)
                (fun st => dict_get cid (fst st)
                           = Some (max_with W (emitted_ids cid (snd st))))
                lim fh true_stable _ us (tr, []) w (tr', all) w' I HW Hrun).
      clear - Hpos. intros u [tr all] w [tr' all'] w' _ Hst Hbody. cbn [fst snd] in *.
      apply channel_body_inv in Hbody.
      destruct Hbody as (e & info & w1 & ms & since & w2 & cm & w3
                         & _ & _ & Hproc & Hupd & ->).
      apply process_messages_spec in Hproc. destruct Hproc as (new & Hnew & Hren).
      cbn in Hnew. subst new. apply renders_channel in Hren.
      rewrite emitted_ids_app, max_with_app.
      destruct (String.eqb_spec (str (entity_id e)) cid) as [Heq|Hne].
      - subst cid. rewrite (emitted_ids_same _ _ Hren).
        assert (Huse : use_id_tracking_for (str (entity_id e)) tr = true).
        { unfold use_id_tracking_for. rewrite Hst. apply Z.ltb_lt.
          pose proof (max_with_ge W (emitted_ids (str (entity_id e)) all)). lia. }
        rewrite Huse in Hupd.
        destruct (update_tracking_cursor (str (entity_id e)) cm tr _ Hst)
          as (tr1 & Hupd1 & Hget & _).
        congruence.
      - rewrite (emitted_ids_other _ _ _ Hren Hne). cbn.
        rewrite (update_tracking_other _ _ _ _ _ cid Hupd Hne). exact Hst. }
    split; [exact Hinv|]. intros Hnone. rewrite Hinv, Hnone. reflexivity.
Qed.
End CollectorFacts.

(* ================================================================== *)
(** * The corpus: order and duplicates *)
(* ================================================================== *)

Lemma insert_by_date_perm : forall x l, Permutation (insert_by_date x l) (x :: l).
Proof.
  induction l as [|y l IH]; cbn; [reflexivity|].
  destruct (String.leb (nm_date x) (nm_date y)); [reflexivity|].
  rewrite IH. apply perm_swap.
Qed.

Lemma sort_by_date_perm : forall l, Permutation (sort_by_date l) l.
Proof.
  induction l as [|x l IH]; cbn; [reflexivity|].
  rewrite insert_by_date_perm. now constructor.
Qed.

Lemma insert_by_date_sorted : forall x l,
  Sorted date_le l -> Sorted date_le (insert_by_date x l).
Proof.
  induction l as [|y l IH]; cbn; intros Hs.
  - repeat constructor.
  - destruct (String.leb (nm_date x) (nm_date y)) eqn:E.
    + constructor; [exact Hs|]. constructor. exact E.
    + inversion Hs as [|? ? Hs' Hhd]; subst.
      constructor; [now apply IH|].
      assert (Hyx : date_le y x).
      { unfold date_le. destruct (String.leb_total (nm_date x) (nm_date y)); congruence. }
      destruct l as [|z l]; cbn.
      * constructor. exact Hyx.
      * destruct (String.leb (nm_date x) (nm_date z)); constructor; auto.
        inversion Hhd; subst. assumption.
Qed.

Lemma sort_by_date_sorted : forall l, Sorted date_le (sort_by_date l).
Proof.
  induction l as [|x l IH]; cbn; [constructor|]. now apply insert_by_date_sorted.
Qed.

Section Deduplication.
Context {R : Type}.
Variable client : Client R.
Variable json_loads : string -> outcome Tracking.

Lemma kept_cursor : forall since msgs, kept true since msgs = msgs.
Proof.
  intros since msgs. unfold kept, too_old. cbn.
  induction msgs as [|m msgs IH]; cbn; [reflexivity|]. now rewrite IH.
Qed.

Lemma kept_incl : forall use since msgs m, In m (kept use since msgs) -> In m msgs.
Proof. intros use since msgs m H. unfold kept in H. now apply filter_In in H. Qed.

Lemma kept_nodup : forall use since msgs,
  NoDup (map msg_id msgs) -> NoDup (map msg_id (kept use since msgs)).
Proof.
  intros use since msgs. unfold kept.
  induction msgs as [|m msgs IH]; cbn; intros H; [constructor|].
  inversion H as [|? ? Hnin Hnd]; subst.
  destruct (negb (too_old use since m)); cbn; [|auto].
  constructor; [|auto]. intros Hin. apply Hnin.
  apply in_map_iff in Hin. destruct Hin as (m' & Hid & Hin).
  apply filter_In in Hin. apply in_map_iff. exists m'. tauto.
Qed.

Lemma record_keys : forall e ms cm,
  Forall2 (renders e) ms cm ->
  map record_key cm = map (fun m => (entity_id e, msg_id m)) ms.
Proof.
  induction 1 as [|m nm ms cm (Hid & Hch & _) _ IH]; cbn; [reflexivity|].
  unfold record_key at 1. now rewrite Hid, Hch, IH.
Qed.

Lemma keys_nodup : forall (c : Z) (ids : list Z),
  NoDup ids -> NoDup (map (fun i => (c, i)) ids).
Proof.
  intros c ids H. induction H as [|i ids Hnin _ IH]; cbn; constructor; auto.
  intros Hin. apply in_map_iff in Hin. destruct Hin as (j & Hj & Hin).
  inversion Hj; subst. contradiction.
Qed.

Lemma renders_in : forall e ms cm nm,
  Forall2 (renders e) ms cm -> In nm cm -> exists m, In m ms /\ renders e m nm.
Proof.
  induction 1 as [|m nm' ms cm Hr _ IH]; cbn; intros Hin; [contradiction|].
  destruct Hin as [->|Hin]; [eauto|].
  destruct (IH Hin) as (m' & ? & ?). eauto.
Qed.

Lemma update_tracking_fresh : forall cid use cm tr tr' M,
  update_tracking cid use cm tr = Returns tr' ->
  py_max (map nm_id cm) = Some M ->
  exists t, dict_get cid tr' = Some t /\ M <= t /\
            (use = false -> t = M) /\
            (forall W, dict_get cid tr = Some W -> use = true -> t = Z.max M W).
Proof.
  intros cid use cm tr tr' M H HM. unfold update_tracking in H. rewrite HM in H.
  destruct use.
  - destruct (dict_get cid tr) as [W|] eqn:E; inversion H; subst.
    exists (Z.max M W). rewrite dict_get_set_eq. repeat split; try lia; try discriminate.
    all: intros; congruence.
  - inversion H; subst. exists M. rewrite dict_get_set_eq.
    repeat split; try lia; intros; discriminate.
Qed.

Lemma update_tracking_grows : forall cid use cm tr tr' k W,
  update_tracking cid use cm tr = Returns tr' ->
  dict_get k tr = Some W -> 0 < W ->
  use_id_tracking_for cid tr = use ->
  exists t, dict_get k tr' = Some t /\ W <= t.
Proof.
  intros cid use cm tr tr' k W H Hk Hpos Huse.
  destruct (String.eqb_spec cid k) as [->|Hne].
  - destruct (py_max (map nm_id cm)) as [M|] eqn:HM.
    + assert (use = true) as ->.
      { rewrite <- Huse. unfold use_id_tracking_for. rewrite Hk. now apply Z.ltb_lt. }
      destruct (update_tracking_fresh _ _ _ _ _ _ H HM) as (t & Ht & _ & _ & Hmax).
      exists t. split; [exact Ht|]. rewrite (Hmax W Hk eq_refl). lia.
    + unfold update_tracking in H. rewrite HM in H. inversion H; subst.
      exists W. split; [exact Hk|lia].
  - rewrite (update_tracking_other _ _ _ _ _ k H Hne). exists W. split; [exact Hk|lia].
Qed.

Lemma py_max_nonempty : forall l, l <> [] -> exists M, py_max l = Some M.
Proof.
  destruct l as [|x l]; [congruence|]. intros _. cbn.
  destruct (py_max l); eauto.
Qed.

(** What a pass that completes adds, against a well-behaved server: records
    of the one channel, with ids that are positive, all different, and
    above the positive entry the channel had, if it had one. *)
Lemma pass_facts : forall good u lim fh tr all w tr' all' w',
  well_behaved client good -> good (remote w) ->
  channel_body client u lim fh (tr, all) w = (Returns (tr', all'), w') ->
  exists e cm,
    all' = all ++ cm /\
    update_tracking (str (entity_id e))
      (use_id_tracking_for (str (entity_id e)) tr) cm tr = Returns tr' /\
    NoDup (map nm_id cm) /\
    Forall (fun nm =>
              nm_channel_id nm = entity_id e /\ 0 < nm_id nm /\
              (forall W, dict_get (str (entity_id e)) tr = Some W -> 0 < W ->
                         W < nm_id nm)) cm.
Proof.
  intros good u lim fh tr all w tr' all' w' Hwb Hgood Hbody.
  apply channel_body_inv in Hbody.
  destruct Hbody as (e & info & w1 & ms & since & w2 & cm & w3
                     & Hres & Hfetch & Hproc & Hupd & ->).
  exists e, cm. split; [reflexivity|]. split; [exact Hupd|].
  assert (Hgood1 : good (remote w1)).
  { pose proof (resolve_channel_stable client _ (good_stable client _ Hwb) u w Hgood) as Hp.
    rewrite Hres in Hp. exact Hp. }
  apply process_messages_spec in Hproc. destruct Hproc as (new & Hnew & Hren).
  cbn in Hnew. subst new.
  assert (Hids : map nm_id cm
                 = map msg_id (kept (use_id_tracking_for (str (entity_id e)) tr) since ms))
    by (eapply renders_ids; eauto).
  destruct (use_id_tracking_for (str (entity_id e)) tr) eqn:Huse.
  - destruct (fetch_cursor client _ _ _ _ _ _ _ _ _ Hfetch Huse)
      as (W & r & HW & Hpos & Hcall).
    rewrite kept_cursor in *.
    pose proof (unique_ids client _ Hwb _ _ _ _ Hgood1 Hcall) as Hnd.
    pose proof (positive_ids client _ Hwb _ _ _ _ Hgood1 Hcall) as Hposi.
    assert (Hmin : Forall (fun m => W + 1 <= msg_id m) ms).
    { apply (honours_min_id client _ Hwb _ _ _ _ Hgood1 Hcall). cbn. lia. }
    split; [now rewrite Hids|].
    apply Forall_forall. intros nm Hin.
    destruct (renders_in _ _ _ _ Hren Hin) as (m & Hm & Hid & Hch & _).
    rewrite Forall_forall in Hposi, Hmin.
    specialize (Hposi m Hm). specialize (Hmin m Hm). cbn in Hposi.
    rewrite Hid. repeat split; auto. intros W' HW' _.
    rewrite HW in HW'. inversion HW'; subst. lia.
  - destruct (fetch_fallback client _ _ _ _ _ _ _ _ _ Hfetch Huse)
      as (now & r1 & r2 & Hnow & _ & Hcall).
    assert (Hgood2 : good r1).
    { pose proof (stable_now client _ (good_stable client _ Hwb) w1 Hgood1) as Hp.
      unfold read_clock, call in Hp. rewrite Hnow in Hp. exact Hp. }
    pose proof (unique_ids client _ Hwb _ _ _ _ Hgood2 Hcall) as Hnd.
    pose proof (positive_ids client _ Hwb _ _ _ _ Hgood2 Hcall) as Hposi.
    split; [rewrite Hids; now apply kept_nodup|].
    apply Forall_forall. intros nm Hin.
    destruct (renders_in _ _ _ _ Hren Hin) as (m & Hm & Hid & Hch & _).
    apply kept_incl in Hm. rewrite Forall_forall in Hposi.
    specialize (Hposi m Hm). cbn in Hposi.
    rewrite Hid. repeat split; auto. intros W' HW' Hpos'.
    pose proof (use_id_tracking_false _ _ _ Huse HW'). lia.
Qed.

Lemma deduplicated_step : forall good tracking0 u lim fh st w st' w',
  well_behaved client good -> good (remote w) -> deduplicated tracking0 st ->
  channel_body client u lim fh st w = (Returns st', w') ->
  deduplicated tracking0 st'.
Proof.
  intros good tr0 u lim fh [tr all] w [tr' all'] w' Hwb Hgood Hinv Hbody.
  destruct Hinv as (Hnd & Hcov & Hmono & Habove). cbn [fst snd] in *.
  destruct (pass_facts _ _ _ _ _ _ _ _ _ _ Hwb Hgood Hbody)
    as (e & cm & -> & Hupd & Hndcm & Hcm).
  rewrite Forall_forall in Hcm.
  assert (Hgrow : forall k W, dict_get k tr = Some W -> 0 < W ->
                              exists t, dict_get k tr' = Some t /\ W <= t).
  { intros k W Hk Hpos. eapply update_tracking_grows; eauto. }
  unfold deduplicated. cbn [fst snd]. repeat split.
  - rewrite map_app. apply NoDup_app; [exact Hnd| |].
    + assert (Hkeys : map record_key cm = map (fun i => (entity_id e, i)) (map nm_id cm)).
      { rewrite map_map. apply map_ext_in. intros nm Hin.
        destruct (Hcm nm Hin) as (Hch & _). unfold record_key. now rewrite Hch. }
      rewrite Hkeys. now apply keys_nodup.
    + intros key Hold Hnew.
      apply in_map_iff in Hold. destruct Hold as (m & Hkm & Hm).
      apply in_map_iff in Hnew. destruct Hnew as (nm & Hknm & Hnm).
      destruct (Hcm nm Hnm) as (Hch & _ & Habv).
      destruct (Hcov m Hm) as (t & Ht & Hpos & Hle).
      unfold record_key in *. subst key. inversion Hknm as [[Hc Hi]].
      rewrite <- Hc, Hch in Ht. specialize (Habv t Ht Hpos). lia.
  - intros m Hin. apply in_app_or in Hin. destruct Hin as [Hin|Hin].
    + destruct (Hcov m Hin) as (t & Ht & Hpos & Hle).
      destruct (Hgrow _ _ Ht Hpos) as (t' & Ht' & Hle').
      exists t'. repeat split; auto; lia.
    + destruct (Hcm m Hin) as (Hch & Hpos & _).
      assert (Hne : map nm_id cm <> []) by (destruct cm; [contradiction|discriminate]).
      destruct (py_max_nonempty _ Hne) as (M & HM).
      destruct (update_tracking_fresh _ _ _ _ _ _ Hupd HM) as (t & Ht & Hle & _).
      destruct (py_max_in _ _ HM) as (_ & Hall). rewrite Forall_forall in Hall.
      specialize (Hall (nm_id m) (in_map nm_id _ _ Hin)).
      exists t. rewrite Hch. repeat split; auto; lia.
  - intros cid W HW Hpos. destruct (Hmono cid W HW Hpos) as (t & Ht & Hle).
    destruct (Hgrow _ _ Ht ltac:(lia)) as (t' & Ht' & Hle').
    exists t'. split; [exact Ht'|lia].
  - intros m W Hin HW Hpos. apply in_app_or in Hin. destruct Hin as [Hin|Hin].
    + eapply Habove; eauto.
    + destruct (Hcm m Hin) as (Hch & _ & Habv).
      rewrite Hch in HW. destruct (Hmono _ _ HW Hpos) as (t & Ht & Hle).
      specialize (Habv t Ht ltac:(lia)). lia.
Qed.

(** The run is the load, the loop, the save and the sort, in that order. *)
Lemma run_returns : forall us lim fh (w : World R) corpus w',
  get_new_messages_without_duplication client json_loads us lim fh w
  = (Returns corpus, w') ->
  exists tracking0 w0 tracking' all_messages w1,
    _load_last_message_tracking json_loads w = (Returns tracking0, w0) /\
    channels_loop client us lim fh (tracking0, []) w0
    = (Returns (tracking', all_messages), w1) /\
    corpus = sort_by_date all_messages.
Proof.
  intros us lim fh w corpus w' H. unfold get_new_messages_without_duplication in H.
  apply bind_returns in H. destruct H as (tr0 & w0 & Hload & H).
  apply bind_returns in H. destruct H as ([tr' all] & w1 & Hloop & H).
  apply bind_returns in H. destruct H as (? & w2 & _ & H).
  apply bind_returns in H. destruct H as (? & w3 & _ & H).
  unfold ret in H. inversion H; subst.
  exists tr0, w0, tr', all, w1. auto.
Qed.

Lemma load_keeps_remote : forall (w : World R) tr w0,
  _load_last_message_tracking json_loads w = (Returns tr, w0) -> remote w0 = remote w.
Proof.
  intros w tr w0 H. unfold _load_last_message_tracking, os_path_exists, read_text in H.
  revert H. io_cases; intros H; inversion H; subst; reflexivity.
Qed.

(** C2.  Against a server that answers with positive, pairwise different
    ids and honours [min_id], the corpus of a run has at most one record
    for each pair of channel id and message id, whatever the list of
    handles, and no record at or below the positive watermark that was
    loaded for its channel. *)
Theorem corpus_has_no_duplicates :
  forall good usernames lim fh (w : World R) corpus w',
    well_behaved client good -> good (remote w) ->
    get_new_messages_without_duplication client json_loads usernames lim fh w
    = (Returns corpus, w') ->
    NoDup (map record_key corpus) /\
    forall tracking0 w0 m W,
      _load_last_message_tracking json_loads w = (Returns tracking0, w0) ->
      In m corpus ->
      dict_get (str (nm_channel_id m)) tracking0 = Some W -> 0 < W ->
      W < nm_id m.
Proof.
  intros good us lim fh w corpus w' Hwb Hgood Hrun.
  destruct (run_returns _ _ _ _ _ _ Hrun) as (tr0 & w0 & tr' & all & w1 & Hload & Hloop & ->).
  assert (Hgood0 : good (remote w0)) by (now rewrite (load_keeps_remote _ _ _ Hload)).
  assert (Hinv : deduplicated tr0 (tr', all)).
  { refine (channels_loop_invariant client (fun w => good (remote w)) (deduplicated tr0)
              lim fh (good_stable client _ Hwb) _ us (tr0, []) w0 (tr', all) w1 Hgood0 _ Hloop).
    - intros u st wa st' wb Hga Hst Hbody. eapply deduplicated_step; eauto.
    - unfold deduplicated. cbn. repeat split; try constructor; try contradiction.
      intros cid W HW _. exists W. split; [exact HW|lia]. }
  destruct Hinv as (Hnd & _ & _ & Habove). cbn [fst snd] in *.
  pose proof (sort_by_date_perm all) as Hperm. split.
  - eapply Permutation_NoDup; [|exact Hnd].
    apply Permutation_map. now apply Permutation_sym.
  - intros tr0' w0' m W Hload' Hin HW Hpos.
    rewrite Hload in Hload'. inversion Hload'; subst.
    eapply Habove; eauto. eapply Permutation_in; eauto.
Qed.
End Deduplication.

(* ================================================================== *)
(** * Failures of one channel, and the fallback window *)
(* ================================================================== *)

Section ChannelPass.
Context {R : Type}.
Variable client : Client R.

Lemma resolution_raises : forall username (w : World R) e r,
  client_get_entity client username (remote w) = (Raises e, r) ->
  exists w1, resolve_channel client username w = (Raises e, w1).
Proof.
  intros u w e r H. unfold resolve_channel. unfold_io. cbn. rewrite H. cbn. eauto.
Qed.

Lemma unreachable_body_raises : forall username lim fh tracking all_messages (w : World R),
  channel_unreachable client username lim fh tracking w ->
  exists e w1, channel_body client username lim fh (tracking, all_messages) w = (Raises e, w1).
Proof.
  intros u lim fh tr all w [(e & r & H)|[(e & w1 & H)|(entity & info & w1 & e & w2 & H1 & H2)]].
  - destruct (resolution_raises _ _ _ _ H) as (w1 & H1).
    exists e, w1. unfold channel_body, bind. now rewrite H1.
  - exists e, w1. unfold channel_body, bind. now rewrite H.
  - exists e, w2. unfold channel_body, bind. rewrite H1. now rewrite H2.
Qed.

Lemma channels_loop_app : forall before after lim fh st (w : World R) st1 w1,
  channels_loop client before lim fh st w = (Returns st1, w1) ->
  channels_loop client (before ++ after) lim fh st w
  = channels_loop client after lim fh st1 w1.
Proof.
  induction before as [|u before IH]; intros after lim fh st w st1 w1 H; cbn in *.
  - unfold ret in H. now inversion H.
  - unfold bind in *.
    destruct (process_channel client u lim fh st w) as [[st2|e] w2]; [|discriminate].
    now apply IH.
Qed.

(** C8.  A channel whose resolution or fetch raises is skipped: its turn
    of the loop returns with [last_message_tracking] and [all_messages] as
    they were, the error logged, and the loop goes on with the channels
    after it from that very state: the channels before and after it are
    collected as if it were not in the list. *)
Theorem unreachable_channel_is_skipped :
  forall before username after lim fh st (w : World R) tracking all_messages w1,
    channels_loop client before lim fh st w = (Returns (tracking, all_messages), w1) ->
    channel_unreachable client username lim fh tracking w1 ->
    exists w2,
      process_channel client username lim fh (tracking, all_messages) w1
      = (Returns (tracking, all_messages), w2) /\
      In (ERROR, "Error retrieving messages"%string) (log w2) /\
      channels_loop client (before ++ username :: after) lim fh st w
      = channels_loop client after lim fh (tracking, all_messages) w2.
Proof.
  intros before u after lim fh st w tr all w1 Hbefore Hfail.
  destruct (unreachable_body_raises u lim fh tr all w1 Hfail) as (e & w' & Hbody).
  exists (mk_world (remote w') (fs w')
                   (log w' ++ [(ERROR, "Error retrieving messages"%string)])).
  assert (Hturn : process_channel client u lim fh (tr, all) w1
                  = (Returns (tr, all),
                     mk_world (remote w') (fs w')
                       (log w' ++ [(ERROR, "Error retrieving messages"%string)]))).
  { unfold process_channel, try_except. rewrite Hbody. reflexivity. }
  split; [exact Hturn|]. split.
  - cbn. apply in_or_app. right. now left.
  - rewrite (channels_loop_app _ _ _ _ _ _ _ _ Hbefore). cbn [channels_loop].
    unfold bind at 1. now rewrite Hturn.
Qed.

(** ** The fallback window *)



End ChannelPass.

(* ================================================================== *)
(** * The end of the run: the save and the order of the corpus *)
(* ================================================================== *)

Section RunEnd.
Context {R : Type}.
Variable client : Client R.
Variable json_loads : string -> outcome Tracking.

(** The load and the loop always return, and leave the file system alone. *)
Lemma load_and_loop : forall us lim fh (w : World R),
  exists tracking0 w0 tracking' all_messages w1,
    _load_last_message_tracking json_loads w = (Returns tracking0, w0) /\
    channels_loop client us lim fh (tracking0, []) w0
    = (Returns (tracking', all_messages), w1) /\
    fs w1 = fs w.
Proof.
  intros us lim fh w.
  destruct (load_returns json_loads w) as (tr0 & w0 & Hload).
  destruct (channels_loop_returns client us lim fh (tr0, []) w0)
    as ([tr' all] & w1 & Hloop).
  exists tr0, w0, tr', all, w1. repeat split; auto.
  pose proof (load_keeps_fs json_loads (fs w) w eq_refl) as H0.
  rewrite Hload in H0. cbn in H0.
  pose proof (channels_loop_stable client _ (fs_stable client (fs w)) us lim fh
                (tr0, []) w0 H0) as H1.
  rewrite Hloop in H1. exact H1.
Qed.

(** C5, as the code has it.  When the data directory can be made, the run
    returns the sorted corpus whatever happens to the write of the tracking
    file: an error on opening or writing it is caught inside the save and
    logged, and the caller is not told.  When the file cannot be opened
    the file is left as it was.  Only a failure to make the data directory
    reaches the caller. *)
Theorem write_failure_is_swallowed : forall us lim fh (w : World R),
  exists tracking0 w0 tracking' all_messages w1,
    _load_last_message_tracking json_loads w = (Returns tracking0, w0) /\
    channels_loop client us lim fh (tracking0, []) w0
    = (Returns (tracking', all_messages), w1) /\
    (makedirs_error (fs w) = None ->
     exists w',
       get_new_messages_without_duplication client json_loads us lim fh w
       = (Returns (sort_by_date all_messages), w') /\
       (forall e, open_write_error (fs w) = Some e ->
          fs w' = fs w /\
          In (ERROR, "Error saving message tracking data"%string) (log w'))) /\
    (forall e, makedirs_error (fs w) = Some e ->
       get_new_messages_without_duplication client json_loads us lim fh w
       = (Raises e, w1)).
Proof.
  intros us lim fh w.
  destruct (load_and_loop us lim fh w) as (tr0 & w0 & tr' & all & w1 & Hload & Hloop & Hfs).
  exists tr0, w0, tr', all, w1. split; [exact Hload|]. split; [exact Hloop|]. split.
  - intros Hdir. rewrite <- Hfs in Hdir.
    destruct (open_write_error (fs w)) as [e|] eqn:Hopen.
    + rewrite <- Hfs in Hopen.
      pose proof (save_logs_open_error tr' w1 e Hdir Hopen) as Hsave.
      eexists. split.
      * unfold get_new_messages_without_duplication, bind.
        rewrite Hload, Hloop, Hsave. unfold logger, ret. reflexivity.
      * intros e' _. cbn. split; [exact Hfs|].
        apply in_or_app. left. apply in_or_app. right. now left.
    + destruct (save_swallows_write_errors tr' w1 Hdir) as (w2 & Hsave & _).
      eexists. split.
      * unfold get_new_messages_without_duplication, bind.
        rewrite Hload, Hloop, Hsave. unfold logger, ret. reflexivity.
      * intros e' He'. discriminate.
  - intros e Hdir. rewrite <- Hfs in Hdir.
    unfold get_new_messages_without_duplication, bind.
    rewrite Hload, Hloop. now rewrite (save_raises_without_directory tr' w1 e Hdir).
Qed.

End RunEnd.

(* ================================================================== *)
(** * The collector against the Telegram server *)
(* ================================================================== *)

Lemma nodup_ids_filter : forall (f : Message -> bool) l,
  NoDup (map msg_id l) -> NoDup (map msg_id (filter f l)).
Proof.
  intros f l. induction l as [|m l IH]; cbn; intros H; [constructor|].
  inversion H as [|? ? Hnin Hnd]; subst.
  destruct (f m); cbn; [|auto].
  constructor; [|auto]. intros Hin. apply Hnin.
  apply in_map_iff in Hin. destruct Hin as (m' & Hid & Hin).
  apply filter_In in Hin. apply in_map_iff. exists m'. tauto.
Qed.

Lemma in_firstn : forall (A : Type) n (l : list A) x, In x (firstn n l) -> In x l.
Proof.
  intros A n l x H. rewrite <- (firstn_skipn n l). apply in_or_app. now left.
Qed.

Lemma nodup_ids_firstn : forall n (l : list Message),
  NoDup (map msg_id l) -> NoDup (map msg_id (firstn n l)).
Proof.
  induction n as [|n IH]; intros l H; cbn; [constructor|].
  destruct l as [|m l]; cbn; [constructor|].
  inversion H as [|? ? Hnin Hnd]; subst. constructor; [|auto].
  intros Hin. apply Hnin. apply in_map_iff in Hin. destruct Hin as (m' & Hid & Hin).
  apply in_map_iff. exists m'. split; [exact Hid|]. eapply in_firstn; eauto.
Qed.

Lemma get_history_incl : forall hist req m,
  In m (Telegram.get_history hist req) -> In m hist /\ Telegram.in_range req m = true.
Proof.
  intros hist req m H. unfold Telegram.get_history in H.
  apply in_firstn in H. now apply filter_In in H.
Qed.

Lemma call_unchanged : forall A (f : Telegram.Server -> outcome A * Telegram.Server)
                              (P : Telegram.Server -> Prop),
  (forall s, snd (f s) = s) ->
  preserves (fun w => P (remote w)) (call f).
Proof.
  intros A f P Hf w H. unfold call. specialize (Hf (remote w)).
  destruct (f (remote w)) as [o r]. cbn in *. now subst.
Qed.

(** The server of the model is well-behaved wherever it is in order. *)
Lemma telegram_well_behaved : well_behaved Telegram.client Telegram.tidy.
Proof.
  assert (Hpeer : forall s req msgs r',
             Telegram.tidy s -> Telegram.invoke req s = (Returns msgs, r') ->
             exists c, In c (Telegram.channels s)
                       /\ msgs = Telegram.get_history (Telegram.history c) req).
  { intros s req msgs r' _ H. unfold Telegram.invoke in H.
    destruct (Telegram.find_peer s (peer req)) as [c|] eqn:E; [|discriminate].
    destruct (Telegram.mem _ _); [discriminate|]. inversion H; subst.
    exists c. split; [|reflexivity]. unfold Telegram.find_peer in E.
    now apply find_some in E. }
  constructor.
  - constructor; intros.
    + intros w H. exact H.
    + apply call_unchanged. intros s. cbn. unfold Telegram.get_entity.
      destruct (Telegram.find_channel s u); reflexivity.
    + discriminate.
    + apply call_unchanged. intros s. cbn. unfold Telegram.invoke.
      destruct (Telegram.find_peer s (peer req)); [|reflexivity].
      destruct (Telegram.mem _ _); reflexivity.
    + apply call_unchanged. intros s. cbn. unfold Telegram.download.
      destruct (Telegram.mem _ _); reflexivity.
    + apply call_unchanged. intros s. cbn. unfold Telegram.get_messages.
      destruct (Telegram.find_peer s e); reflexivity.
    + unfold read_clock. apply call_unchanged. intros s. reflexivity.
  - intros req r msgs r' Hr H. cbn in H.
    destruct (Hpeer _ _ _ _ Hr H) as (c & Hc & ->).
    unfold Telegram.tidy in Hr. rewrite Forall_forall in Hr.
    destruct (Hr c Hc) as (Hnd & _).
    unfold Telegram.get_history. now apply nodup_ids_firstn, nodup_ids_filter.
  - intros req r msgs r' Hr H. cbn in H.
    destruct (Hpeer _ _ _ _ Hr H) as (c & Hc & ->).
    unfold Telegram.tidy in Hr. rewrite Forall_forall in Hr.
    destruct (Hr c Hc) as (_ & Hpos). rewrite Forall_forall in Hpos.
    apply Forall_forall. intros m Hm. apply get_history_incl in Hm. now apply Hpos.
  - intros req r msgs r' Hr H Hmin. cbn in H.
    destruct (Hpeer _ _ _ _ Hr H) as (c & Hc & ->).
    apply Forall_forall. intros m Hm. apply get_history_incl in Hm.
    destruct Hm as (_ & Hm). unfold Telegram.in_range in Hm.
    apply Z.ltb_lt in Hmin. rewrite Hmin in Hm.
    apply andb_prop in Hm. destruct Hm as (Hm & _). apply Z.ltb_lt in Hm. lia.
Qed.

(** The server of the model delivers the dates its histories hold. *)
Lemma telegram_delivers_dates : forall ok : datetime -> Prop,
  delivers_dates Telegram.client (Telegram.dated_by ok) ok.
Proof.
  intros ok. constructor.
  - constructor; intros.
    + intros w H. exact H.
    + apply call_unchanged. intros s. cbn. unfold Telegram.get_entity.
      destruct (Telegram.find_channel s u); reflexivity.
    + discriminate.
    + apply call_unchanged. intros s. cbn. unfold Telegram.invoke.
      destruct (Telegram.find_peer s (peer req)); [|reflexivity].
      destruct (Telegram.mem _ _); reflexivity.
    + apply call_unchanged. intros s. cbn. unfold Telegram.download.
      destruct (Telegram.mem _ _); reflexivity.
    + apply call_unchanged. intros s. cbn. unfold Telegram.get_messages.
      destruct (Telegram.find_peer s e); reflexivity.
    + unfold read_clock. apply call_unchanged. intros s. reflexivity.
  - intros req r msgs r' Hr H. cbn in H. unfold Telegram.invoke in H.
    destruct (Telegram.find_peer r (peer req)) as [c|] eqn:E; [|discriminate].
    destruct (Telegram.mem _ _); [discriminate|]. inversion H; subst.
    unfold Telegram.find_peer in E. apply find_some in E. destruct E as (Hc & _).
    unfold Telegram.dated_by in Hr. rewrite Forall_forall in Hr.
    specialize (Hr c Hc). rewrite Forall_forall in Hr.
    apply Forall_forall. intros m Hm. apply get_history_incl in Hm. now apply Hr.
Qed.

Ltac different_ids :=
  repeat constructor; cbn; intuition (try discriminate; try lia).

Lemma sample_server_tidy : Telegram.tidy Telegram.server.
Proof. unfold Telegram.tidy. cbn. different_ids. Qed.

(** The cursor request never brings back the message right after the
    watermark: the server drops the ids up to [min_id], [min_id] itself
    included. *)
Lemma cursor_request_excludes_next : forall hist e lim W,
  0 <= W ->
  ~ In (W + 1) (map msg_id (Telegram.get_history hist (cursor_request e lim W))).
Proof.
  intros hist e lim W HW Hin. apply in_map_iff in Hin. destruct Hin as (m & Hid & Hm).
  apply get_history_incl in Hm. destruct Hm as (_ & Hm).
  unfold Telegram.in_range, cursor_request in Hm. cbn in Hm.
  destruct (Z.ltb_spec 0 (W + 1)); [|lia].
  apply andb_prop in Hm. destruct Hm as (Hm & _). apply Z.ltb_lt in Hm. lia.
Qed.

(* ================================================================== *)
(** * Runs against the sample server *)
(* ================================================================== *)

(** C1 at work: from the watermark 10 the channel [news] ends at 13, the
    largest of the ids collected for it. *)
Lemma watermark_witness :
  dict_get "1001"%string Telegram.tracked = Some 10 /\ 0 < 10 /\
  exists tracking' all_messages w',
    channels_loop Telegram.client both 100 24 (Telegram.tracked, []) Telegram.later_run
    = (Returns (tracking', all_messages), w') /\
    emitted_ids "1001"%string all_messages = [13; 12] /\
    dict_get "1001"%string tracking' = Some 13.
Proof.
  split; [reflexivity|]. split; [reflexivity|].
  destruct (watermark_is_max_of_collected_ids Telegram.client both 100 24
              Telegram.tracked Telegram.later_run "1001"%string 10 eq_refl eq_refl)
    as (_ & _ & tr' & all & w' & Hrun & Hget & _).
  exists tr', all, w'. split; [exact Hrun|].
  assert (Hids : emitted_ids "1001"%string all = [13; 12]).
  { vm_compute in Hrun. inversion Hrun; subst. reflexivity. }
  split; [exact Hids|]. rewrite Hget, Hids. reflexivity.
Defined.

(** C2 at work: a list that names [news] twice. *)
Lemma no_duplicates_witness :
  exists corpus w',
    sample_run ["news"%string; "news"%string; "gallery"%string] Telegram.first_run
    = (Returns corpus, w') /\
    List.length corpus = 5%nat /\
    NoDup (map record_key corpus).
Proof.
  eexists _, _. split; [vm_compute; reflexivity|]. split; [reflexivity|].
  eapply (corpus_has_no_duplicates Telegram.client Telegram.parse Telegram.tidy
            ["news"%string; "news"%string; "gallery"%string] 100 24
            Telegram.first_run _ _ telegram_well_behaved sample_server_tidy).
  vm_compute; reflexivity.
Defined.

(** C3, the defect: with the watermark 10 and the messages 11, 12 and 13
    on the server, the run collects 12 and 13 only and moves the watermark
    to 13: the message 11 is never collected. *)
Theorem cursor_fetch_skips_the_next_message :
  In 11 (map msg_id (Telegram.history Telegram.news)) /\
  exists corpus w',
    sample_run ["news"%string] Telegram.later_run = (Returns corpus, w') /\
    map nm_id corpus = [12; 13] /\
    tracking_file (fs w')
    = Some (json_dumps [("1001"%string, 13); ("2002"%string, 20)]).
Proof.
  split; [cbn; tauto|].
  eexists _, _. split; [vm_compute; reflexivity|]. split; reflexivity.
Qed.

(** C4 refuted: a save stopped right after it opened the file leaves an
    empty file, neither the old dictionary nor the new one, and so does a
    save stopped after its last write, before the file is closed; and on a
    device that is full the save returns with the file empty. *)
Lemma interrupted_save_leaves_torn_file :
  tracking_file (fs Telegram.later_run) = Some (json_dumps Telegram.tracked) /\
  tracking_file
    (fs (stopped_after 2 (save_effects [("1001"%string, 13); ("2002"%string, 23)])
                       Telegram.later_run))
  = Some EmptyString /\
  tracking_file
    (fs (stopped_after
           (2 + List.length (iterencode [("1001"%string, 13); ("2002"%string, 23)]))
           (save_effects [("1001"%string, 13); ("2002"%string, 23)])
           Telegram.later_run))
  = Some EmptyString /\
  EmptyString <> json_dumps Telegram.tracked /\
  EmptyString <> json_dumps [("1001"%string, 13); ("2002"%string, 23)] /\
  exists w',
    _save_last_message_tracking [("1001"%string, 13); ("2002"%string, 23)]
                                Telegram.full_disk_run
    = (Returns tt, w') /\
    tracking_file (fs w') = Some EmptyString /\
    In (ERROR, "Error saving message tracking data"%string) (log w').
Proof.
  split; [reflexivity|]. split; [reflexivity|]. split; [reflexivity|].
  split; [discriminate|]. split; [discriminate|].
  eexists. split; [vm_compute; reflexivity|].
  split; [reflexivity|]. now left.
Qed.

(** C4 at work, as amended: three effects into the save the first chunk
    has been written, the file object holds it and the file is empty. *)
Lemma save_witness :
  writable (fs Telegram.later_run) /\
  holds_everything (fs Telegram.later_run) /\
  tracking_file
    (fs (stopped_after 3 (save_effects [("1001"%string, 13)]) Telegram.later_run))
  = Some EmptyString /\
  write_buffer
    (fs (stopped_after 3 (save_effects [("1001"%string, 13)]) Telegram.later_run))
  = "{"%string.
Proof.
  assert (Hw : writable (fs Telegram.later_run)) by (repeat split).
  assert (Hall : holds_everything (fs Telegram.later_run)) by (intros held; reflexivity).
  split; [exact Hw|]. split; [exact Hall|].
  destruct (save_overwrites_in_place [("1001"%string, 13)] Telegram.later_run 3 Hw)
    as (_ & Hmid & _ & Hheld & _).
  assert (Hk : (2 <= 3 <= 2 + List.length (iterencode [("1001"%string, 13%Z)]))%nat)
    by (cbn; lia).
  destruct (Hmid Hk) as (passed & Hfile & Htext).
  rewrite (Hheld Hall Hk) in Hfile. split; [exact (Hheld Hall Hk)|].
  injection Hfile as <-. exact Htext.
Defined.

(** C5 refuted: the tracking file cannot be opened for writing, and the
    run returns its corpus all the same, the file as it was. *)
Lemma failed_write_passes_for_success :
  exists corpus w',
    sample_run both Telegram.read_only_run = (Returns corpus, w') /\
    map nm_id corpus = [12; 13; 22; 23] /\
    tracking_file (fs w') = Some (json_dumps Telegram.tracked) /\
    In (ERROR, "Error saving message tracking data"%string) (log w').
Proof.
  eexists _, _. split; [vm_compute; reflexivity|].
  split; [reflexivity|]. split; [reflexivity|].
  cbn. tauto.
Qed.

(** C6, the defect: the download of the photo 23 raises, and the channel
    loses the text message 22 with it; its watermark stays at 20. *)
Theorem media_failure_drops_the_channel :
  map msg_id (Telegram.get_history (Telegram.history Telegram.gallery)
                (cursor_request (Telegram.entity Telegram.gallery) 100 20))
  = [23; 22] /\
  exists corpus w',
    sample_run both Telegram.later_run_broken_photo = (Returns corpus, w') /\
    map nm_id corpus = [12; 13] /\
    In (ERROR, "Error retrieving messages"%string) (log w') /\
    tracking_file (fs w')
    = Some (json_dumps [("1001"%string, 13); ("2002"%string, 20)]).
Proof.
  split; [reflexivity|].
  eexists _, _. split; [vm_compute; reflexivity|].
  split; [reflexivity|]. split; [cbn; tauto|reflexivity].
Qed.

(* ================================================================== *)
(** * The text of a date and its instant *)
(* ================================================================== *)

Lemma ascii_compare_refl : forall c, Ascii.compare c c = Eq.
Proof. intros c. unfold Ascii.compare. apply N.compare_refl. Qed.

Lemma string_compare_refl : forall s, String.compare s s = Eq.
Proof. induction s as [|c s IH]; cbn; [reflexivity|]. now rewrite ascii_compare_refl. Qed.

Lemma compare_app : forall a a' r r',
  String.length a = String.length a' ->
  String.compare (a +++ r) (a' +++ r')
  = lex (String.compare a a') (String.compare r r').
Proof.
  induction a as [|c a IH]; destruct a' as [|c' a']; cbn; intros r r' H;
    try discriminate; [reflexivity|].
  destruct (Ascii.compare c c'); cbn; auto.
Qed.

Lemma length_append : forall a b,
  String.length (a +++ b) = (String.length a + String.length b)%nat.
Proof. induction a as [|c a IH]; cbn; intros b; [reflexivity|]. now rewrite IH. Qed.

Lemma zpad_length : forall w n, String.length (zpad w n) = w.
Proof.
  induction w as [|w IH]; intros n; cbn; [reflexivity|].
  rewrite length_append, IH. cbn. lia.
Qed.

Lemma digit_compare : forall a b,
  0 <= a < 10 -> 0 <= b < 10 ->
  Ascii.compare (digit a) (digit b) = (a ?= b).
Proof.
  intros a b Ha Hb.
  assert (Ea : a = 0 \/ a = 1 \/ a = 2 \/ a = 3 \/ a = 4 \/ a = 5 \/ a = 6 \/ a = 7
               \/ a = 8 \/ a = 9) by lia.
  assert (Eb : b = 0 \/ b = 1 \/ b = 2 \/ b = 3 \/ b = 4 \/ b = 5 \/ b = 6 \/ b = 7
               \/ b = 8 \/ b = 9) by lia.
  repeat (destruct Ea as [Ea|Ea]); subst a;
    repeat (destruct Eb as [Eb|Eb]); subst b; reflexivity.
Qed.

Lemma digit_mod : forall n, digit n = digit (n mod 10).
Proof. intros n. unfold digit. now rewrite Z.mod_mod by lia. Qed.

Lemma compare_by_digits : forall a b,
  0 <= a -> 0 <= b ->
  (a ?= b) = lex (a / 10 ?= b / 10) (a mod 10 ?= b mod 10).
Proof.
  intros a b Ha Hb.
  pose proof (Z.div_mod a 10 ltac:(lia)). pose proof (Z.div_mod b 10 ltac:(lia)).
  pose proof (Z.mod_pos_bound a 10 ltac:(lia)).
  pose proof (Z.mod_pos_bound b 10 ltac:(lia)).
  unfold lex.
  destruct (Z.compare_spec (a / 10) (b / 10));
    destruct (Z.compare_spec (a mod 10) (b mod 10));
    destruct (Z.compare_spec a b); try reflexivity; lia.
Qed.

(** Numbers padded to one width compare as texts the way they compare as
    numbers. *)
Lemma zpad_compare : forall w a b,
  0 <= a < 10 ^ Z.of_nat w -> 0 <= b < 10 ^ Z.of_nat w ->
  String.compare (zpad w a) (zpad w b) = (a ?= b).
Proof.
  induction w as [|w IH]; intros a b Ha Hb.
  - cbn in *. assert (a = 0) by lia. assert (b = 0) by lia. subst. reflexivity.
  - cbn [zpad]. rewrite compare_app by (now rewrite !zpad_length).
    rewrite Nat2Z.inj_succ, Z.pow_succ_r in Ha, Hb by lia.
    rewrite IH.
    + cbn [String.compare]. rewrite (digit_mod a), (digit_mod b).
      rewrite digit_compare by (apply Z.mod_pos_bound; lia).
      rewrite (compare_by_digits a b) by lia.
      unfold lex. destruct (a / 10 ?= b / 10); try reflexivity.
      destruct (a mod 10 ?= b mod 10); reflexivity.
    + split; [apply Z.div_pos; lia|]. apply Z.div_lt_upper_bound; lia.
    + split; [apply Z.div_pos; lia|]. apply Z.div_lt_upper_bound; lia.
Qed.

Lemma compare_cons_same : forall c r r',
  String.compare (String c r) (String c r') = String.compare r r'.
Proof. intros c r r'. cbn. now rewrite ascii_compare_refl. Qed.

Lemma isoformat_fields : forall d,
  isoformat d
  = zpad 4 (year d) +++ String "-" (zpad 2 (month d) +++ String "-" (zpad 2 (day d)
    +++ String "T" (zpad 2 (hour d) +++ String ":" (zpad 2 (minute d)
    +++ String ":" (zpad 2 (second d) +++ iso_tail d))))).
Proof. reflexivity. Qed.

(** The fields of a valid datetime fit their widths. *)
Lemma valid_bounds : forall d,
  valid_datetime d = true ->
  1 <= year d <= 9999 /\ 1 <= month d <= 12 /\
  1 <= day d <= days_in_month (year d) (month d) /\
  0 <= hour d < 24 /\ 0 <= minute d < 60 /\ 0 <= second d < 60 /\
  0 <= microsecond d < 1000000.
Proof.
  intros d H. unfold valid_datetime in H.
  repeat (apply andb_prop in H; destruct H as [H ?]).
  repeat match goal with
         | H : (_ <=? _) = true |- _ => apply Z.leb_le in H
         | H : (_ <? _) = true |- _ => apply Z.ltb_lt in H
         end.
  lia.
Qed.

Lemma days_in_month_le : forall y m, days_in_month y m <= 31.
Proof.
  intros y m. unfold days_in_month.
  destruct (m =? 2); [destruct (is_leap y); lia|].
  destruct (_ || _); lia.
Qed.

Lemma isoformat_compare : forall d1 d2,
  valid_datetime d1 = true -> valid_datetime d2 = true ->
  String.compare (isoformat d1) (isoformat d2)
  = lex (year d1 ?= year d2)
     (lex (month d1 ?= month d2)
      (lex (day d1 ?= day d2)
       (lex (hour d1 ?= hour d2)
        (lex (minute d1 ?= minute d2)
         (lex (second d1 ?= second d2)
          (String.compare (iso_tail d1) (iso_tail d2))))))).
Proof.
  intros d1 d2 H1 H2.
  apply valid_bounds in H1. apply valid_bounds in H2.
  pose proof (days_in_month_le (year d1) (month d1)).
  pose proof (days_in_month_le (year d2) (month d2)).
  rewrite !isoformat_fields.
  repeat (rewrite compare_app by (now rewrite !zpad_length);
          rewrite zpad_compare by (cbn; lia);
          rewrite ?compare_cons_same).
  reflexivity.
Qed.

Lemma offset_sign : forall off,
  exists rest, format_offset off = String "+" rest \/ format_offset off = String "-" rest.
Proof.
  intros off. unfold format_offset. destruct (off <? 0); cbn; eauto.
Qed.

(** After equal seconds, the texts compare by the microseconds. *)
Lemma iso_tail_order : forall d1 d2,
  0 <= microsecond d1 < 1000000 -> 0 <= microsecond d2 < 1000000 ->
  String.compare (iso_tail d1) (iso_tail d2) <> Gt ->
  microsecond d1 <= microsecond d2.
Proof.
  intros d1 d2 H1 H2 Hcmp. unfold iso_tail in Hcmp.
  destruct (Z.eqb_spec (microsecond d1) 0) as [E1|E1]; [lia|].
  destruct (Z.eqb_spec (microsecond d2) 0) as [E2|E2].
  - exfalso. apply Hcmp. cbn [String.append].
    destruct (tzinfo d2) as [off|]; [|reflexivity].
    destruct (offset_sign off) as (rest & [->| ->]); reflexivity.
  - cbn [String.append] in Hcmp. rewrite compare_cons_same in Hcmp.
    rewrite compare_app in Hcmp by (now rewrite !zpad_length).
    rewrite zpad_compare in Hcmp by (cbn; lia).
    destruct (Z.compare_spec (microsecond d1) (microsecond d2)); try lia.
    exfalso. apply Hcmp. reflexivity.
Qed.

(** ** The calendar *)

Lemma days_before_year_succ : forall y,
  days_before_year (y + 1) = days_before_year y + 365 + (if is_leap y then 1 else 0).
Proof.
  intros y. unfold days_before_year, is_leap.
  replace (y + 1 - 1) with y by lia.
  destruct (Z.eqb_spec (y mod 4) 0); destruct (Z.eqb_spec (y mod 100) 0);
    destruct (Z.eqb_spec (y mod 400) 0); cbn [andb orb negb];
    Z.div_mod_to_equations; lia.
Qed.

Lemma days_before_year_mono : forall y1 y2,
  y1 <= y2 -> days_before_year y1 <= days_before_year y2.
Proof.
  intros y1 y2 H. unfold days_before_year. Z.div_mod_to_equations. lia.
Qed.

Ltac each_month m :=
  let E := fresh "E" in
  assert (E : m = 1 \/ m = 2 \/ m = 3 \/ m = 4 \/ m = 5 \/ m = 6 \/ m = 7 \/ m = 8
              \/ m = 9 \/ m = 10 \/ m = 11 \/ m = 12) by lia;
  repeat (destruct E as [E|E]); subst m.

Lemma days_before_month_table : forall y,
  days_before_month y 1 = 0 /\ days_before_month y 2 = 31 /\
  days_before_month y 3 = 59 + leap_day y /\ days_before_month y 4 = 90 + leap_day y /\
  days_before_month y 5 = 120 + leap_day y /\ days_before_month y 6 = 151 + leap_day y /\
  days_before_month y 7 = 181 + leap_day y /\ days_before_month y 8 = 212 + leap_day y /\
  days_before_month y 9 = 243 + leap_day y /\ days_before_month y 10 = 273 + leap_day y /\
  days_before_month y 11 = 304 + leap_day y /\ days_before_month y 12 = 334 + leap_day y.
Proof. intros y. repeat split; reflexivity. Qed.

Lemma days_in_month_table : forall y,
  days_in_month y 1 = 31 /\ days_in_month y 2 = 28 + leap_day y /\
  days_in_month y 3 = 31 /\ days_in_month y 4 = 30 /\ days_in_month y 5 = 31 /\
  days_in_month y 6 = 30 /\ days_in_month y 7 = 31 /\ days_in_month y 8 = 31 /\
  days_in_month y 9 = 30 /\ days_in_month y 10 = 31 /\ days_in_month y 11 = 30 /\
  days_in_month y 12 = 31.
Proof.
  intros y. unfold leap_day. repeat split; try reflexivity.
  unfold days_in_month. cbn. destruct (is_leap y); reflexivity.
Qed.

Lemma leap_day_range : forall y, 0 <= leap_day y <= 1.
Proof. intros y. unfold leap_day. destruct (is_leap y); lia. Qed.

Ltac calendar y :=
  pose proof (leap_day_range y);
  destruct (days_before_month_table y) as (? & ? & ? & ? & ? & ? & ? & ? & ? & ? & ? & ?);
  destruct (days_in_month_table y) as (? & ? & ? & ? & ? & ? & ? & ? & ? & ? & ? & ?).

Lemma days_before_month_nonneg : forall y m, 1 <= m <= 12 -> 0 <= days_before_month y m.
Proof. intros y m Hm. calendar y. each_month m; lia. Qed.

Lemma month_fits_year : forall y m d,
  1 <= m <= 12 -> 1 <= d <= days_in_month y m ->
  days_before_month y m + d <= 365 + leap_day y.
Proof. intros y m d Hm Hd. calendar y. each_month m; lia. Qed.

Lemma month_before_month : forall y m1 m2 d,
  1 <= m1 -> m1 < m2 -> m2 <= 12 -> 1 <= d <= days_in_month y m1 ->
  days_before_month y m1 + d <= days_before_month y m2.
Proof.
  intros y m1 m2 d H1 H12 H2 Hd. calendar y.
  each_month m1; each_month m2; lia.
Qed.

(** The ordinal of a date grows with the date. *)
Lemma ymd2ord_order : forall y1 m1 d1 y2 m2 d2,
  1 <= m1 <= 12 -> 1 <= d1 <= days_in_month y1 m1 ->
  1 <= m2 <= 12 -> 1 <= d2 <= days_in_month y2 m2 ->
  lex (y1 ?= y2) (lex (m1 ?= m2) (d1 ?= d2)) <> Gt ->
  ymd2ord y1 m1 d1 <= ymd2ord y2 m2 d2 /\
  (lex (y1 ?= y2) (lex (m1 ?= m2) (d1 ?= d2)) = Lt ->
   ymd2ord y1 m1 d1 < ymd2ord y2 m2 d2).
Proof.
  intros y1 m1 d1 y2 m2 d2 Hm1 Hd1 Hm2 Hd2 Hcmp. unfold ymd2ord, lex in *.
  destruct (Z.compare_spec y1 y2) as [->|Hy|Hy]; [| |congruence].
  - destruct (Z.compare_spec m1 m2) as [->|Hm|Hm]; [| |congruence].
    + destruct (Z.compare_spec d1 d2); [| |congruence]; split; intros; try lia; discriminate.
    + pose proof (month_before_month y2 m1 m2 d1 ltac:(lia) Hm ltac:(lia) Hd1).
      split; intros; lia.
  - pose proof (month_fits_year y1 m1 d1 Hm1 Hd1).
    pose proof (days_before_year_succ y1). unfold leap_day in *.
    pose proof (days_before_year_mono (y1 + 1) y2 ltac:(lia)).
    pose proof (days_before_month_nonneg y2 m2 Hm2).
    split; intros; lia.
Qed.

(** Two valid datetimes of one offset: when the text of the first is not
    after the text of the second, neither is its instant. *)
Lemma isoformat_order : forall d1 d2,
  valid_datetime d1 = true -> valid_datetime d2 = true ->
  utcoffset d1 = utcoffset d2 ->
  String.leb (isoformat d1) (isoformat d2) = true ->
  timestamp d1 <= timestamp d2.
Proof.
  intros d1 d2 V1 V2 Hoff Hleb.
  assert (Hcmp : String.compare (isoformat d1) (isoformat d2) <> Gt).
  { unfold String.leb in Hleb. intros E. rewrite E in Hleb. discriminate. }
  rewrite isoformat_compare in Hcmp by assumption.
  pose proof (valid_bounds d1 V1) as (Hy1 & Hm1 & Hd1 & Hh1 & Hmi1 & Hs1 & Hu1).
  pose proof (valid_bounds d2 V2) as (Hy2 & Hm2 & Hd2 & Hh2 & Hmi2 & Hs2 & Hu2).
  unfold timestamp. unfold utcoffset in Hoff. rewrite Hoff.
  set (o := match tzinfo d2 with Some off => off | None => 0 end) in *.
  set (c := lex (year d1 ?= year d2) (lex (month d1 ?= month d2) (day d1 ?= day d2))).
  assert (Hc : lex (year d1 ?= year d2) (lex (month d1 ?= month d2) (lex (day d1 ?= day d2)
                 (lex (hour d1 ?= hour d2) (lex (minute d1 ?= minute d2)
                   (lex (second d1 ?= second d2)
                      (String.compare (iso_tail d1) (iso_tail d2)))))))
               = lex c (lex (hour d1 ?= hour d2) (lex (minute d1 ?= minute d2)
                   (lex (second d1 ?= second d2)
                      (String.compare (iso_tail d1) (iso_tail d2)))))).
  { unfold c, lex. destruct (year d1 ?= year d2); try reflexivity.
    destruct (month d1 ?= month d2); try reflexivity. }
  rewrite Hc in Hcmp. clear Hc.
  destruct c eqn:Ec.
  - assert (Hord : ymd2ord (year d1) (month d1) (day d1)
                   = ymd2ord (year d2) (month d2) (day d2)).
    { unfold c, lex in Ec.
      destruct (Z.compare_spec (year d1) (year d2)); try discriminate.
      destruct (Z.compare_spec (month d1) (month d2)); try discriminate.
      destruct (Z.compare_spec (day d1) (day d2)); try discriminate.
      congruence. }
    rewrite Hord. unfold lex in Hcmp.
    destruct (Z.compare_spec (hour d1) (hour d2)); [| lia | congruence].
    destruct (Z.compare_spec (minute d1) (minute d2)); [| lia | congruence].
    destruct (Z.compare_spec (second d1) (second d2)); [| lia | congruence].
    pose proof (iso_tail_order d1 d2 Hu1 Hu2 Hcmp). lia.
  - assert (Hne : c <> Gt) by congruence.
    destruct (ymd2ord_order _ _ _ _ _ _ Hm1 Hd1 Hm2 Hd2 Hne) as (_ & Hlt).
    specialize (Hlt Ec). lia.
  - exfalso. apply Hcmp. reflexivity.
Qed.

(** The order of the texts is transitive. *)
Lemma ascii_compare_trans_lt : forall a b c,
  Ascii.compare a b = Lt -> Ascii.compare b c = Lt -> Ascii.compare a c = Lt.
Proof.
  unfold Ascii.compare. intros a b c H1 H2.
  apply N.compare_lt_iff in H1. apply N.compare_lt_iff in H2.
  apply N.compare_lt_iff. eapply N.lt_trans; eauto.
Qed.

Lemma string_leb_trans : forall a b c,
  String.leb a b = true -> String.leb b c = true -> String.leb a c = true.
Proof.
  unfold String.leb.
  induction a as [|x a IH]; destruct b as [|y b]; destruct c as [|z c]; cbn;
    intros H1 H2; try reflexivity; try discriminate.
  destruct (Ascii.compare x y) eqn:Exy; try discriminate;
    destruct (Ascii.compare y z) eqn:Eyz; try discriminate.
  - apply Ascii.compare_eq_iff in Exy, Eyz. subst. rewrite ascii_compare_refl. eapply IH; eassumption.
  - apply Ascii.compare_eq_iff in Exy. subst. now rewrite Eyz.
  - apply Ascii.compare_eq_iff in Eyz. subst. now rewrite Exy.
  - now rewrite (ascii_compare_trans_lt _ _ _ Exy Eyz).
Qed.

Lemma sort_by_date_strongly_sorted : forall l, StronglySorted date_le (sort_by_date l).
Proof.
  intros l. apply Sorted_StronglySorted.
  - intros a b c. unfold date_le. apply string_leb_trans.
  - apply sort_by_date_sorted.
Qed.

(* ================================================================== *)
(** * The order of the corpus and the order of time *)
(* ================================================================== *)

Lemma strongly_sorted_nth : forall (A : Type) (Rel : A -> A -> Prop) l i j a b,
  StronglySorted Rel l -> (i < j)%nat ->
  nth_error l i = Some a -> nth_error l j = Some b -> Rel a b.
Proof.
  intros A Rel l i j a b Hs. revert i j.
  induction Hs as [|x l Hs IH Hall]; intros i j Hij Hi Hj.
  - destruct i; discriminate.
  - destruct j as [|j]; [lia|]. cbn in Hj. destruct i as [|i]; cbn in Hi.
    + inversion Hi; subst. rewrite Forall_forall in Hall. apply Hall.
      eapply nth_error_In; eauto.
    + eapply IH; [|eauto|eauto]. lia.
Qed.

Section CorpusOrder.
Context {R : Type}.
Variable client : Client R.
Variable json_loads : string -> outcome Tracking.

(** The records of a pass are made of messages of one answer of the
    client. *)
Lemma pass_dates : forall good ok u lim fh tr all (w : World R) tr' all' w',
  delivers_dates client good ok -> good (remote w) ->
  channel_body client u lim fh (tr, all) w = (Returns (tr', all'), w') ->
  exists cm, all' = all ++ cm /\
             Forall (fun nm => exists d, dated ok nm d) cm.
Proof.
  intros good ok u lim fh tr all w tr' all' w' Hd Hgood Hbody.
  apply channel_body_inv in Hbody.
  destruct Hbody as (e & info & w1 & ms & since & w2 & cm & w3
                     & Hres & Hfetch & Hproc & _ & ->).
  exists cm. split; [reflexivity|].
  assert (Hgood1 : good (remote w1)).
  { pose proof (resolve_channel_stable client _ (dates_good_stable client _ _ Hd) u w Hgood)
      as Hp.
    rewrite Hres in Hp. exact Hp. }
  apply process_messages_spec in Hproc. destruct Hproc as (new & Hnew & Hren).
  cbn in Hnew. subst new.
  assert (Hms : Forall (fun m => ok (msg_date m)) ms).
  { destruct (use_id_tracking_for (str (entity_id e)) tr) eqn:Huse.
    - destruct (fetch_cursor client _ _ _ _ _ _ _ _ _ Hfetch Huse)
        as (W & r & _ & _ & Hcall).
      exact (dates_of_answers client _ _ Hd _ _ _ _ Hgood1 Hcall).
    - destruct (fetch_fallback client _ _ _ _ _ _ _ _ _ Hfetch Huse)
        as (now & r1 & r2 & Hnow & _ & Hcall).
      assert (Hgood2 : good r1).
      { pose proof (stable_now client _ (dates_good_stable client _ _ Hd) w1 Hgood1) as Hp.
        unfold read_clock, call in Hp. rewrite Hnow in Hp. exact Hp. }
      exact (dates_of_answers client _ _ Hd _ _ _ _ Hgood2 Hcall). }
  rewrite Forall_forall in Hms. apply Forall_forall. intros nm Hin.
  destruct (renders_in _ _ _ _ Hren Hin) as (m & Hm & _ & _ & Hdate).
  apply kept_incl in Hm. exists (msg_date m). split; [exact Hdate|now apply Hms].
Qed.

Lemma dated_list : forall (ok : datetime -> Prop) corpus,
  Forall (fun nm => exists d, dated ok nm d) corpus ->
  exists dates, Forall2 (dated ok) corpus dates.
Proof.
  intros ok corpus H. induction H as [|nm corpus (d & Hd) _ (dates & IH)].
  - exists []. constructor.
  - exists (d :: dates). now constructor.
Qed.

Lemma sorted_by_instant : forall corpus dates,
  Forall2 (dated utc_date) corpus dates ->
  StronglySorted date_le corpus -> StronglySorted by_instant dates.
Proof.
  intros corpus dates H. induction H as [|nm d corpus dates (Hd & Hv & Hz) Hrest IH];
    intros Hs; [constructor|].
  inversion Hs as [|? ? Hs' Hall]; subst. constructor; [now apply IH|].
  rewrite Forall_forall in Hall. apply Forall_forall. intros d' Hd'.
  assert (Hnm : exists nm', In nm' corpus /\ dated utc_date nm' d').
  { clear - Hrest Hd'. induction Hrest as [|a b l l' Hab _ IH]; [contradiction|].
    destruct Hd' as [->|Hd']; [exists a; split; [now left|exact Hab]|].
    destruct (IH Hd') as (nm' & ? & ?). exists nm'. split; [now right|assumption]. }
  destruct Hnm as (nm' & Hin & Hd2 & Hv2 & Hz2).
  unfold by_instant. apply isoformat_order; auto.
  - unfold utcoffset. now rewrite Hz, Hz2.
  - rewrite <- Hd, <- Hd2. exact (Hall nm' Hin).
Qed.

(** C7.  The corpus is sorted by time.  The sort compares the texts of
    the dates; the dates the client delivers are valid datetimes in UTC,
    and for such dates the order of the texts is the order of the
    instants.  So, whatever the handles and whatever each pass brought,
    the date of every record is the text of a valid UTC datetime, and the
    instants of these datetimes do not go down along the corpus. *)
Theorem corpus_sorted_by_timestamp :
  forall good us lim fh (w : World R) corpus w',
    delivers_dates client good utc_date -> good (remote w) ->
    get_new_messages_without_duplication client json_loads us lim fh w
    = (Returns corpus, w') ->
    StronglySorted date_le corpus /\
    exists dates,
      Forall2 (dated utc_date) corpus dates /\
      StronglySorted by_instant dates.
Proof.
  intros good us lim fh w corpus w' Hd Hgood H.
  destruct (run_returns client json_loads _ _ _ _ _ _ H)
    as (tr0 & w0 & tr' & all & w1 & Hload & Hloop & ->).
  pose proof (sort_by_date_strongly_sorted all) as Hs.
  split; [exact Hs|].
  assert (Hgood0 : good (remote w0))
    by (now rewrite (load_keeps_remote json_loads _ _ _ Hload)).
  assert (Hall : Forall (fun nm => exists d, dated utc_date nm d) all).
  { refine (channels_loop_invariant client (fun w => good (remote w))
              (fun st => Forall (fun nm => exists d, dated utc_date nm d) (snd st))
              lim fh (dates_good_stable client _ _ Hd) _ us (tr0, []) w0 (tr', all) w1
              Hgood0 (Forall_nil _) Hloop).
    intros u [tr a] wa [tr1 a1] wb Hga Hst Hbody. cbn [snd] in *.
    destruct (pass_dates _ _ _ _ _ _ _ _ _ _ _ Hd Hga Hbody) as (cm & -> & Hcm).
    apply Forall_app. now split. }
  assert (Hcorpus : Forall (fun nm => exists d, dated utc_date nm d) (sort_by_date all)).
  { rewrite Forall_forall in *. intros nm Hnm. apply Hall.
    eapply Permutation_in; [apply sort_by_date_perm|exact Hnm]. }
  destruct (dated_list _ _ Hcorpus) as (dates & Hdates).
  exists dates. split; [exact Hdates|]. now apply (sorted_by_instant _ _ Hdates).
Qed.
End CorpusOrder.

(** The hypothesis on the zones is needed, for the sort compares texts:
    were [abroad] to post at 12:30 of a zone two hours ahead, which is
    10:30 UTC, and [home] at 12:00 UTC, the corpus would have the record
    of [home] first. *)
Lemma corpus_out_of_chronological_order :
  exists corpus w' r1 r2,
    get_new_messages_without_duplication Telegram.client Telegram.parse
      ["home"%string; "abroad"%string] 100 24 Telegram.two_zones_run
    = (Returns corpus, w') /\
    nth_error corpus 0 = Some r1 /\ nth_error corpus 1 = Some r2 /\
    nm_date r1 = isoformat Telegram.noon_utc /\
    nm_date r2 = isoformat Telegram.half_past_noon_plus_two /\
    valid_datetime Telegram.noon_utc = true /\
    valid_datetime Telegram.half_past_noon_plus_two = true /\
    timestamp Telegram.half_past_noon_plus_two < timestamp Telegram.noon_utc.
Proof.
  eexists _, _, _, _. split; [vm_compute; reflexivity|].
  repeat split; reflexivity.
Qed.

Lemma sample_server_in_utc : Telegram.dated_by utc_date Telegram.server.
Proof. repeat constructor. Qed.

(** C7 at work: the five records of the two channels, by time. *)
Lemma corpus_order_witness :
  delivers_dates Telegram.client (Telegram.dated_by utc_date) utc_date /\
  Telegram.dated_by utc_date (remote Telegram.first_run) /\
  exists corpus w' dates,
    get_new_messages_without_duplication Telegram.client Telegram.parse both 100 24
      Telegram.first_run
    = (Returns corpus, w') /\
    map nm_id corpus = [11; 12; 13; 22; 23] /\
    Forall2 (dated utc_date) corpus dates /\
    StronglySorted by_instant dates.
Proof.
  split; [apply telegram_delivers_dates|]. split; [exact sample_server_in_utc|].
  eexists _, _.
  match goal with
  | |- exists dates, ?A /\ _ => assert (H : A) by (vm_compute; reflexivity)
  end.
  destruct (corpus_sorted_by_timestamp Telegram.client Telegram.parse
              (Telegram.dated_by utc_date) both 100 24 Telegram.first_run _ _
              (telegram_delivers_dates utc_date) sample_server_in_utc H)
    as (_ & dates & Hdates & Hsorted).
  exists dates. split; [exact H|]. split; [reflexivity|]. split; assumption.
Defined.

(** C8 at work: [ghost] does not resolve, and the run has the three
    records of [news]. *)
Lemma skipped_channel_witness :
  channel_unreachable Telegram.client "ghost" 100 24 [] Telegram.first_run /\
  exists st' w',
    channels_loop Telegram.client ["ghost"%string; "news"%string] 100 24 ([], [])
                  Telegram.first_run
    = (Returns st', w') /\
    map record_key (snd st') = [(1001, 13); (1001, 12); (1001, 11)].
Proof.
  assert (Hfail : channel_unreachable Telegram.client "ghost" 100 24 [] Telegram.first_run).
  { left. eexists _, _. reflexivity. }
  split; [exact Hfail|].
  destruct (unreachable_channel_is_skipped Telegram.client [] "ghost"%string
              ["news"%string] 100 24 ([], []) Telegram.first_run [] []
              Telegram.first_run eq_refl Hfail)
    as (w2 & Hturn & _ & Heq).
  change ([] ++ ["ghost"%string; "news"%string])
    with ["ghost"%string; "news"%string] in Heq.
  vm_compute in Hturn. inversion Hturn; subst.
  eexists _, _. split; [rewrite Heq; vm_compute; reflexivity|reflexivity].
Defined.


(* ================================================================== *)
(** * Further properties of the run *)
(* ================================================================== *)

Section Further.
Context {R : Type}.
Variable client : Client R.

(** The loop over the channels never raises: whatever a channel's pass
    raises is caught by the [except] clause of its turn. *)
Theorem channel_loop_never_raises : forall us lim fh st (w : World R),
  exists st' w', channels_loop client us lim fh st w = (Returns st', w').
Proof. intros. apply channels_loop_returns. Qed.

(** A failed reply lookup does not cost the message: [resolve_reply]
    never raises, and gives [None] when the text is not in the batch and
    the lookup on the server raises. *)
Theorem reply_lookup_never_raises : forall entity batch reply_to_msg_id (w : World R),
  exists text w',
    resolve_reply client entity batch reply_to_msg_id w = (Returns text, w') /\
    (forall e r,
        find (fun m => msg_id m =? reply_to_msg_id) batch = None ->
        client_get_messages client entity reply_to_msg_id (remote w) = (Raises e, r) ->
        text = None).
Proof.
  intros e batch id w. unfold resolve_reply.
  destruct (find (fun m => msg_id m =? id) batch) as [m|] eqn:Hfind.
  - unfold_io. cbn. eexists _, _. split; [reflexivity|]. intros; discriminate.
  - unfold_io. cbn.
    destruct (client_get_messages client e id (remote w)) as [[m|err] r] eqn:Hcall; cbn;
      eexists _, _; (split; [reflexivity|]); intros e' r' _ H; [discriminate|reflexivity].
Qed.
End Further.

(** The sort loses no record and adds none. *)
Theorem sort_keeps_every_record : forall all_messages,
  Permutation (sort_by_date all_messages) all_messages /\
  List.length (sort_by_date all_messages) = List.length all_messages.
Proof.
  intros l. pose proof (sort_by_date_perm l) as H. split; [exact H|].
  now apply Permutation_length.
Qed.

(* ================================================================== *)
(** * The verification of the handles *)
(* ================================================================== *)

Section VerifyFacts.
Context {R : Type}.
Variable client : Client R.

Lemma subsequence_refl : forall (A : Type) (l : list A), subsequence l l.
Proof. induction l; constructor; auto. Qed.

Lemma subsequence_app_l : forall (A : Type) (a l l' : list A),
  subsequence l l' -> subsequence (a ++ l) (a ++ l').
Proof. induction a; cbn; intros; [auto|constructor; auto]. Qed.

Lemma verify_loop_spec : forall us acc (w : World R),
  exists kept w',
    verify_loop client us acc w = (Returns (acc ++ kept), w') /\
    subsequence kept us /\ fs w' = fs w /\
    List.length (log w') = (List.length (log w) + List.length us)%nat.
Proof.
  induction us as [|u us IH]; intros acc w; cbn [verify_loop].
  - exists [], w. unfold ret. rewrite app_nil_r. repeat split; [constructor|cbn; lia].
  - unfold bind at 1. unfold try_except, bind at 1, call.
    destruct (client_get_entity client u (remote w)) as [[entity|e] r]; cbn.
    + match goal with
      | |- context [verify_loop client us ?a ?w1] =>
          destruct (IH a w1) as (kept & w' & H & Hsub & Hfs & Hlog)
      end.
      exists (u :: kept), w'. rewrite H, <- app_assoc. cbn in *.
      repeat split; [now constructor|exact Hfs|].
      rewrite Hlog, length_app. cbn. lia.
    + match goal with
      | |- context [verify_loop client us ?a ?w1] =>
          destruct (IH a w1) as (kept & w' & H & Hsub & Hfs & Hlog)
      end.
      exists kept, w'. rewrite H. cbn in *.
      repeat split; [now constructor|exact Hfs|].
      rewrite Hlog, length_app. cbn. lia.
Qed.

(** [verify_channels] never raises.  What it returns is the list of
    handles with some left out, the others in the order they came in; it
    writes one line of log for each handle and no file. *)
Theorem verified_channels_keep_their_order : forall channel_usernames (w : World R),
  exists accessible_channels w',
    verify_channels client channel_usernames w = (Returns accessible_channels, w') /\
    subsequence accessible_channels channel_usernames /\
    fs w' = fs w /\
    List.length (log w') = (List.length (log w) + List.length channel_usernames)%nat.
Proof.
  intros us w. unfold verify_channels.
  destruct (verify_loop_spec us [] w) as (kept & w' & H & Hsub & Hfs & Hlog).
  exists kept, w'. auto.
Qed.

Lemma verify_loop_pure : lookups_are_pure client ->
  forall us acc (w : World R),
  exists w',
    verify_loop client us acc w
    = (Returns (acc ++ filter (fun u => resolves client u (remote w)) us), w') /\
    remote w' = remote w.
Proof.
  intros Hpure. induction us as [|u us IH]; intros acc w; cbn [verify_loop filter].
  - exists w. unfold ret. now rewrite app_nil_r.
  - unfold bind at 1. unfold try_except, bind at 1, call. unfold resolves at 1.
    specialize (Hpure u (remote w)).
    destruct (client_get_entity client u (remote w)) as [[entity|e] r]; cbn in *; subst r.
    + match goal with
      | |- context [verify_loop client us ?a ?w1] =>
          destruct (IH a w1) as (w' & H & Hrem)
      end.
      exists w'. rewrite H, <- app_assoc. cbn in *. auto.
    + match goal with
      | |- context [verify_loop client us ?a ?w1] =>
          destruct (IH a w1) as (w' & H & Hrem)
      end.
      exists w'. rewrite H. cbn in *. auto.
Qed.

(** When looking a handle up changes nothing on the remote side,
    [verify_channels] returns exactly the handles that resolve, each as
    often as it is listed: a handle that does not resolve is never
    returned, one that resolves is never left out. *)
Theorem verified_channels_are_those_that_resolve :
  lookups_are_pure client ->
  forall channel_usernames (w : World R),
    exists w',
      verify_channels client channel_usernames w
      = (Returns (filter (fun u => resolves client u (remote w)) channel_usernames), w') /\
      remote w' = remote w.
Proof.
  intros Hpure us w. unfold verify_channels.
  destruct (verify_loop_pure Hpure us [] w) as (w' & H & Hrem). eauto.
Qed.
End VerifyFacts.

Lemma telegram_lookups_are_pure : lookups_are_pure Telegram.client.
Proof.
  intros u s. cbn. unfold Telegram.get_entity.
  destruct (Telegram.find_channel s u); reflexivity.
Qed.

Lemma verified_channels_witness :
  lookups_are_pure Telegram.client /\
  exists w',
    verify_channels Telegram.client
      ["news"%string; "ghost"%string; "gallery"%string; "news"%string] Telegram.first_run
    = (Returns ["news"%string; "gallery"%string; "news"%string], w').
Proof.
  split; [exact telegram_lookups_are_pure|].
  destruct (verified_channels_are_those_that_resolve Telegram.client
              telegram_lookups_are_pure
              ["news"%string; "ghost"%string; "gallery"%string; "news"%string]
              Telegram.first_run) as (w' & H & _).
  exists w'. exact H.
Defined.

(* ================================================================== *)
(** * The collection by time window *)
(* ================================================================== *)

Section WindowFacts.
Context {R : Type}.
Variable client : Client R.
Variable is_ValueError : exn -> bool.

Lemma make_window_message_data_renders : forall e info batch m (w : World R) nm w',
  make_window_message_data client e info batch m w = (Returns nm, w') ->
  window_renders e info m nm.
Proof.
  intros e info batch m w nm w' H. unfold make_window_message_data in H.
  apply bind_returns in H. destruct H as (path & w1 & _ & H).
  apply bind_returns in H. destruct H as (reply & w2 & _ & H).
  unfold ret in H. injection H as <- _. repeat split.
Qed.

Lemma process_window_cons : forall e info since batch m todo acc,
  process_window client e info since batch (m :: todo) acc
  = if timestamp (aware (msg_date m)) <? since then
      process_window client e info since batch todo acc
    else
      bind (make_window_message_data client e info batch m)
           (fun message_data =>
              process_window client e info since batch todo (acc ++ [message_data])).
Proof.
  intros. cbn [process_window]. rewrite datetime_lt_aware.
  destruct (_ <? _); reflexivity.
Qed.

Lemma within_window_cons : forall since m todo,
  filter (within_window since) (m :: todo)
  = if negb (timestamp (aware (msg_date m)) <? since)
    then m :: filter (within_window since) todo
    else filter (within_window since) todo.
Proof.
  intros. cbn [filter]. unfold within_window at 1. now rewrite Z.leb_antisym.
Qed.

Lemma process_window_spec : forall e info since batch todo acc (w : World R) res w',
  process_window client e info since batch todo acc w = (Returns res, w') ->
  exists new, res = acc ++ new /\
              Forall2 (window_renders e info) (filter (within_window since) todo) new.
Proof.
  intros e info since batch todo.
  induction todo as [|m todo IH]; intros acc w res w' H.
  - cbn [process_window] in H. unfold ret in H. injection H as <- _.
    exists []. rewrite app_nil_r. split; constructor.
  - rewrite process_window_cons in H. rewrite within_window_cons.
    destruct (timestamp (aware (msg_date m)) <? since); cbn [negb].
    + apply IH in H. exact H.
    + apply bind_returns in H. destruct H as (nm & w1 & Hnm & H).
      apply IH in H. destruct H as (new & -> & Hnew).
      exists (nm :: new). rewrite <- app_assoc. split; [reflexivity|].
      constructor; [|exact Hnew].
      exact (make_window_message_data_renders e info batch m w nm w1 Hnm).
Qed.

Lemma aware_valid : forall d, valid_datetime d = true -> valid_datetime (aware d) = true.
Proof.
  intros d H. unfold aware. destruct (tzinfo d) eqn:E; [exact H|].
  unfold valid_datetime in *. cbn. rewrite E in H. rewrite andb_true_r in H.
  now rewrite H.
Qed.

Lemma window_renders_dated : forall e info since ms cm,
  Forall (fun m => valid_datetime (msg_date m) = true) ms ->
  Forall2 (window_renders e info) (filter (within_window since) ms) cm ->
  Forall (dated_since since) cm.
Proof.
  intros e info since ms cm Hvalid H.
  remember (filter (within_window since) ms) as kept eqn:Hk.
  assert (Hin : forall m, In m kept ->
                          within_window since m = true
                          /\ valid_datetime (msg_date m) = true).
  { intros m Hm. subst kept. apply filter_In in Hm. destruct Hm as (Hm & Hw).
    rewrite Forall_forall in Hvalid. split; [exact Hw|now apply Hvalid]. }
  clear Hk. induction H as [|m nm kept cm Hr _ IH]; constructor.
  - exists (aware (msg_date m)). destruct Hr as (_ & _ & Hd & _).
    destruct (Hin m (or_introl eq_refl)) as (Hw & Hv).
    split; [exact Hd|]. split; [now apply aware_valid|].
    split; [apply aware_is_aware|]. now apply Z.leb_le.
  - apply IH. intros m' Hm'. apply Hin. now right.
Qed.

(** ** What one turn of the loop does *)

Lemma window_entity_returns : forall u (w : World R),
  exists resolved w', window_entity client is_ValueError u w = (Returns resolved, w').
Proof.
  intros u w. unfold window_entity. unfold_io.
  destruct (client_get_entity client u (remote w)) as [[entity|e] r]; cbn; eauto.
  destruct (is_ValueError e); cbn; eauto.
Qed.

Lemma window_channel_info_returns : forall entity u (w : World R),
  exists info w', window_channel_info client entity u w = (Returns info, w').
Proof.
  intros entity u w. unfold window_channel_info, try_except.
  destruct (get_channel_info client u w) as [[info|e] w1]; unfold_io; cbn; eauto.
Qed.

Lemma window_channel_returns : forall u lim since all (w : World R),
  exists all' w', window_channel client is_ValueError u lim since all w = (Returns all', w').
Proof.
  intros u lim since all w. unfold window_channel, try_except.
  match goal with
  | |- context [match ?c with _ => _ end] => destruct c as [[all'|e] w']
  end; unfold_io; cbn; eauto.
Qed.

Lemma window_loop_returns : forall us lim since all (w : World R),
  exists all' w', window_loop client is_ValueError us lim since all w = (Returns all', w').
Proof.
  induction us as [|u us IH]; intros lim since all w; cbn [window_loop].
  - unfold ret. eauto.
  - unfold bind.
    destruct (window_channel_returns u lim since all w) as (all1 & w1 & ->). apply IH.
Qed.

Lemma window_history_answer : forall entity info lim since all (w : World R) all' w',
  window_history client entity info lim since all w = (Returns all', w') ->
  exists messages cm r,
    client_call client (fallback_request entity lim) (remote w) = (Returns messages, r) /\
    all' = all ++ cm /\
    Forall2 (window_renders entity info) (filter (within_window since) messages) cm.
Proof.
  intros entity info lim since all w all' w' H. unfold window_history in H.
  apply bind_returns in H. destruct H as (? & w1 & Hlog & H).
  apply bind_returns in H. destruct H as (messages & w2 & Hcall & H).
  apply bind_returns in H. destruct H as (? & w3 & _ & H).
  apply bind_returns in H. destruct H as (cm & w4 & Hproc & H).
  apply bind_returns in H. destruct H as (? & w5 & _ & H).
  unfold ret in H. injection H as <- _.
  apply process_window_spec in Hproc. destruct Hproc as (new & Hnew & Hren).
  cbn in Hnew. subst new.
  apply call_returns in Hcall. destruct Hcall as (r & Hcall & _).
  apply logger_returns in Hlog. rewrite Hlog in Hcall. eauto 6.
Qed.

Lemma window_history_inv : forall entity info lim since all (w : World R) all' w',
  window_history client entity info lim since all w = (Returns all', w') ->
  exists messages cm,
    all' = all ++ cm /\
    Forall2 (window_renders entity info) (filter (within_window since) messages) cm.
Proof.
  intros entity info lim since all w all' w' H. unfold window_history in H.
  apply bind_returns in H. destruct H as (? & w1 & _ & H).
  apply bind_returns in H. destruct H as (messages & w2 & _ & H).
  apply bind_returns in H. destruct H as (? & w3 & _ & H).
  apply bind_returns in H. destruct H as (cm & w4 & Hproc & H).
  apply bind_returns in H. destruct H as (? & w5 & _ & H).
  unfold ret in H. injection H as <- _.
  apply process_window_spec in Hproc. destruct Hproc as (new & Hnew & Hren).
  cbn in Hnew. subst new. eauto.
Qed.

Lemma window_collect_inv : forall entity u lim since all (w : World R) all' w',
  window_collect client entity u lim since all w = (Returns all', w') ->
  exists info messages cm,
    all' = all ++ cm /\
    Forall2 (window_renders entity info) (filter (within_window since) messages) cm.
Proof.
  intros entity u lim since all w all' w' H. unfold window_collect in H.
  apply bind_returns in H. destruct H as (? & w1 & _ & H).
  apply bind_returns in H. destruct H as (info & w2 & _ & H).
  apply window_history_inv in H. destruct H as (messages & cm & H).
  exists info, messages, cm. exact H.
Qed.

Lemma window_channel_inv : forall u lim since all (w : World R) all' w',
  window_channel client is_ValueError u lim since all w = (Returns all', w') ->
  all' = all \/
  exists entity info messages cm,
    all' = all ++ cm /\
    Forall2 (window_renders entity info) (filter (within_window since) messages) cm.
Proof.
  intros u lim since all w all' w' H. unfold window_channel, try_except in H.
  match type of H with
  | match ?c with _ => _ end = _ => destruct c as [[all1|e] w1] eqn:Hbody
  end.
  - injection H as <- _.
    apply bind_returns in Hbody. destruct Hbody as (? & w2 & _ & Hbody).
    apply bind_returns in Hbody. destruct Hbody as (resolved & w3 & _ & Hbody).
    destruct resolved as [entity|].
    + right. apply window_collect_inv in Hbody.
      destruct Hbody as (info & messages & cm & Hcm). exists entity, info, messages, cm.
      exact Hcm.
    + left. unfold ret in Hbody. now injection Hbody as <- _.
  - left. unfold_io. cbn in H. now injection H as <- _.
Qed.

(** ** The bound of the window *)

Lemma since_date_for_cases : forall sh (w : World R),
  since_date_for client sh w
  = (let now := fst (datetime_now_utc client (remote w)) in
     let since := now - sh * 3600 * 1000000 in
     if (0 <=? since) && (since <? max_timestamp)
     then Returns since else Raises (Exception "OverflowError"),
     mk_world (snd (datetime_now_utc client (remote w))) (fs w) (log w)).
Proof.
  intros sh w. unfold since_date_for. unfold bind, call.
  destruct (datetime_now_utc client (remote w)) as [now r]. cbn.
  destruct (_ && _); reflexivity.
Qed.
End WindowFacts.

Section WindowRun.
Context {R : Type}.
Variable client : Client R.
Variable is_ValueError : exn -> bool.

Ltac keeps HP :=
  repeat first
    [ apply preserves_ret
    | apply preserves_raise
    | apply (stable_logger _ _ HP)
    | apply (stable_get_entity _ _ HP)
    | apply (stable_call _ _ HP)
    | apply (get_channel_info_stable _ _ HP)
    | apply (download_media_stable _ _ HP)
    | apply (resolve_reply_stable _ _ HP)
    | apply (since_date_for_stable _ _ HP)
    | apply preserves_bind; [|intros]
    | apply preserves_try_except; [|intros] ].

Section Kept.
Variable P : World R -> Prop.
Hypothesis HP : stable client P.

Lemma verify_loop_stable : forall us acc, preserves P (verify_loop client us acc).
Proof.
  induction us as [|u us IH]; intros acc; cbn [verify_loop]; [keeps HP|].
  apply preserves_bind; [keeps HP|intros; apply IH].
Qed.

Lemma make_window_message_data_stable : forall e info batch m,
  preserves P (make_window_message_data client e info batch m).
Proof.
  intros e info batch m. unfold make_window_message_data.
  apply preserves_bind; [keeps HP|intros].
  apply preserves_bind; [|intros; keeps HP].
  destruct (msg_reply_to m); keeps HP.
Qed.

Lemma process_window_stable : forall e info since batch todo acc,
  preserves P (process_window client e info since batch todo acc).
Proof.
  intros e info since batch todo.
  induction todo as [|m todo IH]; intros acc; [cbn [process_window]; keeps HP|].
  rewrite process_window_cons. destruct (_ <? _); [apply IH|].
  apply preserves_bind; [apply make_window_message_data_stable|intros; apply IH].
Qed.

Lemma window_channel_stable : forall u lim since all,
  preserves P (window_channel client is_ValueError u lim since all).
Proof.
  intros u lim since all. unfold window_channel.
  apply preserves_try_except; [|intros; keeps HP].
  apply preserves_bind; [keeps HP|intros].
  apply preserves_bind.
  - unfold window_entity. apply preserves_try_except; [keeps HP|intros e].
    destruct (is_ValueError e); keeps HP.
  - intros [entity|]; [|keeps HP].
    unfold window_collect, window_channel_info, window_history.
    apply preserves_bind; [keeps HP|intros].
    apply preserves_bind; [keeps HP|intros].
    apply preserves_bind; [keeps HP|intros].
    apply preserves_bind; [keeps HP|intros].
    apply preserves_bind; [keeps HP|intros].
    apply preserves_bind; [apply process_window_stable|intros]. keeps HP.
Qed.

Lemma window_loop_stable : forall us lim since all,
  preserves P (window_loop client is_ValueError us lim since all).
Proof.
  induction us as [|u us IH]; intros lim since all; cbn [window_loop]; [keeps HP|].
  apply preserves_bind; [apply window_channel_stable|intros; apply IH].
Qed.

Lemma get_new_messages_stable : forall us lim sh,
  preserves P (get_new_messages client is_ValueError us lim sh).
Proof.
  intros us lim sh. unfold get_new_messages.
  apply preserves_bind; [keeps HP|intros].
  apply preserves_bind; [apply window_loop_stable|intros]. keeps HP.
Qed.
(** One turn of the loop either leaves the list as it is or adds the
    records of the messages of one answer of the client. *)
Lemma window_channel_answer : forall u lim since all (w : World R) all' w',
  P w ->
  window_channel client is_ValueError u lim since all w = (Returns all', w') ->
  all' = all \/
  exists entity info messages cm w0 r,
    P w0 /\
    client_call client (fallback_request entity lim) (remote w0) = (Returns messages, r) /\
    all' = all ++ cm /\
    Forall2 (window_renders entity info) (filter (within_window since) messages) cm.
Proof.
  intros u lim since all w all' w' Hw H. unfold window_channel, try_except in H.
  match type of H with
  | match ?c with _ => _ end = _ => destruct c as [[all1|e] w1] eqn:Hbody
  end.
  - injection H as <- _.
    apply bind_returns in Hbody. destruct Hbody as (? & w2 & H2 & Hbody).
    assert (Hw2 : P w2).
    { assert (Hk : preserves P (logger (R := R) INFO "Attempting to access channel"))
        by keeps HP.
      specialize (Hk w Hw). now rewrite H2 in Hk. }
    apply bind_returns in Hbody. destruct Hbody as (resolved & w3 & H3 & Hbody).
    assert (Hw3 : P w3).
    { assert (Hk : preserves P (window_entity client is_ValueError u)).
      { unfold window_entity. apply preserves_try_except; [keeps HP|intros e].
        destruct (is_ValueError e); keeps HP. }
      specialize (Hk w2 Hw2). now rewrite H3 in Hk. }
    destruct resolved as [entity|].
    + right. unfold window_collect in Hbody.
      apply bind_returns in Hbody. destruct Hbody as (? & w4 & H4 & Hbody).
      assert (Hw4 : P w4).
      { assert (Hk : preserves P (logger (R := R) INFO "Successfully resolved entity"))
          by keeps HP.
        specialize (Hk w3 Hw3). now rewrite H4 in Hk. }
      apply bind_returns in Hbody. destruct Hbody as (info & w5 & H5 & Hbody).
      assert (Hw5 : P w5).
      { assert (Hk : preserves P (window_channel_info client entity u))
          by (unfold window_channel_info; keeps HP).
        specialize (Hk w4 Hw4). now rewrite H5 in Hk. }
      apply window_history_answer in Hbody.
      destruct Hbody as (messages & cm & r & Hcall & Hall & Hren).
      exists entity, info, messages, cm, w5, r. auto.
    + left. unfold ret in Hbody. now injection Hbody as <- _.
  - left. unfold_io. cbn in H. now injection H as <- _.
Qed.

Lemma window_loop_invariant : forall (I : list NormalizedMessage -> Prop) lim since,
  (forall all entity info messages cm w0 r,
      I all -> P w0 ->
      client_call client (fallback_request entity lim) (remote w0) = (Returns messages, r) ->
      Forall2 (window_renders entity info) (filter (within_window since) messages) cm ->
      I (all ++ cm)) ->
  forall us all (w : World R) all' w',
    P w -> I all ->
    window_loop client is_ValueError us lim since all w = (Returns all', w') ->
    I all'.
Proof.
  intros I lim since Hstep.
  induction us as [|u us IH]; intros all w all' w' Hw Hall H; cbn [window_loop] in H.
  - unfold ret in H. now injection H as <- _.
  - apply bind_returns in H. destruct H as (all1 & w1 & H1 & H).
    assert (Hw1 : P w1).
    { pose proof (window_channel_stable u lim since all w Hw) as Hk.
      now rewrite H1 in Hk. }
    apply (window_channel_answer _ _ _ _ _ _ _ Hw) in H1.
    destruct H1 as [->|(entity & info & messages & cm & w0 & r & Hw0 & Hcall & -> & Hren)].
    + exact (IH all w1 all' w' Hw1 Hall H).
    + refine (IH (all ++ cm) w1 all' w' Hw1 _ H).
      exact (Hstep all entity info messages cm w0 r Hall Hw0 Hcall Hren).
Qed.
End Kept.

Lemma get_new_messages_cases : forall us lim sh (w : World R),
  (representable (window_bound client sh w) ->
   exists all w1 w',
     window_loop client is_ValueError us lim (window_bound client sh w) []
       (mk_world (snd (datetime_now_utc client (remote w))) (fs w) (log w))
     = (Returns all, w1) /\
     get_new_messages client is_ValueError us lim sh w = (Returns (sort_by_date all), w')) /\
  (~ representable (window_bound client sh w) ->
   get_new_messages client is_ValueError us lim sh w
   = (Raises (Exception "OverflowError"),
      mk_world (snd (datetime_now_utc client (remote w))) (fs w) (log w))).
Proof.
  intros us lim sh w.
  assert (E : get_new_messages client is_ValueError us lim sh w
              = if (0 <=? window_bound client sh w)
                   && (window_bound client sh w <? max_timestamp)
                then (all_messages <- window_loop client is_ValueError us lim
                                        (window_bound client sh w) [] ;;
                      logger INFO "Total messages collected from all channels" ;;
                      ret (sort_by_date all_messages))
                       (mk_world (snd (datetime_now_utc client (remote w))) (fs w) (log w))
                else (Raises (Exception "OverflowError"),
                      mk_world (snd (datetime_now_utc client (remote w))) (fs w) (log w))).
  { unfold get_new_messages. unfold bind at 1. rewrite since_date_for_cases. cbv zeta.
    fold (window_bound client sh w). now destruct (_ && _). }
  rewrite E. unfold representable.
  destruct (Z.leb_spec 0 (window_bound client sh w));
    destruct (Z.ltb_spec (window_bound client sh w) max_timestamp);
    cbn [andb]; split; intros Hr; try lia; try reflexivity.
  destruct (window_loop_returns client is_ValueError us lim (window_bound client sh w) []
              (mk_world (snd (datetime_now_utc client (remote w))) (fs w) (log w)))
    as (all & w1 & Hloop).
  exists all, w1. eexists. split; [exact Hloop|].
  unfold bind. rewrite Hloop. unfold logger, ret. reflexivity.
Qed.

(** [get_new_messages] raises in one case only: when the bound of its
    window, the clock less [since_hours], is no date a [datetime] can hold.
    Then it raises [OverflowError] before any channel is looked up and
    before anything is logged.  In every other case it returns, whatever
    the client does. *)
Theorem window_run_fails_only_on_its_bound : forall channel_usernames lim since_hours (w : World R),
  (representable (window_bound client since_hours w) ->
   exists corpus w',
     get_new_messages client is_ValueError channel_usernames lim since_hours w
     = (Returns corpus, w')) /\
  (~ representable (window_bound client since_hours w) ->
   exists w',
     get_new_messages client is_ValueError channel_usernames lim since_hours w
     = (Raises (Exception "OverflowError"), w') /\
     log w' = log w /\
     remote w' = snd (datetime_now_utc client (remote w))).
Proof.
  intros us lim sh w. destruct (get_new_messages_cases us lim sh w) as (Hok & Hbad).
  split.
  - intros Hr. destruct (Hok Hr) as (all & w1 & w' & _ & H). eauto.
  - intros Hr. rewrite (Hbad Hr). eexists. split; [reflexivity|]. split; reflexivity.
Qed.

Lemma get_new_messages_returns : forall us lim sh (w : World R) corpus w',
  get_new_messages client is_ValueError us lim sh w = (Returns corpus, w') ->
  exists all w0 w1,
    window_loop client is_ValueError us lim (window_bound client sh w) [] w0
    = (Returns all, w1) /\
    corpus = sort_by_date all.
Proof.
  intros us lim sh w corpus w' H.
  destruct (get_new_messages_cases us lim sh w) as (Hok & Hbad).
  assert (Hr : representable (window_bound client sh w)).
  { unfold representable.
    destruct (Z_le_dec 0 (window_bound client sh w));
      destruct (Z_lt_dec (window_bound client sh w) max_timestamp); try (split; assumption);
      rewrite Hbad in H by (unfold representable; lia); discriminate. }
  destruct (Hok Hr) as (all & w1 & w2 & Hloop & Hrun).
  rewrite Hrun in H. injection H as <- _. eauto.
Qed.

Lemma get_new_messages_loop : forall us lim sh (w : World R) corpus w',
  get_new_messages client is_ValueError us lim sh w = (Returns corpus, w') ->
  exists all w1,
    window_loop client is_ValueError us lim (window_bound client sh w) []
      (mk_world (snd (datetime_now_utc client (remote w))) (fs w) (log w))
    = (Returns all, w1) /\
    corpus = sort_by_date all.
Proof.
  intros us lim sh w corpus w' H.
  destruct (get_new_messages_cases us lim sh w) as (Hok & Hbad).
  assert (Hr : representable (window_bound client sh w)).
  { unfold representable.
    destruct (Z_le_dec 0 (window_bound client sh w));
      destruct (Z_lt_dec (window_bound client sh w) max_timestamp); try (split; assumption);
      rewrite Hbad in H by (unfold representable; lia); discriminate. }
  destruct (Hok Hr) as (all & w1 & w2 & Hloop & Hrun).
  rewrite Hrun in H. injection H as <- _. eauto.
Qed.

(** Every record of the corpus of [get_new_messages] lies in the window.
    The dates the client delivers being valid datetimes, as every
    [datetime] is, the date of each record is the text of a valid aware
    datetime that is not before the clock less [since_hours].  The filter
    is applied to every channel. *)
Theorem window_bounds_every_record :
  forall good channel_usernames lim since_hours (w : World R) corpus w',
    delivers_dates client good (fun d => valid_datetime d = true) ->
    good (remote w) ->
    get_new_messages client is_ValueError channel_usernames lim since_hours w
    = (Returns corpus, w') ->
    Forall (dated_since (window_bound client since_hours w)) corpus.
Proof.
  intros good us lim sh w corpus w' Hd Hgood H.
  apply get_new_messages_loop in H. destruct H as (all & w1 & Hloop & ->).
  pose proof (dates_good_stable client _ _ Hd) as HP.
  assert (Hgood0 : good (snd (datetime_now_utc client (remote w)))).
  { pose proof (stable_now client _ HP w Hgood) as Hk.
    unfold read_clock, call in Hk.
    destruct (datetime_now_utc client (remote w)) as [t r]. exact Hk. }
  assert (Hall : Forall (dated_since (window_bound client sh w)) all).
  { refine (window_loop_invariant (fun w => good (remote w)) HP
              (Forall (dated_since (window_bound client sh w))) lim _ _
              us []
              (mk_world (snd (datetime_now_utc client (remote w))) (fs w) (log w))
              all w1 Hgood0 (Forall_nil _) Hloop).
    intros a entity info messages cm w0 r Ha Hw0 Hcall Hren. apply Forall_app.
    split; [exact Ha|].
    eapply window_renders_dated; [|exact Hren].
    exact (dates_of_answers client _ _ Hd _ _ _ _ Hw0 Hcall). }
  rewrite Forall_forall in *. intros nm Hnm. apply Hall.
  eapply Permutation_in; [apply sort_by_date_perm|exact Hnm].
Qed.

(** The corpus of [get_new_messages] is sorted by the texts of the dates,
    which is the order of the instants among records whose datetimes carry
    one UTC offset. *)
Theorem window_corpus_sorted_by_date_text :
  forall channel_usernames lim since_hours (w : World R) corpus w',
    get_new_messages client is_ValueError channel_usernames lim since_hours w
    = (Returns corpus, w') ->
    StronglySorted date_le corpus /\
    chronological (fun d1 d2 => utcoffset d1 = utcoffset d2) corpus.
Proof.
  intros us lim sh w corpus w' H.
  apply get_new_messages_returns in H. destruct H as (all & w0 & w1 & _ & ->).
  pose proof (sort_by_date_strongly_sorted all) as Hs.
  split; [exact Hs|].
  intros i j r1 r2 d1 d2 Hij Hi Hj V1 V2 E1 E2 Hoff.
  apply isoformat_order; auto.
  rewrite <- E1, <- E2.
  exact (strongly_sorted_nth _ _ _ _ _ _ _ Hs Hij Hi Hj).
Qed.

(** [get_new_messages] leaves the files alone: whether it returns or
    raises, the tracking file is as it was. *)
Theorem window_run_leaves_the_files_alone :
  forall channel_usernames lim since_hours (w : World R),
    fs (snd (get_new_messages client is_ValueError channel_usernames lim since_hours w))
    = fs w.
Proof.
  intros us lim sh w.
  exact (get_new_messages_stable _ (fs_stable client (fs w)) us lim sh w eq_refl).
Qed.
End WindowRun.

Section RemoteOnly.
Context {R : Type}.
Variable client : Client R.
Variable is_ValueError : exn -> bool.

Lemma remote_only_ret : forall A (a : A), remote_only (R := R) (ret a).
Proof. intros A a w1 w2 H. auto. Qed.

Lemma remote_only_raise : forall A e, remote_only (R := R) (raise (A := A) e).
Proof. intros A e w1 w2 H. auto. Qed.

Lemma remote_only_logger : forall lvl text, remote_only (R := R) (logger lvl text).
Proof. intros lvl text w1 w2 H. auto. Qed.

Lemma remote_only_call : forall A (f : R -> outcome A * R), remote_only (call f).
Proof.
  intros A f w1 w2 H. unfold call. rewrite H. destruct (f (remote w2)). auto.
Qed.

Lemma remote_only_bind : forall A B (c : IO (R := R) A) (k : A -> IO B),
  remote_only c -> (forall a, remote_only (k a)) -> remote_only (bind c k).
Proof.
  intros A B c k Hc Hk w1 w2 H. unfold bind.
  destruct (Hc w1 w2 H) as (Hfst & Hsnd).
  destruct (c w1) as [[a1|e1] w1']; destruct (c w2) as [[a2|e2] w2']; cbn in *;
    try discriminate.
  - injection Hfst as ->. now apply Hk.
  - injection Hfst as ->. auto.
Qed.

Lemma remote_only_try_except : forall A (c : IO (R := R) A) (h : exn -> IO A),
  remote_only c -> (forall e, remote_only (h e)) -> remote_only (try_except c h).
Proof.
  intros A c h Hc Hh w1 w2 H. unfold try_except.
  destruct (Hc w1 w2 H) as (Hfst & Hsnd).
  destruct (c w1) as [[a1|e1] w1']; destruct (c w2) as [[a2|e2] w2']; cbn in *;
    try discriminate.
  - auto.
  - injection Hfst as ->. now apply Hh.
Qed.

Ltac remote_only :=
  repeat first
    [ apply remote_only_ret
    | apply remote_only_raise
    | apply remote_only_logger
    | apply remote_only_call
    | apply remote_only_bind; [|intros]
    | apply remote_only_try_except; [|intros] ].

Lemma get_channel_info_remote_only : forall u, remote_only (get_channel_info client u).
Proof.
  intros u. unfold get_channel_info.
  apply remote_only_bind; [remote_only|intros entity].
  apply remote_only_bind; [|intros; remote_only].
  destruct (client_get_participants_count client); remote_only.
Qed.

Lemma make_window_message_data_remote_only : forall e info batch m,
  remote_only (make_window_message_data client e info batch m).
Proof.
  intros e info batch m. unfold make_window_message_data.
  apply remote_only_bind.
  - unfold download_media. destruct (msg_media m); remote_only.
  - intros path. apply remote_only_bind; [|intros; remote_only].
    destruct (msg_reply_to m) as [id|]; [|remote_only].
    unfold resolve_reply. apply remote_only_try_except; [|intros; remote_only].
    apply remote_only_bind; [|intros; remote_only].
    destruct (find _ batch); remote_only.
Qed.

Lemma process_window_remote_only : forall e info since batch todo acc,
  remote_only (process_window client e info since batch todo acc).
Proof.
  intros e info since batch todo.
  induction todo as [|m todo IH]; intros acc; [cbn [process_window]; remote_only|].
  rewrite process_window_cons. destruct (_ <? _); [apply IH|].
  apply remote_only_bind; [apply make_window_message_data_remote_only|intros; apply IH].
Qed.

Lemma window_channel_remote_only : forall u lim since all,
  remote_only (window_channel client is_ValueError u lim since all).
Proof.
  intros u lim since all. unfold window_channel.
  apply remote_only_try_except; [|intros; remote_only].
  apply remote_only_bind; [remote_only|intros].
  apply remote_only_bind.
  - unfold window_entity. apply remote_only_try_except; [remote_only|intros e].
    destruct (is_ValueError e); remote_only.
  - intros [entity|]; [|remote_only].
    unfold window_collect, window_channel_info, window_history.
    apply remote_only_bind; [remote_only|intros].
    apply remote_only_bind.
    { apply remote_only_try_except; [apply get_channel_info_remote_only|intros; remote_only]. }
    intros info.
    apply remote_only_bind; [remote_only|intros].
    apply remote_only_bind; [remote_only|intros].
    apply remote_only_bind; [remote_only|intros].
    apply remote_only_bind; [apply process_window_remote_only|intros]. remote_only.
Qed.

Lemma window_loop_remote_only : forall us lim since all,
  remote_only (window_loop client is_ValueError us lim since all).
Proof.
  induction us as [|u us IH]; intros lim since all; cbn [window_loop]; [remote_only|].
  apply remote_only_bind; [apply window_channel_remote_only|intros; apply IH].
Qed.

Lemma get_new_messages_remote_only : forall us lim sh,
  remote_only (get_new_messages client is_ValueError us lim sh).
Proof.
  intros us lim sh. unfold get_new_messages.
  apply remote_only_bind.
  - unfold since_date_for. apply remote_only_bind; [remote_only|intros now].
    destruct (_ && _); remote_only.
  - intros since. apply remote_only_bind; [apply window_loop_remote_only|intros].
    remote_only.
Qed.

(** [get_new_messages] never looks at the watermarks: what it returns or
    raises is the same whatever the tracking file holds and whatever has
    been logged. *)
Theorem window_run_ignores_the_watermarks :
  forall channel_usernames lim since_hours (w : World R) files lines,
    fst (get_new_messages client is_ValueError channel_usernames lim since_hours
           (mk_world (remote w) files lines))
    = fst (get_new_messages client is_ValueError channel_usernames lim since_hours w).
Proof.
  intros us lim sh w files lines.
  now apply get_new_messages_remote_only.
Qed.

Lemma silent_quiet : silent client -> quiet (with_still_clock client).
Proof.
  intros (Hentity & Hcount & Hcall & Hmedia & Hmessages) r0.
  assert (Hkeep : forall A (f : R -> outcome A * R),
             (forall r, snd (f r) = r) ->
             preserves (fun w : World R => remote w = r0) (call f)).
  { intros A f Hf w Hw. unfold call. specialize (Hf (remote w)).
    destruct (f (remote w)) as [o r]. cbn in *. congruence. }
  constructor; intros.
  - intros w Hw. exact Hw.
  - apply Hkeep. intros r. apply Hentity.
  - apply Hkeep. intros r. cbn in H. now apply Hcount.
  - apply Hkeep. intros r. apply Hcall.
  - apply Hkeep. intros r. apply Hmedia.
  - apply Hkeep. intros r. apply Hmessages.
  - unfold read_clock. apply Hkeep. intros r. cbn.
    now destruct (datetime_now_utc client r).
Qed.

(** The loop over the channels does not read the clock. *)
Lemma window_loop_still_clock : forall us lim since all,
  window_loop (with_still_clock client) is_ValueError us lim since all
  = window_loop client is_ValueError us lim since all.
Proof. reflexivity. Qed.

Lemma get_new_messages_unfold : forall us lim sh (w : World R),
  get_new_messages client is_ValueError us lim sh w
  = if (0 <=? window_bound client sh w) && (window_bound client sh w <? max_timestamp)
    then (all_messages <- window_loop client is_ValueError us lim
                            (window_bound client sh w) [] ;;
          logger INFO "Total messages collected from all channels" ;;
          ret (sort_by_date all_messages))
           (mk_world (snd (datetime_now_utc client (remote w))) (fs w) (log w))
    else (Raises (Exception "OverflowError"),
          mk_world (snd (datetime_now_utc client (remote w))) (fs w) (log w)).
Proof.
  intros us lim sh w.
  unfold get_new_messages. unfold bind at 1. rewrite since_date_for_cases. cbv zeta.
  fold (window_bound client sh w). now destruct (_ && _).
Qed.

(** Nothing records what [get_new_messages] has collected.  When no call
    other than the reading of the clock changes the remote side, a run
    leaves the remote side as its one reading of the clock left it; so a
    second run right after the first returns, or raises, what a run does
    that starts on that remote side with any tracking file and any log,
    whatever the first run collected. *)
Theorem window_run_delivers_again :
  silent client ->
  forall channel_usernames lim since_hours (w : World R),
    remote (snd (get_new_messages client is_ValueError channel_usernames lim since_hours w))
    = snd (datetime_now_utc client (remote w)) /\
    forall files lines,
      fst (get_new_messages client is_ValueError channel_usernames lim since_hours
             (snd (get_new_messages client is_ValueError channel_usernames lim
                     since_hours w)))
      = fst (get_new_messages client is_ValueError channel_usernames lim since_hours
               (mk_world (snd (datetime_now_utc client (remote w))) files lines)).
Proof.
  intros Hs us lim sh w.
  assert (Hrem : remote (snd (get_new_messages client is_ValueError us lim sh w))
                 = snd (datetime_now_utc client (remote w))).
  { rewrite get_new_messages_unfold.
    destruct (_ && _); [|reflexivity].
    pose proof (window_loop_stable (with_still_clock client) is_ValueError
                  (fun w0 => remote w0 = snd (datetime_now_utc client (remote w)))
                  (silent_quiet Hs _) us lim (window_bound client sh w) []
                  (mk_world (snd (datetime_now_utc client (remote w))) (fs w) (log w))
                  eq_refl) as Hloop.
    rewrite window_loop_still_clock in Hloop.
    unfold bind.
    destruct (window_loop client is_ValueError us lim (window_bound client sh w) [] _)
      as [[all|e] w1]; cbn in *; exact Hloop. }
  split; [exact Hrem|].
  intros files lines.
  now apply get_new_messages_remote_only.
Qed.

(** A channel whose description cannot be read is collected all the same:
    when [get_channel_info] raises the pass goes on with the handle for a
    title, and every record it makes carries that title and neither a
    username nor a description. *)
Theorem info_failure_keeps_the_channel :
  forall entity username lim since_date all_messages (w : World R) e w1,
    get_channel_info client username (snd (logger INFO "Successfully resolved entity" w))
    = (Raises e, w1) ->
    window_collect client entity username lim since_date all_messages w
    = window_history client entity (default_channel_info entity username) lim since_date
        all_messages (snd (logger ERROR "Failed to get channel info" w1)) /\
    forall all_messages' w',
      window_collect client entity username lim since_date all_messages w
      = (Returns all_messages', w') ->
      exists messages channel_messages,
        all_messages' = all_messages ++ channel_messages /\
        Forall2 (window_renders entity (default_channel_info entity username))
                (filter (within_window since_date) messages) channel_messages /\
        Forall (titled_by_handle username) channel_messages.
Proof.
  intros entity u lim since all w e w1 Hinfo.
  assert (E : window_collect client entity u lim since all w
              = window_history client entity (default_channel_info entity u) lim since all
                  (snd (logger ERROR "Failed to get channel info" w1))).
  { unfold window_collect. unfold bind at 1. cbn [logger snd] in *.
    unfold bind at 1. unfold window_channel_info, try_except. rewrite Hinfo.
    reflexivity. }
  split; [exact E|].
  intros all' w' H. rewrite E in H.
  apply window_history_inv in H. destruct H as (messages & cm & -> & Hren).
  exists messages, cm. split; [reflexivity|]. split; [exact Hren|].
  clear - Hren. induction Hren as [|m nm ms cm Hr _ IH]; constructor; [|exact IH].
  destruct Hr as (_ & _ & _ & _ & Ht & Hu & Hd). repeat split; assumption.
Qed.
End RemoteOnly.


Lemma sample_server_valid :
  Telegram.dated_by (fun d => valid_datetime d = true) Telegram.server.
Proof. repeat constructor. Qed.

(** The window at work: at one o'clock, with 24 hours, both channels are
    collected from the start although the tracking file holds their
    watermarks, and the message of 2024-02-20 is left out. *)
Lemma window_bounds_witness :
  delivers_dates Telegram.client
    (Telegram.dated_by (fun d => valid_datetime d = true))
    (fun d => valid_datetime d = true) /\
  Telegram.dated_by (fun d => valid_datetime d = true) (remote Telegram.later_run) /\
  exists corpus w',
    get_new_messages Telegram.client is_value_error both 100 24 Telegram.later_run
    = (Returns corpus, w') /\
    map nm_id corpus = [11; 12; 13; 22; 23] /\
    Forall (dated_since (window_bound Telegram.client 24 Telegram.later_run)) corpus.
Proof.
  split; [apply telegram_delivers_dates|]. split; [exact sample_server_valid|].
  eexists _, _.
  match goal with
  | |- ?A /\ _ => assert (H : A) by (vm_compute; reflexivity)
  end.
  split; [exact H|]. split; [reflexivity|].
  exact (window_bounds_every_record Telegram.client is_value_error
           (Telegram.dated_by (fun d => valid_datetime d = true)) both 100 24
           Telegram.later_run _ _
           (telegram_delivers_dates (fun d => valid_datetime d = true))
           sample_server_valid H).
Defined.

Lemma window_order_witness :
  exists corpus w',
    get_new_messages Telegram.client is_value_error
      ["gallery"%string; "news"%string] 100 24 Telegram.first_run
    = (Returns corpus, w') /\
    map nm_id corpus = [11; 12; 13; 22; 23] /\
    StronglySorted date_le corpus.
Proof.
  eexists _, _. split; [vm_compute; reflexivity|]. split; [reflexivity|].
  eapply (window_corpus_sorted_by_date_text Telegram.client is_value_error
            ["gallery"%string; "news"%string] 100 24 Telegram.first_run).
  vm_compute; reflexivity.
Defined.

Lemma ticking_client_silent : silent ticking_client.
Proof.
  repeat split; intros; cbn.
  - unfold Telegram.get_entity. destruct (Telegram.find_channel r u); reflexivity.
  - discriminate.
  - unfold Telegram.invoke. destruct (Telegram.find_peer r (peer req)); [|reflexivity].
    destruct (Telegram.mem _ _); reflexivity.
  - unfold Telegram.download. destruct (Telegram.mem _ _); reflexivity.
  - unfold Telegram.get_messages. destruct (Telegram.find_peer r e); reflexivity.
Qed.

(** With a clock that goes: the first run leaves the server a second
    later, and the second run, a second later, delivers the five records
    once more. *)
Lemma delivers_again_witness :
  silent ticking_client /\
  remote (snd (get_new_messages ticking_client is_value_error both 100 24
                 Telegram.first_run))
  = snd (datetime_now_utc ticking_client (remote Telegram.first_run)) /\
  exists corpus w' again w'',
    get_new_messages ticking_client is_value_error both 100 24 Telegram.first_run
    = (Returns corpus, w') /\
    map nm_id corpus = [11; 12; 13; 22; 23] /\
    Telegram.clock (remote w') = Telegram.one_pm + 1000000 /\
    get_new_messages ticking_client is_value_error both 100 24 w'
    = (Returns again, w'') /\
    map nm_id again = [11; 12; 13; 22; 23] /\
    Telegram.clock (remote w'') = Telegram.one_pm + 2000000.
Proof.
  split; [exact ticking_client_silent|].
  destruct (window_run_delivers_again ticking_client is_value_error ticking_client_silent
              both 100 24 Telegram.first_run) as (Hrem & _).
  split; [exact Hrem|].
  eexists _, _, _, _.
  split; [vm_compute; reflexivity|]. split; [reflexivity|]. split; [reflexivity|].
  split; [vm_compute; reflexivity|]. split; reflexivity.
Defined.

Lemma info_failure_witness :
  exists e w1 all_messages' w',
    get_channel_info client_without_counts "news"
      (snd (logger INFO "Successfully resolved entity" Telegram.first_run))
    = (Raises e, w1) /\
    window_collect client_without_counts (Telegram.entity Telegram.news) "news" 100
      (window_bound client_without_counts 24 Telegram.first_run) [] Telegram.first_run
    = (Returns all_messages', w') /\
    map nm_id all_messages' = [13; 12; 11] /\
    Forall (titled_by_handle "news") all_messages'.
Proof.
  eexists _, _, _, _.
  match goal with
  | |- ?A /\ ?B /\ _ =>
      assert (H1 : A) by (vm_compute; reflexivity);
      assert (H2 : B) by (vm_compute; reflexivity)
  end.
  split; [exact H1|]. split; [exact H2|]. split; [reflexivity|].
  destruct (info_failure_keeps_the_channel client_without_counts
              (Telegram.entity Telegram.news) "news"%string 100
              (window_bound client_without_counts 24 Telegram.first_run) []
              Telegram.first_run _ _ H1) as (_ & Hrec).
  destruct (Hrec _ _ H2) as (messages & cm & Heq & _ & Ht).
  cbn [app] in Heq. rewrite Heq. exact Ht.
Defined.

(* ================================================================== *)
(** * The sources of an analysis *)
(* ================================================================== *)

Lemma stats_contains_in : forall k d, stats_contains k d = true <-> In k (map fst d).
Proof.
  intros k d. induction d as [|[k' s] d IH]; cbn; [split; [discriminate|tauto]|].
  rewrite orb_true_iff, IH, Z.eqb_eq. tauto.
Qed.

Lemma stats_lookup_none : forall k d, stats_contains k d = false -> stats_lookup k d = None.
Proof.
  intros k d. induction d as [|[k' s] d IH]; cbn; [reflexivity|].
  destruct (k' =? k); cbn; [discriminate|exact IH].
Qed.

Lemma stats_lookup_app : forall k d d',
  stats_lookup k (d ++ d')
  = match stats_lookup k d with Some s => Some s | None => stats_lookup k d' end.
Proof.
  intros k d d'. induction d as [|[k' s] d IH]; cbn; [reflexivity|].
  destruct (k' =? k); [reflexivity|exact IH].
Qed.

Lemma stats_increment_spec : forall k d,
  stats_contains k d = true ->
  exists d' s,
    stats_increment k d = Returns d' /\
    stats_lookup k d = Some s /\
    map fst d' = map fst d /\
    stats_lookup k d'
    = Some (mk_stats (stats_channel_id s) (stats_channel_name s) (stats_message_count s + 1)) /\
    (forall k', k' <> k -> stats_lookup k' d' = stats_lookup k' d) /\
    total_count (map snd d') = total_count (map snd d) + 1.
Proof.
  intros k d. induction d as [|[k' s] d IH]; cbn; [discriminate|].
  destruct (Z.eqb_spec k' k) as [->|Hne]; cbn.
  - intros _. eexists _, s. split; [reflexivity|]. split; [reflexivity|].
    cbn. rewrite Z.eqb_refl. repeat split.
    + intros k' Hk'. destruct (Z.eqb_spec k k'); [congruence|reflexivity].
    + unfold total_count. cbn. lia.
  - intros Hc. destruct (IH Hc) as (d' & s' & -> & Hl & Hk & Hl' & Ho & Ht).
    exists ((k', s) :: d'), s'. split; [reflexivity|]. split; [exact Hl|].
    cbn. destruct (Z.eqb_spec k' k) as [|_]; [contradiction|].
    rewrite Hk. repeat split; auto.
    + intros k'' Hk''. destruct (k' =? k''); [reflexivity|now apply Ho].
    + unfold total_count in *. cbn. lia.
Qed.

Lemma total_count_app : forall l l', total_count (l ++ l') = total_count l + total_count l'.
Proof.
  unfold total_count. induction l as [|s l IH]; intros l'; cbn; [reflexivity|].
  rewrite IH. lia.
Qed.

Lemma stats_well_keyed_lookup : forall d k s,
  stats_well_keyed d -> stats_lookup k d = Some s -> stats_channel_id s = k /\ In (k, s) d.
Proof.
  intros d k s (_ & Hid). induction d as [|[k' s'] d IH]; cbn; [discriminate|].
  inversion Hid as [|? ? Hhd Htl]; subst. cbn in Hhd.
  destruct (Z.eqb_spec k' k) as [->|Hne].
  - intros H. injection H as <-. auto.
  - intros H. destruct (IH Htl H). auto.
Qed.

Lemma stats_lookup_in : forall d k s,
  NoDup (map fst d) -> In (k, s) d -> stats_lookup k d = Some s.
Proof.
  intros d k s. induction d as [|[k' s'] d IH]; cbn; [contradiction|].
  intros Hnd [Heq|Hin]; inversion Hnd as [|? ? Hnin Hnd']; subst.
  - injection Heq as -> ->. now rewrite Z.eqb_refl.
  - destruct (Z.eqb_spec k' k) as [->|_]; [|now apply IH].
    exfalso. apply Hnin. apply in_map_iff. exists (k, s). auto.
Qed.

(** One message: its channel gets an entry if it has none, named by the
    title of that message, and the count of that entry goes up by one. *)
Lemma count_message_spec : forall msg d,
  stats_well_keyed d ->
  exists d',
    count_message msg d = Returns d' /\
    stats_well_keyed d' /\
    map fst d' = (if stats_contains (nm_channel_id msg) d then map fst d
                  else map fst d ++ [nm_channel_id msg]) /\
    (forall k, count_under k d'
               = count_under k d + (if nm_channel_id msg =? k then 1 else 0)) /\
    (forall k s', stats_lookup k d' = Some s' ->
       stats_channel_name s'
       = match stats_lookup k d with
         | Some s => stats_channel_name s
         | None => nm_channel_title msg
         end /\
       (stats_lookup k d = None -> k = nm_channel_id msg)) /\
    total_count (map snd d') = total_count (map snd d) + 1.
Proof.
  intros msg d (Hnd & Hid). unfold count_message.
  set (id := nm_channel_id msg).
  set (d0 := if stats_contains id d then d
             else d ++ [(id, mk_stats id (nm_channel_title msg) 0)]).
  assert (Hc0 : stats_contains id d0 = true).
  { subst d0. destruct (stats_contains id d) eqn:E; [exact E|].
    apply stats_contains_in. rewrite map_app. apply in_or_app. right. now left. }
  assert (Hk0 : map fst d0 = if stats_contains id d then map fst d else map fst d ++ [id]).
  { subst d0. destruct (stats_contains id d); [reflexivity|]. now rewrite map_app. }
  assert (Hwf0 : stats_well_keyed d0).
  { subst d0. destruct (stats_contains id d) eqn:E; [split; assumption|]. split.
    - rewrite map_app. cbn. apply NoDup_app_remove_l with (l := []). cbn.
      apply Permutation_NoDup with (l := id :: map fst d).
      + apply Permutation_cons_append.
      + constructor; [|exact Hnd]. intros Hin. apply stats_contains_in in Hin. congruence.
    - apply Forall_app. split; [exact Hid|]. constructor; [reflexivity|constructor]. }
  assert (Hl0 : forall k, stats_lookup k d0
                          = match stats_lookup k d with
                            | Some s => Some s
                            | None => if stats_contains id d then None
                                      else if id =? k
                                           then Some (mk_stats id (nm_channel_title msg) 0)
                                           else None
                            end).
  { intros k. subst d0. destruct (stats_contains id d) eqn:E.
    - now destruct (stats_lookup k d).
    - rewrite stats_lookup_app. cbn. reflexivity. }
  assert (Ht0 : total_count (map snd d0) = total_count (map snd d)).
  { subst d0. destruct (stats_contains id d); [reflexivity|].
    rewrite map_app, total_count_app. unfold total_count at 2. cbn. lia. }
  destruct (stats_increment_spec id d0 Hc0) as (d' & s & Hinc & Hs & Hkeys & Hl' & Ho & Ht).
  exists d'. split; [exact Hinc|].
  assert (Hwf' : stats_well_keyed d').
  { destruct Hwf0 as (Hnd0 & Hid0). split; [now rewrite Hkeys|].
    apply Forall_forall. intros [k s'] Hin. cbn.
    assert (Hnd' : NoDup (map fst d')) by now rewrite Hkeys.
    pose proof (stats_lookup_in d' k s' Hnd' Hin) as Hlk.
    destruct (Z.eq_dec k id) as [->|Hne].
    - rewrite Hl' in Hlk. injection Hlk as <-. cbn.
      now destruct (stats_well_keyed_lookup d0 id s (conj Hnd0 Hid0) Hs).
    - rewrite (Ho k Hne) in Hlk.
      now destruct (stats_well_keyed_lookup d0 k s' (conj Hnd0 Hid0) Hlk). }
  split; [exact Hwf'|]. split; [now rewrite Hkeys|]. split; [|split].
  - intros k. unfold count_under. destruct (Z.eqb_spec id k) as [<-|Hne].
    + rewrite Hl'. cbn. rewrite Hl0 in Hs.
      destruct (stats_lookup id d) as [s0|] eqn:E0.
      * injection Hs as <-. reflexivity.
      * destruct (stats_contains id d) eqn:Ec; [discriminate|].
        rewrite Z.eqb_refl in Hs. injection Hs as <-. reflexivity.
    + rewrite (Ho k) by congruence. rewrite Hl0.
      destruct (stats_lookup k d) as [s0|]; [lia|].
      destruct (stats_contains id d); [lia|].
      destruct (Z.eqb_spec id k); [contradiction|lia].
  - intros k s' Hs'. destruct (Z.eq_dec k id) as [->|Hne].
    + rewrite Hl' in Hs'. injection Hs' as <-. cbn. rewrite Hl0 in Hs.
      destruct (stats_lookup id d) as [s0|] eqn:E0.
      * injection Hs as <-. split; [reflexivity|discriminate].
      * destruct (stats_contains id d) eqn:Ec; [discriminate|].
        rewrite Z.eqb_refl in Hs. injection Hs as <-. cbn. split; reflexivity.
    + rewrite (Ho k Hne), Hl0 in Hs'.
      destruct (stats_lookup k d) as [s0|]; [injection Hs' as <-; split; [reflexivity|discriminate]|].
      destruct (stats_contains id d); [discriminate|].
      destruct (Z.eqb_spec id k); [congruence|discriminate].
  - lia.
Qed.

Lemma filter_twice : forall (A : Type) (f g h : A -> bool) l,
  (forall x, h x = g x && f x) -> filter f (filter g l) = filter h l.
Proof.
  intros A f g h l Hh. induction l as [|x l IH]; cbn; [reflexivity|].
  rewrite Hh. destruct (g x); cbn; [|exact IH].
  destruct (f x); now rewrite IH.
Qed.

Lemma existsb_eqb_in : forall k l, existsb (Z.eqb k) l = true <-> In k l.
Proof.
  intros k l. rewrite existsb_exists. split.
  - intros (x & Hx & E). apply Z.eqb_eq in E. now subst.
  - intros H. exists k. split; [exact H|apply Z.eqb_refl].
Qed.

Lemma first_appearances_in : forall k ids, In k (first_appearances ids) <-> In k ids.
Proof.
  intros k ids. induction ids as [|id ids IH]; cbn; [tauto|].
  rewrite filter_In, IH. destruct (Z.eqb_spec k id) as [->|Hne]; cbn.
  - split; auto.
  - split; [intros [?|[? _]]; auto|intros [?|?]; [left; congruence|auto]].
Qed.

Lemma first_appearances_nodup : forall ids, NoDup (first_appearances ids).
Proof.
  induction ids as [|id ids IH]; cbn; constructor.
  - rewrite filter_In. intros (_ & H). now rewrite Z.eqb_refl in H.
  - now apply NoDup_filter.
Qed.

Lemma records_of_cons : forall k m msgs,
  records_of k (m :: msgs) = (if nm_channel_id m =? k then 1 else 0) + records_of k msgs.
Proof.
  intros k m msgs. unfold records_of. cbn [filter].
  destruct (nm_channel_id m =? k); cbn [List.length]; lia.
Qed.

Lemma count_messages_spec : forall msgs d,
  stats_well_keyed d ->
  exists d',
    count_messages msgs d = Returns d' /\
    stats_well_keyed d' /\
    map fst d'
    = map fst d ++ filter (fun k => negb (existsb (Z.eqb k) (map fst d)))
                          (first_appearances (map nm_channel_id msgs)) /\
    (forall k, count_under k d' = count_under k d + records_of k msgs) /\
    (forall k s', stats_lookup k d' = Some s' ->
       match stats_lookup k d with
       | Some s => stats_channel_name s' = stats_channel_name s
       | None => exists m, first_record_of k msgs = Some m /\
                           stats_channel_name s' = nm_channel_title m
       end) /\
    total_count (map snd d') = total_count (map snd d) + Z.of_nat (List.length msgs).
Proof.
  induction msgs as [|m msgs IH]; intros d Hwf; cbn [count_messages].
  - exists d. split; [reflexivity|]. split; [exact Hwf|]. cbn. rewrite app_nil_r.
    split; [reflexivity|]. split; [intros k; unfold records_of; cbn; lia|]. split; [|lia].
    intros k s' Hs'. rewrite Hs'. reflexivity.
  - destruct (count_message_spec m d Hwf) as (d1 & -> & Hwf1 & Hk1 & Hc1 & Hn1 & Ht1).
    destruct (IH d1 Hwf1) as (d' & Hrun & Hwf' & Hk' & Hc' & Hn' & Ht').
    exists d'. split; [exact Hrun|]. split; [exact Hwf'|]. split; [|split; [|split]].
    + rewrite Hk', Hk1. cbn [map first_appearances filter].
      destruct (stats_contains (nm_channel_id m) d) eqn:Ec.
      * assert (Hin : existsb (Z.eqb (nm_channel_id m)) (map fst d) = true).
        { apply existsb_eqb_in. now apply stats_contains_in. }
        rewrite Hin. cbn [negb]. f_equal. symmetry. apply filter_twice.
        intros x. destruct (Z.eqb_spec x (nm_channel_id m)) as [->|]; cbn; [|reflexivity].
        now rewrite Hin.
      * assert (Hout : existsb (Z.eqb (nm_channel_id m)) (map fst d) = false).
        { apply not_true_is_false. intros H. apply existsb_eqb_in in H.
          apply stats_contains_in in H. congruence. }
        rewrite Hout. cbn [negb]. rewrite <- app_assoc. f_equal.
        change ([nm_channel_id m] ++ ?l) with (nm_channel_id m :: l). f_equal.
        symmetry. apply filter_twice.
        intros x. rewrite existsb_app. cbn. rewrite orb_false_r, negb_orb.
        apply andb_comm.
    + intros k. rewrite Hc', Hc1, records_of_cons. lia.
    + intros k s' Hs'. specialize (Hn' k s' Hs').
      destruct (stats_lookup k d1) as [s1|] eqn:E1.
      * destruct (Hn1 k s1 E1) as (Hname & Hnew).
        destruct (stats_lookup k d) as [s|] eqn:E; [congruence|].
        exists m. unfold first_record_of. cbn [find].
        rewrite (Hnew eq_refl), Z.eqb_refl. split; [reflexivity|congruence].
      * destruct Hn' as (m' & Hm' & Hname).
        assert (E : stats_lookup k d = None).
        { destruct (stats_lookup k d) as [s|] eqn:E; [|reflexivity].
          assert (Hin : In k (map fst d1)).
          { rewrite Hk1. destruct (stats_well_keyed_lookup d k s Hwf E) as (_ & Hin).
            assert (In k (map fst d)) by (apply in_map_iff; exists (k, s); auto).
            destruct (stats_contains _ d); [assumption|apply in_or_app; now left]. }
          apply stats_contains_in in Hin.
          assert (stats_contains k d1 = false).
          { clear - E1. induction d1 as [|[k' s''] d1 IHd]; cbn in *; [reflexivity|].
            destruct (k' =? k); [discriminate|]. cbn. now apply IHd. }
          congruence. }
        rewrite E. exists m'. split; [|exact Hname].
        unfold first_record_of in *. cbn [find].
        destruct (Z.eqb_spec (nm_channel_id m) k) as [Heq|_]; [|exact Hm'].
        exfalso. specialize (Hc1 k). unfold count_under in Hc1.
        rewrite E1, E in Hc1. apply Z.eqb_eq in Heq. rewrite Heq in Hc1. lia.
    + rewrite Ht', Ht1. cbn [List.length]. lia.
Qed.

Lemma sources_spec : forall messages,
  exists d,
    sources messages = Returns (map snd d) /\
    stats_well_keyed d /\
    map fst d = first_appearances (map nm_channel_id messages) /\
    (forall k, count_under k d = records_of k messages) /\
    (forall k s, stats_lookup k d = Some s ->
       exists m, first_record_of k messages = Some m /\
                 stats_channel_name s = nm_channel_title m) /\
    total_count (map snd d) = Z.of_nat (List.length messages).
Proof.
  intros messages.
  assert (Hwf : stats_well_keyed []) by (split; constructor).
  destruct (count_messages_spec messages [] Hwf) as (d & Hrun & Hwf' & Hk & Hc & Hn & Ht).
  exists d. unfold sources. rewrite Hrun. split; [reflexivity|]. split; [exact Hwf'|].
  split; [|split; [|split]].
  - rewrite Hk. cbn. clear. induction (first_appearances _) as [|x l IH]; cbn; congruence.
  - intros k. rewrite Hc. unfold count_under. cbn. lia.
  - intros k s Hs. exact (Hn k s Hs).
  - rewrite Ht. unfold total_count. cbn. lia.
Qed.

Lemma map_stats_ids : forall d,
  stats_well_keyed d -> map stats_channel_id (map snd d) = map fst d.
Proof.
  intros d (_ & Hid). induction Hid as [|[k s] d Hk _ IH]; cbn in *; congruence.
Qed.

(** The sources of an analysis count the corpus: building them never
    raises, each entry's [message_count] is the number of records of its
    channel, which is at least one, and the counts add up to the number of
    records. *)
Theorem sources_count_every_record : forall messages,
  exists entries,
    sources messages = Returns entries /\
    Forall (fun entry =>
              stats_message_count entry = records_of (stats_channel_id entry) messages /\
              0 < stats_message_count entry) entries /\
    total_count entries = Z.of_nat (List.length messages).
Proof.
  intros messages.
  destruct (sources_spec messages) as (d & Hrun & Hwf & Hk & Hc & Hn & Ht).
  exists (map snd d). split; [exact Hrun|]. split; [|exact Ht].
  apply Forall_forall. intros s Hs. apply in_map_iff in Hs.
  destruct Hs as ([k s'] & Heq & Hin). cbn in Heq. subst s'.
  destruct Hwf as (Hnd & Hid).
  pose proof (stats_lookup_in d k s Hnd Hin) as Hl.
  destruct (stats_well_keyed_lookup d k s (conj Hnd Hid) Hl) as (Hsk & _).
  rewrite Hsk.
  specialize (Hc k). unfold count_under in Hc. rewrite Hl in Hc.
  split; [exact Hc|]. rewrite Hc.
  destruct (Hn _ _ Hl) as (m & Hm & _). unfold first_record_of in Hm.
  apply find_some in Hm. destruct Hm as (Hm & Heq).
  unfold records_of.
  assert (Hf : In m (filter (fun m0 => nm_channel_id m0 =? k) messages)).
  { apply filter_In. auto. }
  destruct (filter _ messages); [contradiction|cbn; lia].
Qed.

(** The sources list each channel of the corpus once, in the order in
    which the channels first appear in it, and each entry is named by the
    title of the first record of its channel. *)
Theorem sources_list_channels_by_first_record : forall messages,
  exists entries,
    sources messages = Returns entries /\
    map stats_channel_id entries = first_appearances (map nm_channel_id messages) /\
    NoDup (map stats_channel_id entries) /\
    Forall (fun entry =>
              exists m, first_record_of (stats_channel_id entry) messages = Some m /\
                        stats_channel_name entry = nm_channel_title m) entries.
Proof.
  intros messages.
  destruct (sources_spec messages) as (d & Hrun & Hwf & Hk & Hc & Hn & Ht).
  exists (map snd d). split; [exact Hrun|].
  rewrite (map_stats_ids d Hwf), Hk. split; [reflexivity|].
  split; [apply first_appearances_nodup|].
  apply Forall_forall. intros s Hs. apply in_map_iff in Hs.
  destruct Hs as ([k s'] & Heq & Hin). cbn in Heq. subst s'.
  destruct Hwf as (Hnd & Hid).
  pose proof (stats_lookup_in d k s Hnd Hin) as Hl.
  destruct (stats_well_keyed_lookup d k s (conj Hnd Hid) Hl) as (Hsk & _).
  rewrite Hsk. exact (Hn _ _ Hl).
Qed.

(* ================================================================== *)
(** * More on the tracking file and on one pass *)
(* ================================================================== *)

Section RoundTrip.
Context {R : Type}.
Variable json_loads : string -> outcome Tracking.

Lemma save_keeps_read_error : forall tracking_data (w : World R),
  read_error (fs (snd (_save_last_message_tracking tracking_data w))) = read_error (fs w).
Proof.
  intros d w.
  exact (save_keeps (fun w0 => read_error (fs w0) = read_error (fs w))
           (fun _ _ _ H => H) (fun _ _ H => H) (fun _ _ _ H => H) d w eq_refl).
Qed.

Lemma save_writes_the_dump : forall tracking_data (w : World R),
  writable (fs w) ->
  exists w1,
    _save_last_message_tracking tracking_data w = (Returns tt, w1) /\
    tracking_file (fs w1) = Some (json_dumps tracking_data).
Proof.
  intros d w Hw. destruct (save_runs_every_effect d w Hw) as (Hrun & Hfile).
  rewrite Hrun in Hfile. eexists. split; [exact Hrun|exact Hfile].
Qed.

(** What a run saves is what the next run loads: on a device without
    faults, and for a dictionary whose dump [json.loads] reads back, the
    load that follows a save returns the dictionary that was saved. *)
Theorem saved_tracking_loads_back : forall tracking_data (w : World R),
  writable (fs w) -> read_error (fs w) = None ->
  json_loads (json_dumps tracking_data) = Returns tracking_data ->
  exists w1 w2,
    _save_last_message_tracking tracking_data w = (Returns tt, w1) /\
    _load_last_message_tracking json_loads w1 = (Returns tracking_data, w2).
Proof.
  intros d w Hw Hread Hparse.
  destruct (save_writes_the_dump d w Hw) as (w1 & Hsave & Hfile).
  pose proof (save_keeps_read_error d w) as Hre. rewrite Hsave in Hre. cbn in Hre.
  rewrite Hread in Hre.
  exists w1. eexists. split; [exact Hsave|].
  unfold _load_last_message_tracking, os_path_exists, read_text. unfold_io.
  rewrite Hfile, Hre. cbn -[json_dumps]. rewrite Hfile. cbn -[json_dumps].
  rewrite Hparse. reflexivity.
Qed.
End RoundTrip.

Lemma round_trip_witness :
  writable (fs Telegram.first_run) /\
  exists w1 w2,
    _save_last_message_tracking Telegram.tracked Telegram.first_run = (Returns tt, w1) /\
    tracking_file (fs w1) = Some (json_dumps Telegram.tracked) /\
    _load_last_message_tracking Telegram.parse w1 = (Returns Telegram.tracked, w2).
Proof.
  assert (Hw : writable (fs Telegram.first_run)) by (repeat split).
  split; [exact Hw|].
  destruct (saved_tracking_loads_back Telegram.parse Telegram.tracked Telegram.first_run
              Hw eq_refl eq_refl) as (w1 & w2 & Hsave & Hload).
  exists w1, w2. split; [exact Hsave|]. split; [|exact Hload].
  vm_compute in Hsave. inversion Hsave; subst. reflexivity.
Defined.

Section OnePass.
Context {R : Type}.
Variable client : Client R.

(** The [last_message_tracking[channel_id]] of the update is guarded by
    [use_id_tracking]: once the channel is resolved, its messages fetched
    and its records made, the pass returns. *)
Theorem pass_completes_when_the_client_does :
  forall username lim fh tracking all_messages (w : World R)
         entity channel_info w1 messages since_date w2 channel_messages w3,
    resolve_channel client username w = (Returns (entity, channel_info), w1) ->
    fetch_messages client entity lim fh (str (entity_id entity)) tracking w1
    = (Returns (messages, since_date), w2) ->
    process_messages client entity channel_info
      (use_id_tracking_for (str (entity_id entity)) tracking) since_date messages messages []
      w2
    = (Returns channel_messages, w3) ->
    exists tracking' w',
      channel_body client username lim fh (tracking, all_messages) w
      = (Returns (tracking', all_messages ++ channel_messages), w').
Proof.
  intros u lim fh tr all w e info w1 ms since w2 cm w3 Hres Hfetch Hproc.
  assert (Hupd : exists tr', update_tracking (str (entity_id e))
                               (use_id_tracking_for (str (entity_id e)) tr) cm tr
                             = Returns tr').
  { unfold update_tracking. destruct (py_max (map nm_id cm)); [|eauto].
    destruct (use_id_tracking_for (str (entity_id e)) tr) eqn:Huse; [|eauto].
    destruct (use_id_tracking_true _ _ Huse) as (W & -> & _). eauto. }
  destruct Hupd as (tr' & Hupd).
  exists tr'. eexists. unfold channel_body.
  unfold bind at 1. rewrite Hres. unfold bind at 1. rewrite Hfetch.
  unfold bind at 1. rewrite Hproc. unfold bind at 1. rewrite Hupd.
  unfold of_outcome, ret, bind, logger. reflexivity.
Qed.

(** A pass changes the watermark of its own channel only.  The records
    it adds all belong to that channel; every other entry of the
    dictionary is as before; without a record the dictionary is as before;
    with records the entry of the channel is their largest id, or the old
    entry when that is positive and larger. *)
Theorem pass_changes_one_watermark :
  forall username lim fh tracking all_messages (w : World R) tracking' all_messages' w',
    channel_body client username lim fh (tracking, all_messages) w
    = (Returns (tracking', all_messages'), w') ->
    exists entity channel_messages,
      all_messages' = all_messages ++ channel_messages /\
      Forall (fun nm => nm_channel_id nm = entity_id entity) channel_messages /\
      (forall channel_id, channel_id <> str (entity_id entity) ->
         dict_get channel_id tracking' = dict_get channel_id tracking) /\
      (channel_messages = [] -> tracking' = tracking) /\
      (forall newest_id, py_max (map nm_id channel_messages) = Some newest_id ->
         dict_get (str (entity_id entity)) tracking'
         = Some (match dict_get (str (entity_id entity)) tracking with
                 | Some last => if 0 <? last then Z.max newest_id last else newest_id
                 | None => newest_id
                 end)).
Proof.
  intros u lim fh tr all w tr' all' w' H.
  apply channel_body_inv in H.
  destruct H as (e & info & w1 & ms & since & w2 & cm & w3 & _ & _ & Hproc & Hupd & ->).
  apply process_messages_spec in Hproc. destruct Hproc as (new & Hnew & Hren).
  cbn in Hnew. subst new. apply renders_channel in Hren.
  exists e, cm. split; [reflexivity|]. split; [exact Hren|]. split; [|split].
  - intros cid Hne. apply (update_tracking_other _ _ _ _ _ cid Hupd). congruence.
  - intros ->. cbn in Hupd. now injection Hupd as <-.
  - intros newest Hmax. unfold update_tracking in Hupd. rewrite Hmax in Hupd.
    unfold use_id_tracking_for in *.
    destruct (dict_get (str (entity_id e)) tr) as [last|] eqn:E.
    + destruct (0 <? last); injection Hupd as <-; now rewrite dict_get_set_eq.
    + injection Hupd as <-. now rewrite dict_get_set_eq.
Qed.

(** In CursorMode the date plays no part: a pass that completes makes a
    record of every message of the answer, in the order of the answer. *)
Theorem cursor_pass_keeps_every_message :
  forall entity channel_info since_date messages (w : World R) channel_messages w',
    process_messages client entity channel_info true since_date messages messages [] w
    = (Returns channel_messages, w') ->
    Forall2 (renders entity) messages channel_messages /\
    map nm_id channel_messages = map msg_id messages.
Proof.
  intros e info since ms w cm w' H.
  apply process_messages_spec in H. destruct H as (new & Hnew & Hren).
  cbn in Hnew. subst new. rewrite kept_cursor in Hren.
  split; [exact Hren|]. exact (renders_ids _ _ _ Hren).
Qed.
End OnePass.

(** In CursorMode the message 5 of 2024-02-20, far outside any window of a
    day, is collected like the others. *)
Lemma cursor_pass_witness :
  exists channel_messages w',
    process_messages Telegram.client (Telegram.entity Telegram.news)
      (mk_info 1001 (Some "news"%string) (Some "news"%string) None None)
      true Telegram.one_pm (Telegram.history Telegram.news)
      (Telegram.history Telegram.news) [] Telegram.later_run
    = (Returns channel_messages, w') /\
    map nm_id channel_messages = [13; 12; 11; 5].
Proof.
  eexists _, _.
  match goal with
  | |- ?A /\ _ => assert (H : A) by (vm_compute; reflexivity)
  end.
  split; [exact H|].
  destruct (cursor_pass_keeps_every_message Telegram.client _ _ _ _ _ _ _ H) as (_ & Hids).
  rewrite Hids. reflexivity.
Defined.

(** A first pass over [news]: the dictionary gets the entry 13 for the
    channel and keeps the entry of [gallery]. *)
Lemma one_watermark_witness :
  exists tracking' all_messages' w',
    channel_body Telegram.client "news" 100 24 ([("2002"%string, 20)], [])
                 Telegram.first_run
    = (Returns (tracking', all_messages'), w') /\
    map nm_id all_messages' = [13; 12; 11] /\
    dict_get "2002"%string tracking' = Some 20 /\
    dict_get "1001"%string tracking' = Some 13 /\
    exists entity channel_messages,
      all_messages' = [] ++ channel_messages /\
      Forall (fun nm => nm_channel_id nm = entity_id entity) channel_messages.
Proof.
  eexists _, _, _.
  match goal with
  | |- ?A /\ _ => assert (H : A) by (vm_compute; reflexivity)
  end.
  split; [exact H|]. split; [reflexivity|]. split; [reflexivity|]. split; [reflexivity|].
  destruct (pass_changes_one_watermark Telegram.client _ _ _ _ _ _ _ _ _ H)
    as (e & cm & Hall & Hch & _).
  exists e, cm. split; assumption.
Defined.

Lemma pass_completes_witness :
  exists entity channel_info w1 messages since_date w2 channel_messages w3 tracking' w',
    resolve_channel Telegram.client "news" Telegram.later_run
    = (Returns (entity, channel_info), w1) /\
    fetch_messages Telegram.client entity 100 24 (str (entity_id entity))
      Telegram.tracked w1
    = (Returns (messages, since_date), w2) /\
    process_messages Telegram.client entity channel_info
      (use_id_tracking_for (str (entity_id entity)) Telegram.tracked) since_date
      messages messages [] w2
    = (Returns channel_messages, w3) /\
    channel_body Telegram.client "news" 100 24 (Telegram.tracked, []) Telegram.later_run
    = (Returns (tracking', [] ++ channel_messages), w').
Proof.
  eexists _, _, _, _, _, _, _, _.
  match goal with
  | |- exists tr' w', ?A /\ ?B /\ ?C /\ _ =>
      assert (H1 : A) by (vm_compute; reflexivity);
      assert (H2 : B) by (vm_compute; reflexivity);
      assert (H3 : C) by (vm_compute; reflexivity)
  end.
  destruct (pass_completes_when_the_client_does Telegram.client "news"%string 100 24
              Telegram.tracked [] Telegram.later_run _ _ _ _ _ _ _ _ H1 H2 H3)
    as (tr' & w' & H).
  exists tr', w'. split; [exact H1|]. split; [exact H2|]. split; [exact H3|exact H].
Defined.

(** ** The sort is stable *)

Lemma string_leb_refl : forall s, String.leb s s = true.
Proof. intros s. unfold String.leb. now rewrite string_compare_refl. Qed.

Lemma insert_by_date_same_date : forall date x l,
  filter (fun nm => String.eqb (nm_date nm) date) (insert_by_date x l)
  = filter (fun nm => String.eqb (nm_date nm) date) (x :: l).
Proof.
  intros date x l. induction l as [|y l IH]; cbn [insert_by_date]; [reflexivity|].
  destruct (String.leb (nm_date x) (nm_date y)) eqn:E; [reflexivity|].
  cbn [filter] in *. rewrite IH.
  destruct (String.eqb_spec (nm_date x) date) as [Hx|Hx]; [|reflexivity].
  destruct (String.eqb_spec (nm_date y) date) as [Hy|Hy]; [|reflexivity].
  rewrite Hx, Hy, string_leb_refl in E. discriminate.
Qed.

(** Records with the same date text leave the sort in the order in which
    they were collected. *)
Theorem sort_keeps_collection_order_of_equal_dates : forall date all_messages,
  filter (fun nm => String.eqb (nm_date nm) date) (sort_by_date all_messages)
  = filter (fun nm => String.eqb (nm_date nm) date) all_messages.
Proof.
  intros date l. induction l as [|x l IH]; cbn [sort_by_date]; [reflexivity|].
  rewrite insert_by_date_same_date. cbn [filter]. now rewrite IH.
Qed.

(* ================================================================== *)
(** * ConfigManager *)
(* ================================================================== *)

Lemma list_contains_in : forall x l, list_contains x l = true <-> In x l.
Proof.
  intros x l. unfold list_contains. rewrite existsb_exists. split.
  - intros (y & Hy & E). apply String.eqb_eq in E. now subst.
  - intros H. exists x. split; [exact H|apply String.eqb_refl].
Qed.

Lemma list_contains_false : forall x l, list_contains x l = false <-> ~ In x l.
Proof.
  intros x l. rewrite <- list_contains_in. destruct (list_contains x l); split; congruence.
Qed.

Lemma save_keeps_config : forall m, config (_save_config m) = config m.
Proof.
  intros m. unfold _save_config.
  destruct (config_open_error (disk m)); [reflexivity|].
  destruct (config_dump_error (disk m)); reflexivity.
Qed.

Lemma get_channels_set : forall channels c l,
  config_channels c = Returns l ->
  forall m, config m = set_channels channels c -> get_channels m = channels.
Proof.
  intros channels c l Hc m Hm. unfold get_channels. rewrite Hm. unfold config_channels in Hc.
  cbn. destruct (telegram c) as [section|]; [reflexivity|discriminate].
Qed.

Lemma config_channels_get : forall m l,
  config_channels (config m) = Returns l -> get_channels m = l.
Proof.
  intros m l H. unfold config_channels in H. unfold get_channels.
  destruct (telegram (config m)) as [section|]; [|discriminate].
  destruct (section_channels section); [now injection H|discriminate].
Qed.

Lemma add_channel_channels : forall channel description m channels,
  config_channels (config m) = Returns channels ->
  fst (add_channel channel description m) = true /\
  get_channels (snd (add_channel channel description m))
  = if list_contains channel channels then channels else channels ++ [channel].
Proof.
  intros channel description m channels Hc. unfold add_channel. rewrite Hc.
  cbn [fst snd]. split; [reflexivity|].
  unfold get_channels. rewrite save_keeps_config. cbn [with_config config].
  unfold config_channels in Hc.
  destruct (telegram (config m)) as [section|] eqn:Ht; [|discriminate].
  assert (Htel : forall c' : Config,
             telegram (match description with
                       | Some text =>
                           if truthy description
                              && negb (dict_contains channel
                                         (match channel_descriptions c' with
                                          | Some d => d | None => [] end))
                           then set_descriptions
                                  (Some (dict_set channel text
                                           (match channel_descriptions c' with
                                            | Some d => d | None => [] end))) c'
                           else c'
                       | None => c'
                       end) = telegram c').
  { intros c'. destruct description as [text|]; [|reflexivity].
    destruct (_ && _); reflexivity. }
  rewrite Htel. unfold set_channels. rewrite Ht. cbn.
  destruct (list_contains channel channels); reflexivity.
Qed.

(** [add_channel] lists the channel, once.  When the configuration has
    its list of channels, the call returns [True], the channel goes to the
    end of the list unless it is there already, the channels listed before
    keep their places, a list without repetition stays so, and the
    subscribers are as before.  When the list is missing the call returns
    [False] and leaves the configuration and the file as they were. *)
Theorem add_channel_lists_the_channel_once : forall channel description m,
  match config_channels (config m) with
  | Returns channels =>
      fst (add_channel channel description m) = true /\
      get_channels (snd (add_channel channel description m))
      = (if list_contains channel channels then channels else channels ++ [channel]) /\
      In channel (get_channels (snd (add_channel channel description m))) /\
      (NoDup channels -> NoDup (get_channels (snd (add_channel channel description m)))) /\
      get_subscribers (snd (add_channel channel description m)) = get_subscribers m
  | Raises _ =>
      fst (add_channel channel description m) = false /\
      config (snd (add_channel channel description m)) = config m /\
      disk (snd (add_channel channel description m)) = disk m
  end.
Proof.
  intros channel description m.
  destruct (config_channels (config m)) as [channels|e] eqn:Hc.
  - destruct (add_channel_channels channel description m channels Hc) as (Hok & Hget).
    split; [exact Hok|]. split; [exact Hget|]. rewrite Hget. split; [|split].
    + destruct (list_contains channel channels) eqn:E.
      * now apply list_contains_in.
      * apply in_or_app. right. now left.
    + intros Hnd. destruct (list_contains channel channels) eqn:E; [exact Hnd|].
      apply list_contains_false in E.
      apply NoDup_app_remove_l with (l := []). cbn.
      apply Permutation_NoDup with (l := channel :: channels).
      * apply Permutation_cons_append.
      * now constructor.
    + unfold add_channel. rewrite Hc. cbn [snd]. unfold get_subscribers.
      rewrite save_keeps_config. cbn [with_config config].
      unfold config_channels in Hc.
      destruct (telegram (config m)) as [section|] eqn:Ht; [|discriminate].
      destruct description as [text|]; [destruct (_ && _)|];
        cbn; rewrite Ht; reflexivity.
  - unfold add_channel. rewrite Hc. cbn. auto.
Qed.

(** [add_channel] never replaces a description: for a channel that has
    one, the descriptions are as before whatever description is passed. *)
Theorem add_channel_keeps_the_first_description : forall channel description m text,
  dict_get channel (get_channel_descriptions m) = Some text ->
  get_channel_descriptions (snd (add_channel channel description m))
  = get_channel_descriptions m.
Proof.
  intros channel description m text Hd. unfold add_channel.
  destruct (config_channels (config m)) as [channels|e]; [|reflexivity].
  cbn [snd]. unfold get_channel_descriptions in *. rewrite save_keeps_config.
  cbn [with_config config].
  destruct description as [d|]; [|reflexivity].
  cbn [set_channels channel_descriptions].
  unfold dict_contains. rewrite Hd. rewrite andb_false_r. reflexivity.
Qed.

Lemma list_remove_absent : forall x l, ~ In x l -> list_remove x l = l.
Proof.
  intros x l. induction l as [|y l IH]; cbn; [reflexivity|]. intros H.
  destruct (String.eqb_spec x y) as [->|_]; [exfalso; apply H; now left|].
  rewrite IH; [reflexivity|]. intros Hin. apply H. now right.
Qed.

Lemma list_remove_last : forall x l, ~ In x l -> list_remove x (l ++ [x]) = l.
Proof.
  intros x l. induction l as [|y l IH]; cbn; intros H.
  - now rewrite String.eqb_refl.
  - destruct (String.eqb_spec x y) as [->|_]; [exfalso; apply H; now left|].
    rewrite IH; [reflexivity|]. intros Hin. apply H. now right.
Qed.

Lemma dict_del_set : forall (V : Type) k (v : V) d,
  dict_get k d = None -> dict_del k (dict_set k v d) = d.
Proof.
  intros V k v d. induction d as [|[k' v'] d IH]; cbn; intros H.
  - now rewrite String.eqb_refl.
  - destruct (String.eqb k k') eqn:E; [discriminate|]. cbn. rewrite E. now rewrite IH.
Qed.

Lemma dict_contains_set : forall (V : Type) k (v : V) d, dict_contains k (dict_set k v d) = true.
Proof. intros. unfold dict_contains. now rewrite dict_get_set_eq. Qed.

Lemma occurrences_remove : forall x l,
  In x l -> S (occurrences x (list_remove x l)) = occurrences x l.
Proof.
  intros x l. unfold occurrences. induction l as [|y l IH]; cbn; [contradiction|].
  intros H. destruct (String.eqb_spec x y) as [->|Hne].
  - reflexivity.
  - cbn. destruct (String.eqb_spec x y); [contradiction|].
    apply IH. destruct H; [congruence|assumption].
Qed.

Lemma occurrences_remove_other : forall x y l,
  x <> y -> occurrences y (list_remove x l) = occurrences y l.
Proof.
  intros x y l Hne. unfold occurrences. induction l as [|z l IH]; cbn; [reflexivity|].
  destruct (String.eqb_spec x z) as [->|_].
  - destruct (String.eqb_spec y z); [congruence|reflexivity].
  - cbn. destruct (String.eqb y z); cbn; now rewrite IH.
Qed.

Lemma remove_channel_channels : forall channel m channels,
  config_channels (config m) = Returns channels ->
  get_channels (snd (remove_channel channel m)) = list_remove channel channels.
Proof.
  intros channel m channels Hc. unfold remove_channel. rewrite Hc. cbn [snd].
  unfold get_channels. rewrite save_keeps_config. cbn [with_config config].
  unfold config_channels in Hc.
  destruct (telegram (config m)) as [section|] eqn:Ht; [|discriminate].
  assert (E : (if list_contains channel channels then list_remove channel channels
               else channels) = list_remove channel channels).
  { destruct (list_contains channel channels) eqn:E; [reflexivity|].
    apply list_contains_false in E. now rewrite list_remove_absent. }
  rewrite E.
  cbn [set_channels channel_descriptions].
  destruct (channel_descriptions (config m)) as [d|]; [destruct (dict_contains channel d)|];
    cbn; rewrite Ht; reflexivity.
Qed.

(** [remove_channel] takes one occurrence away, the first.  The channel
    is listed once less, every other handle as often as before; so from a
    list without repetition the channel is gone, and from a list that names
    it twice it is not. *)
Theorem remove_channel_takes_the_first_occurrence : forall channel m channels,
  config_channels (config m) = Returns channels ->
  fst (remove_channel channel m) = true /\
  get_channels (snd (remove_channel channel m)) = list_remove channel channels /\
  occurrences channel (get_channels (snd (remove_channel channel m)))
  = pred (occurrences channel channels) /\
  (forall other, other <> channel ->
     occurrences other (get_channels (snd (remove_channel channel m)))
     = occurrences other channels) /\
  (NoDup channels -> ~ In channel (get_channels (snd (remove_channel channel m)))).
Proof.
  intros channel m channels Hc.
  pose proof (remove_channel_channels channel m channels Hc) as Hget.
  split; [unfold remove_channel; now rewrite Hc|]. split; [exact Hget|].
  rewrite Hget. split; [|split].
  - destruct (list_contains channel channels) eqn:E.
    + apply list_contains_in in E. now rewrite <- (occurrences_remove channel channels E).
    + apply list_contains_false in E. rewrite list_remove_absent by exact E.
      unfold occurrences.
      assert (Hf : filter (String.eqb channel) channels = []).
      { clear - E. induction channels as [|y l IH]; cbn; [reflexivity|].
        destruct (String.eqb_spec channel y) as [->|_]; [exfalso; apply E; now left|].
        apply IH. intros H. apply E. now right. }
      now rewrite Hf.
  - intros other Hne. apply occurrences_remove_other. congruence.
  - intros Hnd. clear - Hnd. induction Hnd as [|y l Hnin _ IH]; cbn; [tauto|].
    destruct (String.eqb_spec channel y) as [->|Hne]; [exact Hnin|].
    intros [H|H]; [congruence|now apply IH].
Qed.

Lemma add_channel_descriptions : forall channel description m channels,
  config_channels (config m) = Returns channels ->
  get_channel_descriptions (snd (add_channel channel description m))
  = match description with
    | Some text =>
        if truthy description && negb (dict_contains channel (get_channel_descriptions m))
        then dict_set channel text (get_channel_descriptions m)
        else get_channel_descriptions m
    | None => get_channel_descriptions m
    end.
Proof.
  intros channel description m channels Hc. unfold add_channel. rewrite Hc. cbn [snd].
  unfold get_channel_descriptions. rewrite save_keeps_config. cbn [with_config config].
  destruct description as [text|]; [|reflexivity].
  unfold set_channels. cbn [channel_descriptions].
  destruct (truthy (Some text) && _); reflexivity.
Qed.

Lemma remove_channel_descriptions : forall channel m channels,
  config_channels (config m) = Returns channels ->
  get_channel_descriptions (snd (remove_channel channel m))
  = if dict_contains channel (get_channel_descriptions m)
    then dict_del channel (get_channel_descriptions m)
    else get_channel_descriptions m.
Proof.
  intros channel m channels Hc. unfold remove_channel. rewrite Hc. cbn [snd].
  unfold get_channel_descriptions. rewrite save_keeps_config. cbn [with_config config].
  unfold set_channels. cbn [channel_descriptions].
  destruct (channel_descriptions (config m)) as [d|]; [|reflexivity].
  destruct (dict_contains channel d); reflexivity.
Qed.

Lemma add_channel_config_channels : forall channel description m channels,
  config_channels (config m) = Returns channels ->
  config_channels (config (snd (add_channel channel description m)))
  = Returns (if list_contains channel channels then channels else channels ++ [channel]).
Proof.
  intros channel description m channels Hc.
  unfold add_channel. rewrite Hc. cbn [snd]. rewrite save_keeps_config.
  cbn [with_config config]. unfold config_channels in *.
  destruct (telegram (config m)) as [section|] eqn:Ht; [|discriminate].
  destruct description as [text|]; [destruct (_ && _)|]; cbn; rewrite Ht; cbn;
    destruct (list_contains channel channels); reflexivity.
Qed.

(** [remove_channel] undoes [add_channel]: for a channel that was neither
    listed nor described, the channels and the descriptions are after the
    two calls what they were before. *)
Theorem remove_channel_undoes_add_channel : forall channel description m channels,
  config_channels (config m) = Returns channels ->
  ~ In channel channels ->
  dict_get channel (get_channel_descriptions m) = None ->
  get_channels (snd (remove_channel channel (snd (add_channel channel description m))))
  = get_channels m /\
  get_channel_descriptions
    (snd (remove_channel channel (snd (add_channel channel description m))))
  = get_channel_descriptions m.
Proof.
  intros channel description m channels Hc Hnin Hd.
  pose proof (add_channel_config_channels channel description m channels Hc) as Hc1.
  assert (Hf : list_contains channel channels = false) by now apply list_contains_false.
  rewrite Hf in Hc1. split.
  - rewrite (remove_channel_channels channel _ _ Hc1).
    rewrite (list_remove_last _ _ Hnin). symmetry. now apply config_channels_get.
  - rewrite (remove_channel_descriptions channel _ _ Hc1).
    rewrite (add_channel_descriptions channel description m channels Hc).
    assert (Hno : dict_contains channel (get_channel_descriptions m) = false).
    { unfold dict_contains. now rewrite Hd. }
    destruct description as [text|]; [|now rewrite Hno].
    rewrite Hno. cbn [negb]. rewrite andb_true_r.
    destruct (truthy (Some text)); [|now rewrite Hno].
    rewrite dict_contains_set. now apply dict_del_set.
Qed.

(** The flag [add_channel] and [remove_channel] return says nothing of the
    file: it is the same on every disk.  When the file cannot be opened
    for writing the call still returns [True], with the channel listed in
    memory and the file as it was. *)
Theorem saving_failure_is_not_reported : forall channel description m d,
  fst (add_channel channel description (on_disk d m))
  = fst (add_channel channel description m) /\
  fst (remove_channel channel (on_disk d m)) = fst (remove_channel channel m) /\
  forall channels e,
    config_channels (config m) = Returns channels ->
    config_open_error (disk m) = Some e ->
    fst (add_channel channel description m) = true /\
    In channel (get_channels (snd (add_channel channel description m))) /\
    config_file (disk (snd (add_channel channel description m))) = config_file (disk m) /\
    In (ERROR, "Error saving configuration"%string)
       (manager_log (snd (add_channel channel description m))).
Proof.
  intros channel description m d. split; [|split].
  - unfold add_channel. cbn [on_disk config].
    destruct (config_channels (config m)); reflexivity.
  - unfold remove_channel. cbn [on_disk config].
    destruct (config_channels (config m)); reflexivity.
  - intros channels e Hc Hopen.
    destruct (add_channel_channels channel description m channels Hc) as (Hok & Hget).
    split; [exact Hok|]. split.
    + rewrite Hget. destruct (list_contains channel channels) eqn:E.
      * now apply list_contains_in.
      * apply in_or_app. right. now left.
    + unfold add_channel. rewrite Hc. cbn [snd]. unfold _save_config.
      cbn [with_config disk]. rewrite Hopen. cbn. split; [reflexivity|].
      apply in_or_app. right. now left.
Qed.

(** A prompt that was set is the prompt that is got, and setting one
    type leaves the prompts of the other types as they were. *)
Theorem analysis_prompt_set_then_get : forall prompt_type prompt m,
  fst (set_analysis_prompt prompt_type prompt m) = true /\
  get_analysis_prompt prompt_type (snd (set_analysis_prompt prompt_type prompt m)) = prompt /\
  forall other,
    other <> prompt_type -> "default"%string <> prompt_type ->
    get_analysis_prompt other (snd (set_analysis_prompt prompt_type prompt m))
    = get_analysis_prompt other m.
Proof.
  intros t p m. split; [reflexivity|]. unfold set_analysis_prompt, get_analysis_prompt.
  cbn [snd]. rewrite save_keeps_config. cbn [with_config config analysis_prompts]. split.
  - now rewrite dict_get_set_eq.
  - intros other Hne Hdef.
    rewrite !dict_get_set_ne by congruence. reflexivity.
Qed.

Lemma add_channel_witness :
  dict_get "news"%string (get_channel_descriptions sample_manager) = Some "Daily news"%string /\
  get_channel_descriptions (snd (add_channel "news" (Some "Other"%string) sample_manager))
  = [("news"%string, "Daily news"%string)].
Proof.
  split; [reflexivity|].
  rewrite (add_channel_keeps_the_first_description "news"%string (Some "Other"%string)
             sample_manager "Daily news"%string eq_refl).
  reflexivity.
Defined.

Lemma remove_channel_witness :
  config_channels (config sample_manager) = Returns ["news"%string; "gallery"%string] /\
  get_channels (snd (remove_channel "news" sample_manager)) = ["gallery"%string].
Proof.
  split; [reflexivity|].
  destruct (remove_channel_takes_the_first_occurrence "news"%string sample_manager
              ["news"%string; "gallery"%string] eq_refl) as (_ & H & _).
  rewrite H. reflexivity.
Defined.

Lemma undo_witness :
  config_channels (config sample_manager) = Returns ["news"%string; "gallery"%string] /\
  get_channels
    (snd (remove_channel "sports" (snd (add_channel "sports" (Some "Scores"%string)
                                                    sample_manager))))
  = ["news"%string; "gallery"%string] /\
  get_channel_descriptions
    (snd (remove_channel "sports" (snd (add_channel "sports" (Some "Scores"%string)
                                                    sample_manager))))
  = [("news"%string, "Daily news"%string)].
Proof.
  split; [reflexivity|].
  assert (Hnin : ~ In "sports"%string ["news"%string; "gallery"%string]).
  { cbn. intros [H|[H|[]]]; discriminate. }
  exact (remove_channel_undoes_add_channel "sports"%string (Some "Scores"%string)
           sample_manager ["news"%string; "gallery"%string] eq_refl Hnin eq_refl).
Defined.

(** A third channel added to the sample manager goes to the end of the
    list, which stays without repetition. *)
Lemma add_channel_once_witness :
  NoDup ["news"%string; "gallery"%string] /\
  get_channels (snd (add_channel "sports" None sample_manager))
  = ["news"%string; "gallery"%string; "sports"%string] /\
  NoDup (get_channels (snd (add_channel "sports" None sample_manager))).
Proof.
  assert (Hnd : NoDup ["news"%string; "gallery"%string]).
  { repeat constructor; cbn; intuition discriminate. }
  pose proof (add_channel_lists_the_channel_once "sports"%string None sample_manager) as H.
  change (config_channels (config sample_manager))
    with (Returns ["news"%string; "gallery"%string]) in H.
  cbv iota in H.
  destruct H as (_ & Hget & _ & Hkeeps & _).
  split; [exact Hnd|]. split; [exact Hget|]. exact (Hkeeps Hnd).
Defined.

(** The sample manager on a disk that refuses the write: the channel is
    added in memory, the call returns [True] and no file appears. *)
Lemma saving_failure_witness :
  config_channels (config (on_disk (mk_disk NoConfigFile (Some (Exception "PermissionError")) None)
                                   sample_manager))
  = Returns ["news"%string; "gallery"%string] /\
  fst (add_channel "sports" None
         (on_disk (mk_disk NoConfigFile (Some (Exception "PermissionError")) None)
                  sample_manager)) = true /\
  config_file
    (disk (snd (add_channel "sports" None
                  (on_disk (mk_disk NoConfigFile (Some (Exception "PermissionError")) None)
                           sample_manager))))
  = NoConfigFile.
Proof.
  split; [reflexivity|].
  destruct (saving_failure_is_not_reported "sports"%string None
              (on_disk (mk_disk NoConfigFile (Some (Exception "PermissionError")) None)
                       sample_manager)
              (mk_disk NoConfigFile None None)) as (_ & _ & H).
  destruct (H ["news"%string; "gallery"%string] (Exception "PermissionError")
              eq_refl eq_refl) as (Hok & _ & Hfile & _).
  split; [exact Hok|exact Hfile].
Defined.

(** A prompt set for [finance] on the sample manager, which has none:
    [finance] gets it, and [tech_news] still gets the empty text. *)
Lemma analysis_prompt_witness :
  "tech_news"%string <> "finance"%string /\ "default"%string <> "finance"%string /\
  get_analysis_prompt "finance"
    (snd (set_analysis_prompt "finance" "Markets" sample_manager)) = "Markets"%string /\
  get_analysis_prompt "tech_news"
    (snd (set_analysis_prompt "finance" "Markets" sample_manager))
  = get_analysis_prompt "tech_news" sample_manager.
Proof.
  assert (H1 : "tech_news"%string <> "finance"%string) by discriminate.
  assert (H2 : "default"%string <> "finance"%string) by discriminate.
  destruct (analysis_prompt_set_then_get "finance"%string "Markets"%string sample_manager)
    as (_ & Hget & Hother).
  split; [exact H1|]. split; [exact H2|]. split; [exact Hget|].
  exact (Hother "tech_news"%string H1 H2).
Defined.

(* ================================================================== *)
(** * CleanupManager *)
(* ================================================================== *)

Section CleanupFacts.
Context {Time : Type}.
Variable time_lt : Time -> Time -> bool.
Variable os_path_join : string -> string -> string.

Lemma list_contains_cons : forall x y l,
  list_contains x (y :: l) = String.eqb x y || list_contains x l.
Proof. reflexivity. Qed.

Lemma same_path_same_entry : forall (l : list (FolderEntry Time)) a b,
  NoDup (map entry_path l) -> In a l -> In b l -> entry_path a = entry_path b -> a = b.
Proof.
  induction l as [|x l IH]; cbn; intros a b Hnd Ha Hb E; [contradiction|].
  inversion Hnd as [|? ? Hnin Hnd']; subst.
  destruct Ha as [->|Ha]; destruct Hb as [->|Hb]; auto.
  - exfalso. apply Hnin. rewrite E. now apply in_map.
  - exfalso. apply Hnin. rewrite <- E. now apply in_map.
Qed.

Lemma find_by_path : forall (l : list (FolderEntry Time)) e,
  NoDup (map entry_path l) -> In e l ->
  find (fun e' => String.eqb (entry_path e') (entry_path e)) l = Some e.
Proof.
  induction l as [|x l IH]; cbn; intros e Hnd He; [contradiction|].
  inversion Hnd as [|? ? Hnin Hnd']; subst.
  destruct (String.eqb_spec (entry_path x) (entry_path e)) as [E|Hne].
  - destruct He as [->|He]; [reflexivity|].
    exfalso. apply Hnin. rewrite E. now apply in_map.
  - destruct He as [->|He]; [congruence|]. now apply IH.
Qed.

Lemma without_path_filter : forall p (l : list (FolderEntry Time)),
  NoDup (map entry_path l) ->
  without_path p l = filter (fun e => negb (String.eqb (entry_path e) p)) l.
Proof.
  intros p l. induction l as [|x l IH]; cbn; intros Hnd; [reflexivity|].
  inversion Hnd as [|? ? Hnin Hnd']; subst.
  destruct (String.eqb_spec (entry_path x) p) as [E|Hne]; cbn.
  - symmetry. apply forallb_filter_id. apply forallb_forall. intros e He.
    destruct (String.eqb_spec (entry_path e) p) as [E'|]; [|reflexivity].
    exfalso. apply Hnin. rewrite E, <- E'. now apply in_map.
  - now rewrite IH.
Qed.

Lemma nodup_paths_filter : forall (f : FolderEntry Time -> bool) l,
  NoDup (map entry_path l) -> NoDup (map entry_path (filter f l)).
Proof.
  intros f l. induction l as [|x l IH]; cbn; intros H; [constructor|].
  inversion H as [|? ? Hnin Hnd]; subst.
  destruct (f x); cbn; [|auto].
  constructor; [|auto]. intros Hin. apply Hnin.
  apply in_map_iff in Hin. destruct Hin as (y & Hy & Hin).
  apply filter_In in Hin. apply in_map_iff. exists y. tauto.
Qed.

Lemma permutation_filter : forall (A : Type) (f : A -> bool) l l',
  Permutation l l' -> Permutation (filter f l) (filter f l').
Proof.
  intros A f l l' H. induction H as [|x l l' _ IH|x y l|l l' l'' _ IH1 _ IH2]; cbn.
  - constructor.
  - destruct (f x); [now constructor|exact IH].
  - destruct (f x); destruct (f y); try reflexivity; try apply perm_swap.
  - now rewrite IH1.
Qed.

Lemma total_size_perm : forall l l' : list (FolderEntry Time),
  Permutation l l' -> total_size l = total_size l'.
Proof.
  intros l l' H. unfold total_size.
  induction H as [|x l l' _ IH|x y l|l l' l'' _ IH1 _ IH2]; cbn; lia.
Qed.

Lemma insert_newest_first_perm : forall x l,
  Permutation (insert_newest_first time_lt x l) (x :: l).
Proof.
  induction l as [|y l IH]; cbn; [reflexivity|].
  destruct (time_lt (snd x) (snd y)); [|reflexivity].
  rewrite IH. apply perm_swap.
Qed.

Lemma sort_newest_first_perm : forall l, Permutation (sort_newest_first time_lt l) l.
Proof.
  induction l as [|x l IH]; cbn; [reflexivity|].
  rewrite insert_newest_first_perm. now constructor.
Qed.

Lemma delete_old_files_spec : forall protected_paths cutoff_timestamp es count size s,
  NoDup (map entry_path (disk_entries s)) ->
  NoDup (map entry_path es) ->
  incl es (disk_entries s) ->
  exists s',
    delete_old_files time_lt (map (fun e => (entry_path e, entry_mtime e)) es)
      protected_paths cutoff_timestamp count size s
    = (count + Z.of_nat (List.length (filter (condemned time_lt protected_paths cutoff_timestamp) es)),
       size + total_size (filter (condemned time_lt protected_paths cutoff_timestamp) es), s') /\
    disk_entries s'
    = filter (fun e => negb (list_contains
                               (entry_path e)
                               (map entry_path
                                    (filter (condemned time_lt protected_paths cutoff_timestamp) es))))
             (disk_entries s) /\
    now_isoformat s' = now_isoformat s.
Proof.
  intros prot cutoff. induction es as [|e es IH]; intros count size s Hnd Hes Hincl.
  - exists s. cbn. unfold total_size. cbn. rewrite !Z.add_0_r. split; [reflexivity|].
    split; [|reflexivity]. symmetry. apply forallb_filter_id. apply forallb_forall. reflexivity.
  - inversion Hes as [|? ? Hnin Hes']; subst.
    assert (He : In e (disk_entries s)) by (apply Hincl; now left).
    assert (Hincl' : incl es (disk_entries s)).
    { intros x Hx. apply Hincl. now right. }
    cbn [map delete_old_files filter].
    destruct (list_contains (entry_path e) prot) eqn:Hprot.
    { assert (Hc : condemned time_lt prot cutoff e = false)
        by (unfold condemned; now rewrite Hprot).
      rewrite Hc. exact (IH count size s Hnd Hes' Hincl'). }
    destruct (time_lt (entry_mtime e) cutoff) eqn:Hold.
    2:{ assert (Hc : condemned time_lt prot cutoff e = false)
          by (unfold condemned; now rewrite Hprot, Hold).
        rewrite Hc. exact (IH count size s Hnd Hes' Hincl'). }
    unfold os_path_getsize, os_remove. rewrite (find_by_path _ e Hnd He).
    destruct (entry_remove_error e) as [err|] eqn:Hrem.
    { assert (Hc : condemned time_lt prot cutoff e = false)
        by (unfold condemned, removable; now rewrite Hprot, Hold, Hrem).
      rewrite Hc.
      destruct (IH count size (cleanup_logs CleanupError "Error deleting file" s)
                  Hnd Hes' Hincl') as (s' & Hrun & Hent & Hnow).
      exists s'. split; [exact Hrun|]. split; [exact Hent|exact Hnow]. }
    assert (Hc : condemned time_lt prot cutoff e = true)
      by (unfold condemned, removable; now rewrite Hprot, Hold, Hrem).
    rewrite Hc.
    set (s1 := cleanup_logs CleanupDebug "Deleted old file"
                 (with_entries (without_path (entry_path e) (disk_entries s)) s)).
    assert (Hent1 : disk_entries s1
                    = filter (fun x => negb (String.eqb (entry_path x) (entry_path e)))
                             (disk_entries s)).
    { subst s1. cbn. now apply without_path_filter. }
    assert (Hnd1 : NoDup (map entry_path (disk_entries s1))).
    { rewrite Hent1. now apply nodup_paths_filter. }
    assert (Hincl1 : incl es (disk_entries s1)).
    { intros x Hx. rewrite Hent1. apply filter_In. split; [now apply Hincl'|].
      destruct (String.eqb_spec (entry_path x) (entry_path e)) as [E|]; [|reflexivity].
      exfalso. apply Hnin. rewrite <- E. now apply in_map. }
    destruct (IH (count + 1) (size + entry_size e) s1 Hnd1 Hes' Hincl1)
      as (s' & Hrun & Hent & Hnow).
    exists s'. split; [|split].
    + rewrite Hrun. cbn [List.length]. unfold total_size. cbn [map fold_right].
      apply f_equal2; [apply f_equal2; lia|reflexivity].
    + rewrite Hent, Hent1. cbn [map]. apply filter_twice.
      intros x. rewrite list_contains_cons, negb_orb. reflexivity.
    + rewrite Hnow. reflexivity.
Qed.

Lemma listed_files_map : forall listing : list (FolderEntry Time),
  listed_files listing
  = map (fun e => (entry_path e, entry_mtime e)) (filter entry_is_file listing).
Proof. reflexivity. Qed.

(** [cleanup_folder] removes exactly the old files that it does not
    protect.  On a disk where no two entries share a path, for a folder
    that is a directory and a cutoff that can be computed, it returns
    [completed], and what is gone from the disk are the regular files of
    the folder that are not among the protected ones, are older than the
    cutoff and can be removed: a file that cannot be removed stays and does
    not stop the others from going.  [deleted_count] is their number and
    the size reported their sizes added up. *)
Theorem cleanup_removes_the_old_unprotected_files :
  forall folder_name max_age_days keep_latest (s : CleanupWorld Time) cutoff_timestamp,
    NoDup (map entry_path (disk_entries s)) ->
    list_contains (os_path_join (base_dir s) folder_name) (directories s) = true ->
    cutoff_of s max_age_days = Returns cutoff_timestamp ->
    exists s',
      cleanup_folder time_lt os_path_join folder_name max_age_days keep_latest s
      = (Returns
           (Completed (os_path_join (base_dir s) folder_name)
              (Z.of_nat
                 (List.length
                    (filter (doomed time_lt (os_path_join (base_dir s) folder_name)
                               (protected_paths_of time_lt
                                  (os_path_join (base_dir s) folder_name) keep_latest s)
                               cutoff_timestamp)
                            (disk_entries s))))
              (total_size
                 (filter (doomed time_lt (os_path_join (base_dir s) folder_name)
                            (protected_paths_of time_lt
                               (os_path_join (base_dir s) folder_name) keep_latest s)
                            cutoff_timestamp)
                         (disk_entries s)))
              (now_isoformat s)), s') /\
      disk_entries s'
      = filter (fun e => negb (doomed time_lt (os_path_join (base_dir s) folder_name)
                                 (protected_paths_of time_lt
                                    (os_path_join (base_dir s) folder_name) keep_latest s)
                                 cutoff_timestamp e))
               (disk_entries s).
Proof.
  intros folder_name days keep s cutoff Hnd Hdir Hcut.
  set (folder_path := os_path_join (base_dir s) folder_name) in *.
  set (prot := protected_paths_of time_lt folder_path keep s).
  set (listing := entries_of folder_path s).
  destruct (Permutation_map_inv (fun e => (entry_path e, entry_mtime e))
              (filter entry_is_file listing)
              (sort_newest_first_perm (listed_files listing)))
    as (es & Hes & Hperm).
  assert (Hin_es : forall e, In e es <->
                             In e (disk_entries s) /\
                             String.eqb (entry_folder e) folder_path = true /\
                             entry_is_file e = true).
  { intros e. split.
    - intros He. apply (Permutation_in _ (Permutation_sym Hperm)) in He.
      apply filter_In in He. destruct He as (He & Hfile).
      apply filter_In in He. tauto.
    - intros (He & Hf & Hfile). apply (Permutation_in _ Hperm).
      apply filter_In. split; [|exact Hfile]. apply filter_In. tauto. }
  assert (Hnd_es : NoDup (map entry_path es)).
  { apply Permutation_NoDup with (l := map entry_path (filter entry_is_file listing)).
    - now apply Permutation_map.
    - apply nodup_paths_filter. now apply nodup_paths_filter. }
  assert (Hincl : incl es (disk_entries s)).
  { intros e He. now apply Hin_es in He. }
  set (s1 := cleanup_logs CleanupInfo "Starting cleanup" s).
  destruct (delete_old_files_spec prot cutoff es 0 0 s1 Hnd Hnd_es Hincl)
    as (s2 & Hrun & Hent & Hnow).
  assert (Hgone : forall e, In e (disk_entries s) ->
             list_contains (entry_path e) (map entry_path (filter (condemned time_lt prot cutoff) es))
             = doomed time_lt folder_path prot cutoff e).
  { intros e He. unfold doomed.
    destruct (list_contains (entry_path e) (map entry_path (filter (condemned time_lt prot cutoff) es)))
      eqn:E.
    - apply list_contains_in in E. apply in_map_iff in E. destruct E as (e' & Hpath & He').
      apply filter_In in He'. destruct He' as (He' & Hc).
      assert (e' = e).
      { apply (same_path_same_entry (disk_entries s)); auto. }
      subst e'. apply Hin_es in He'. destruct He' as (_ & -> & ->).
      unfold condemned in Hc. cbn [andb]. exact (eq_sym Hc).
    - symmetry. apply not_true_is_false. intros Hd.
      apply not_true_iff_false in E. apply E. apply list_contains_in. apply in_map.
      apply andb_prop in Hd. destruct Hd as (Hd & Hr).
      apply andb_prop in Hd. destruct Hd as (Hd & Ho).
      apply andb_prop in Hd. destruct Hd as (Hd & Hp).
      apply andb_prop in Hd. destruct Hd as (Hf & Hfile).
      apply filter_In. split; [apply Hin_es; auto|].
      unfold condemned. now rewrite Hp, Ho, Hr. }
  assert (Hsame : Permutation (filter (condemned time_lt prot cutoff) es)
                              (filter (doomed time_lt folder_path prot cutoff)
                                      (disk_entries s))).
  { apply Permutation_trans
      with (l' := filter (condemned time_lt prot cutoff) (filter entry_is_file listing)).
    - apply permutation_filter. now apply Permutation_sym.
    - subst listing. unfold entries_of.
      rewrite (filter_twice _ entry_is_file
                 (fun e => String.eqb (entry_folder e) folder_path)
                 (fun e => String.eqb (entry_folder e) folder_path && entry_is_file e))
        by reflexivity.
      rewrite (filter_twice _ (condemned time_lt prot cutoff)
                 (fun e => String.eqb (entry_folder e) folder_path && entry_is_file e)
                 (doomed time_lt folder_path prot cutoff)).
      + reflexivity.
      + intros e. unfold doomed, condemned. now rewrite !andb_assoc. }
  exists (cleanup_logs CleanupInfo "Cleanup completed" s2).
  split.
  - unfold cleanup_folder. fold folder_path.
    assert (Hex : cleanup_path_exists folder_path s = true).
    { unfold cleanup_path_exists. now rewrite Hdir. }
    rewrite Hex. cbn [negb]. fold s1.
    unfold os_listdir. change (directories s1) with (directories s). rewrite Hdir.
    change (disk_entries s1) with (disk_entries s).
    change (filter (fun e => String.eqb (entry_folder e) folder_path) (disk_entries s))
      with listing.
    change (cutoff_of s1 days) with (cutoff_of s days). rewrite Hcut.
    change (map fst (protected_files keep (sort_newest_first time_lt (listed_files listing))))
      with prot.
    rewrite Hes, Hrun. cbn [now_isoformat cleanup_logs].
    rewrite Hnow. cbn [now_isoformat cleanup_logs Z.add].
    rewrite (Permutation_length Hsame), (total_size_perm _ _ Hsame). reflexivity.
  - cbn [disk_entries cleanup_logs]. rewrite Hent.
    change (disk_entries s1) with (disk_entries s).
    apply filter_ext_in. intros e He. now rewrite Hgone.
Qed.

(** ** The newest files are the protected ones *)

Lemma insert_newest_first_sorted : orders_time time_lt ->
  forall x l,
    StronglySorted (not_older time_lt) l ->
    StronglySorted (not_older time_lt) (insert_newest_first time_lt x l).
Proof.
  intros (Hasym & Htrans) x l. induction l as [|y l IH]; cbn; intros Hs.
  - repeat constructor.
  - inversion Hs as [|? ? Hs' Hall]; subst.
    destruct (time_lt (snd x) (snd y)) eqn:E.
    + constructor; [now apply IH|].
      apply Forall_forall. intros z Hz.
      apply (Permutation_in _ (insert_newest_first_perm x l)) in Hz.
      destruct Hz as [<-|Hz].
      * unfold not_older. now apply Hasym.
      * rewrite Forall_forall in Hall. now apply Hall.
    + constructor; [exact Hs|]. constructor; [exact E|].
      rewrite Forall_forall in *. intros z Hz. unfold not_older in *.
      eapply Htrans; [exact E|]. now apply Hall.
Qed.

Lemma sort_newest_first_sorted : orders_time time_lt ->
  forall l, StronglySorted (not_older time_lt) (sort_newest_first time_lt l).
Proof.
  intros Ho. induction l as [|x l IH]; cbn; [constructor|].
  now apply insert_newest_first_sorted.
Qed.

Lemma strongly_sorted_split : forall (A : Type) (Rel : A -> A -> Prop) n l a b,
  StronglySorted Rel l -> In a (firstn n l) -> In b (skipn n l) -> Rel a b.
Proof.
  intros A Rel n l a b Hs. revert n.
  induction Hs as [|x l Hs IH Hall]; intros n Ha Hb.
  - destruct n; contradiction.
  - destruct n as [|n]; [contradiction|]. cbn in Ha, Hb.
    destruct Ha as [<-|Ha].
    + rewrite Forall_forall in Hall. apply Hall.
      rewrite <- (firstn_skipn n l). apply in_or_app. now right.
    + now apply (IH n).
Qed.

Lemma delete_old_files_keeps : forall protected_paths cutoff_timestamp files count size s e,
  In e (disk_entries s) ->
  list_contains (entry_path e) protected_paths = true ->
  In e (disk_entries
          (snd (delete_old_files time_lt files protected_paths cutoff_timestamp
                                 count size s))).
Proof.
  intros prot cutoff files. induction files as [|[p t] files IH];
    intros count size s e He Hp; cbn [delete_old_files]; [exact He|].
  destruct (list_contains p prot) eqn:Hprot; [now apply IH|].
  destruct (time_lt t cutoff); [|now apply IH].
  destruct (os_path_getsize p s); [|now apply IH].
  unfold os_remove. destruct (find _ (disk_entries s)) as [e'|]; [|now apply IH].
  destruct (entry_remove_error e'); [now apply IH|].
  apply IH; [|exact Hp]. cbn.
  assert (Hne : entry_path e <> p) by (intros E; rewrite E in Hp; congruence).
  clear - He Hne. induction (disk_entries s) as [|x l IHl]; [contradiction|].
  cbn. destruct (String.eqb_spec (entry_path x) p) as [E|_].
  - destruct He as [->|He]; [contradiction|exact He].
  - destruct He as [->|He]; [now left|right; now apply IHl].
Qed.

(** [cleanup_folder] keeps the newest files.  No entry whose path is
    among the protected ones is ever removed, whatever its age.  Where [<]
    orders the modification times, the protected files are the newest:
    the list is sorted newest first, it holds the regular files of the
    folder, and no file outside the first [keep_latest] is newer than one
    of them. *)
Theorem cleanup_keeps_the_newest_files :
  orders_time time_lt ->
  forall folder_name max_age_days keep_latest (s : CleanupWorld Time),
    (forall e,
        In e (disk_entries s) ->
        list_contains (entry_path e)
          (protected_paths_of time_lt (os_path_join (base_dir s) folder_name) keep_latest s)
        = true ->
        In e (disk_entries
                (snd (cleanup_folder time_lt os_path_join folder_name max_age_days
                                     keep_latest s)))) /\
    Permutation
      (sort_newest_first time_lt
         (listed_files (entries_of (os_path_join (base_dir s) folder_name) s)))
      (listed_files (entries_of (os_path_join (base_dir s) folder_name) s)) /\
    forall kept other,
      In kept (protected_files keep_latest
                 (sort_newest_first time_lt
                    (listed_files (entries_of (os_path_join (base_dir s) folder_name) s)))) ->
      In other (skipn (Z.to_nat keep_latest)
                  (sort_newest_first time_lt
                     (listed_files (entries_of (os_path_join (base_dir s) folder_name) s)))) ->
      time_lt (snd kept) (snd other) = false.
Proof.
  intros Ho folder_name days keep s. split; [|split].
  - intros e He Hp. unfold cleanup_folder.
    destruct (negb (cleanup_path_exists _ s)); [exact He|].
    unfold os_listdir. cbn [directories cleanup_logs disk_entries].
    destruct (list_contains _ (directories s)); [|exact He].
    cbn [cutoff_of cleanup_logs].
    destruct (cutoff_of s days) as [cutoff|err]; [|exact He].
    match goal with
    | |- context [delete_old_files time_lt ?f ?p ?c ?n ?z ?w] =>
        pose proof (delete_old_files_keeps p c f n z w e He Hp) as Hk;
          destruct (delete_old_files time_lt f p c n z w) as [[cnt sz] s2]
    end.
    exact Hk.
  - apply sort_newest_first_perm.
  - intros kept other Hk Hother. unfold protected_files in Hk.
    destruct (0 <? keep); [|contradiction].
    exact (strongly_sorted_split _ (not_older time_lt) _ _ kept other
             (sort_newest_first_sorted Ho _) Hk Hother).
Qed.
End CleanupFacts.

Lemma z_orders_time : orders_time Z.ltb.
Proof.
  split.
  - intros a b H. apply Z.ltb_lt in H. apply Z.ltb_ge. lia.
  - intros a b c H1 H2. apply Z.ltb_ge in H1, H2. apply Z.ltb_ge. lia.
Qed.

(** The sample folder with one file to keep: [b.json], of day 9, is
    protected; [a.json] and [c.json], of days 1 and 5, are older than day 7
    and go; the subfolder stays. *)
Lemma cleanup_witness :
  NoDup (map entry_path (disk_entries sample_folder)) /\
  exists s',
    cleanup_folder Z.ltb join_with_slash "data" 7 1 sample_folder
    = (Returns (Completed "/app/data" 2 400 "2024-03-10T00:00:00"), s') /\
    map entry_path (disk_entries s') = ["/app/data/b.json"%string; "/app/data/old"%string].
Proof.
  assert (Hnd : NoDup (map entry_path (disk_entries sample_folder))).
  { cbn. repeat constructor; cbn; intuition discriminate. }
  split; [exact Hnd|].
  destruct (cleanup_removes_the_old_unprotected_files Z.ltb join_with_slash
              "data"%string 7 1 sample_folder 7 Hnd eq_refl eq_refl) as (s' & Hrun & Hent).
  exists s'. split; [exact Hrun|]. rewrite Hent. reflexivity.
Defined.

Lemma newest_files_witness :
  orders_time Z.ltb /\
  map fst (sort_newest_first Z.ltb
             (listed_files (entries_of "/app/data" sample_folder)))
  = ["/app/data/b.json"%string; "/app/data/c.json"%string; "/app/data/a.json"%string] /\
  map entry_path
    (disk_entries (snd (cleanup_folder Z.ltb join_with_slash "data" 0 2 sample_folder)))
  = ["/app/data/b.json"%string; "/app/data/old"%string; "/app/data/c.json"%string] /\
  forall e,
    In e (disk_entries sample_folder) ->
    list_contains (entry_path e) (protected_paths_of Z.ltb "/app/data" 2 sample_folder)
    = true ->
    In e (disk_entries (snd (cleanup_folder Z.ltb join_with_slash "data" 0 2 sample_folder))).
Proof.
  split; [exact z_orders_time|]. split; [reflexivity|]. split; [reflexivity|].
  destruct (cleanup_keeps_the_newest_files Z.ltb join_with_slash z_orders_time
              "data"%string 0 2 sample_folder) as (Hkeep & _).
  exact Hkeep.
Defined.

(* ================================================================== *)
(** * The call of the API with retries *)
(* ================================================================== *)

Section RetryFacts.
Context {Request Jitter Net : Type}.
Variable http : Http Request Jitter Net.

Lemma sleep_backoff_counts : forall made base_delay attempt n (w : World Net),
  counts_posts http made -> made n (remote w) ->
  made n (remote (snd (sleep_backoff http base_delay attempt w))).
Proof.
  intros made base_delay attempt n w (_ & Hsleep & Hdraw) H.
  unfold sleep_backoff. unfold_io.
  pose proof (Hdraw n (remote w) H) as H1.
  destruct (random_uniform http (remote w)) as [j s1]. cbn in *.
  pose proof (Hsleep (Backoff (base_delay * 2 ^ attempt) j) n s1 H1) as H2.
  destruct (time_sleep http _ s1) as [[[]|e] s2]; cbn in *; exact H2.
Qed.

(** One turn posts once; it returns a response only when the status is
    200, or when it is not 429 and no attempt is left. *)
Lemma turn_counts : forall made request max_retries base_delay attempt n (w : World Net),
  counts_posts http made -> made n (remote w) ->
  made (S n)
       (remote (snd (try_except_if (is_connection_failure http)
                       (attempt_body http request max_retries base_delay attempt)
                       (attempt_handler http max_retries base_delay attempt) w))) /\
  forall response,
    fst (try_except_if (is_connection_failure http)
           (attempt_body http request max_retries base_delay attempt)
           (attempt_handler http max_retries base_delay attempt) w)
    = Returns (ReturnResponse response) ->
    status_code response <> 429 /\
    (status_code response = 200 \/ max_retries - 1 <= attempt).
Proof.
  intros made request max_retries base_delay attempt n w Hc H.
  pose proof Hc as (Hpost & Hsleep & Hdraw).
  assert (Hhandler : forall e (w1 : World Net),
             made (S n) (remote w1) ->
             made (S n) (remote (snd (attempt_handler http max_retries base_delay attempt e w1)))
             /\ forall response,
                 fst (attempt_handler http max_retries base_delay attempt e w1)
                 <> Returns (ReturnResponse response)).
  { intros e w1 H1. unfold attempt_handler.
    destruct (attempt <? max_retries - 1).
    - pose proof (sleep_backoff_counts made base_delay attempt (S n) w1 Hc H1) as H2.
      unfold bind. destruct (sleep_backoff http base_delay attempt w1) as [[[]|e'] w2];
        cbn in *; split; auto; discriminate.
    - unfold_io. cbn. split; [exact H1|discriminate]. }
  assert (Hbody : made (S n) (remote (snd (attempt_body http request max_retries base_delay
                                             attempt w))) /\
                  forall response,
                    fst (attempt_body http request max_retries base_delay attempt w)
                    = Returns (ReturnResponse response) ->
                    status_code response <> 429 /\
                    (status_code response = 200 \/ max_retries - 1 <= attempt)).
  { unfold attempt_body. unfold bind, call.
    pose proof (Hpost request n (remote w) H) as H1.
    destruct (requests_post http request (remote w)) as [[response|e] s1]; cbn in H1;
      [|cbn; split; [exact H1|intros r Hr; discriminate Hr]].
    destruct (Z.eqb_spec (status_code response) 429) as [E429|N429].
    - unfold of_outcome, logger, ret.
      destruct (match retry_after_header response with
                | Some text => int_of_header http text
                | None => Returns (base_delay * 2 ^ attempt)
                end) as [retry_after|e]; cbn;
        [|split; [exact H1|intros r Hr; discriminate Hr]].
      pose proof (Hsleep (Seconds retry_after) (S n) s1 H1) as H2.
      destruct (time_sleep http (Seconds retry_after) s1) as [[[]|e] s2];
        cbn in *; (split; [exact H2|intros r Hr; discriminate Hr]).
    - destruct (Z.eqb_spec (status_code response) 200) as [E200|N200].
      + unfold ret. cbn. split; [exact H1|]. intros r Hr. injection Hr as <-. auto.
      + destruct (Z.ltb_spec attempt (max_retries - 1)) as [Hlt|Hge].
        * match goal with
          | |- context [sleep_backoff http base_delay attempt ?w1] =>
              pose proof (sleep_backoff_counts made base_delay attempt (S n) w1 Hc H1) as H2;
                destruct (sleep_backoff http base_delay attempt w1) as [[[]|e'] w2]
          end; cbn in *; (split; [exact H2|intros r Hr; discriminate Hr]).
        * unfold logger, ret. cbn. split; [exact H1|]. intros r Hr. injection Hr as <-.
          split; [exact N429|right; lia]. }
  destruct Hbody as (Hb1 & Hb2). unfold try_except_if.
  destruct (attempt_body http request max_retries base_delay attempt w) as [[turn|e] w1];
    cbn [fst snd] in *.
  - split; [exact Hb1|exact Hb2].
  - destruct (is_connection_failure http e).
    + destruct (Hhandler e w1 Hb1) as (Hh1 & Hh2). split; [exact Hh1|].
      intros r Hr. now apply Hh2 in Hr.
    + cbn. split; [exact Hb1|intros r Hr; discriminate Hr].
Qed.

Lemma retry_loop_counts : forall made request max_retries base_delay,
  counts_posts http made ->
  forall remaining attempt n (w : World Net),
    made n (remote w) ->
    (remaining <> 0%nat -> attempt + Z.of_nat remaining = max_retries) ->
    exists m,
      made m (remote (snd (retry_loop http request max_retries base_delay remaining attempt w)))
      /\ (n <= m <= n + remaining)%nat /\
      forall response,
        fst (retry_loop http request max_retries base_delay remaining attempt w)
        = Returns response ->
        status_code response <> 429 /\
        (status_code response = 200 \/ m = (n + remaining)%nat).
Proof.
  intros made request max_retries base_delay Hc.
  induction remaining as [|remaining IH]; intros attempt n w H Hatt; cbn [retry_loop].
  - exists n. unfold raise. cbn. split; [exact H|]. split; [lia|discriminate].
  - destruct (turn_counts made request max_retries base_delay attempt n w Hc H)
      as (H1 & Hret).
    unfold bind.
    destruct (try_except_if (is_connection_failure http)
                (attempt_body http request max_retries base_delay attempt)
                (attempt_handler http max_retries base_delay attempt) w)
      as [[[|response]|e] w1]; cbn [fst snd] in *.
    + destruct (IH (attempt + 1) (S n) w1 H1) as (m & Hm & Hle & Hr); [lia|].
      exists m. split; [exact Hm|]. split; [lia|].
      intros r Hres. destruct (Hr r Hres) as (H429 & Hor).
      split; [exact H429|]. destruct Hor; [now left|right; lia].
    + exists (S n). unfold ret. cbn. split; [exact H1|]. split; [lia|].
      intros r Hres. injection Hres as <-.
      destruct (Hret response eq_refl) as (H429 & Hor). split; [exact H429|].
      destruct Hor as [H200|Hlast]; [now left|right]. lia.
    + exists (S n). cbn. split; [exact H1|]. split; [lia|discriminate].
Qed.

(** [_call_api_with_retry] posts at most [max_retries] times, and never
    returns the answer to a rate limit.  Whatever the server and the clock
    do, the number of requests posted goes up by [max_retries] at most; a
    response that is returned has a status other than 429, and a status
    other than 200 only when all the attempts have been made. *)
Theorem retry_posts_at_most_max_retries_times :
  forall made, counts_posts http made ->
  forall request max_retries base_delay (w : World Net) n,
    made n (remote w) ->
    exists m,
      made m (remote (snd (_call_api_with_retry http request max_retries base_delay w))) /\
      (n <= m <= n + Z.to_nat max_retries)%nat /\
      forall response,
        fst (_call_api_with_retry http request max_retries base_delay w) = Returns response ->
        status_code response <> 429 /\
        (status_code response = 200 \/ m = (n + Z.to_nat max_retries)%nat).
Proof.
  intros made Hc request max_retries base_delay w n H. unfold _call_api_with_retry.
  apply (retry_loop_counts made request max_retries base_delay Hc); [exact H|].
  intros Hne. destruct (Z.to_nat max_retries) eqn:E; [contradiction|]. lia.
Qed.

(** When every attempt meets a rate limit the call raises: after the
    last 429 it sleeps once more, leaves the loop and raises the exception
    of the exhausted attempts. *)
Theorem rate_limit_exhaustion_raises :
  forall request,
    always_answers http request
      (fun response => status_code response = 429 /\ retry_after_header response = None) ->
    sleeps_return http ->
    forall max_retries base_delay (w : World Net),
      exists w',
        _call_api_with_retry http request max_retries base_delay w
        = (Raises (Exception "API request failed after all attempts"), w').
Proof.
  intros request Hans Hsleep max_retries base_delay. unfold _call_api_with_retry.
  generalize 0 as attempt. induction (Z.to_nat max_retries) as [|remaining IH];
    intros attempt w; cbn [retry_loop].
  - unfold raise. eauto.
  - unfold bind at 1. unfold try_except_if, attempt_body.
    unfold bind at 1. unfold call at 1.
    destruct (Hans (remote w)) as (response & Hpost & H429 & Hhead).
    destruct (requests_post http request (remote w)) as [o s1]. cbn in Hpost. subst o.
    rewrite H429, Hhead. cbn [Z.eqb Pos.eqb]. unfold_io. cbn.
    pose proof (Hsleep (Seconds (base_delay * 2 ^ attempt)) s1) as Hs.
    destruct (time_sleep http (Seconds (base_delay * 2 ^ attempt)) s1) as [o s2].
    cbn in Hs. subst o. cbn. apply IH.
Qed.

(** When every attempt meets a server error the call does not raise: it
    returns the response to the last attempt, whose status is neither 200
    nor 429, having logged the failure. *)
Theorem server_error_exhaustion_returns_the_response :
  forall request,
    always_answers http request
      (fun response => status_code response <> 200 /\ status_code response <> 429) ->
    sleeps_return http ->
    forall max_retries base_delay (w : World Net),
      1 <= max_retries ->
      exists response w',
        _call_api_with_retry http request max_retries base_delay w = (Returns response, w') /\
        status_code response <> 200 /\ status_code response <> 429 /\
        In (ERROR, "API request failed"%string) (log w').
Proof.
  intros request Hans Hsleep max_retries base_delay w Hpos. unfold _call_api_with_retry.
  assert (Hgen : forall remaining attempt (w0 : World Net),
             remaining <> 0%nat -> attempt + Z.of_nat remaining = max_retries ->
             exists response w',
               retry_loop http request max_retries base_delay remaining attempt w0
               = (Returns response, w') /\
               status_code response <> 200 /\ status_code response <> 429 /\
               In (ERROR, "API request failed"%string) (log w')).
  { induction remaining as [|remaining IH]; intros attempt w0 Hne Hatt; [contradiction|].
    cbn [retry_loop]. unfold bind at 1. unfold try_except_if, attempt_body.
    unfold bind at 1. unfold call at 1.
    destruct (Hans (remote w0)) as (response & Hpost & H200 & H429).
    destruct (requests_post http request (remote w0)) as [o s1]. cbn in Hpost. subst o.
    destruct (Z.eqb_spec (status_code response) 429) as [|_]; [contradiction|].
    destruct (Z.eqb_spec (status_code response) 200) as [|_]; [contradiction|].
    destruct (Z.ltb_spec attempt (max_retries - 1)) as [Hlt|Hge].
    - unfold sleep_backoff. unfold_io. cbn.
      destruct (random_uniform http s1) as [j s2]. cbn.
      pose proof (Hsleep (Backoff (base_delay * 2 ^ attempt) j) s2) as Hs.
      destruct (time_sleep http (Backoff (base_delay * 2 ^ attempt) j) s2) as [o s3].
      cbn in Hs. subst o. cbn. apply IH; lia.
    - unfold_io. cbn. exists response. eexists. split; [reflexivity|].
      split; [exact H200|]. split; [exact H429|].
      cbn. apply in_or_app. right. now left. }
  apply Hgen; lia.
Qed.
End RetryFacts.

Lemma constant_server_counts : forall response,
  counts_posts (constant_server response) (fun n s => s = n).
Proof. intros response. repeat split; cbn; intros; subst; reflexivity. Qed.

(** Three attempts against a server that is unavailable: three posts,
    and the last response comes back. *)
Lemma retry_count_witness :
  counts_posts (constant_server unavailable) (fun n s => s = n) /\
  _call_api_with_retry (constant_server unavailable) tt 3 2 no_posts_yet
  = (Returns unavailable,
     mk_world 3%nat (mk_fs None None None None None EmptyString (fun _ => 0%nat))
       [(WARNING, "Retrying after a delay"%string);
        (WARNING, "Retrying after a delay"%string);
        (ERROR, "API request failed"%string)]) /\
  exists m,
    m = remote (snd (_call_api_with_retry (constant_server unavailable) tt 3 2 no_posts_yet))
    /\ (0 <= m <= 0 + Z.to_nat 3)%nat.
Proof.
  split; [apply constant_server_counts|]. split; [reflexivity|].
  destruct (retry_posts_at_most_max_retries_times (constant_server unavailable)
              (fun n s => s = n) (constant_server_counts unavailable) tt 3 2
              no_posts_yet 0%nat eq_refl) as (m & Hm & Hle & _).
  exists m. split; [now symmetry|exact Hle].
Defined.

Lemma rate_limit_witness :
  always_answers (constant_server rate_limited) tt
    (fun response => status_code response = 429 /\ retry_after_header response = None) /\
  sleeps_return (constant_server rate_limited) /\
  exists w',
    _call_api_with_retry (constant_server rate_limited) tt 3 2 no_posts_yet
    = (Raises (Exception "API request failed after all attempts"), w').
Proof.
  assert (Hans : always_answers (constant_server rate_limited) tt
                   (fun response => status_code response = 429
                                    /\ retry_after_header response = None)).
  { intros s. exists rate_limited. repeat split. }
  assert (Hsleep : sleeps_return (constant_server rate_limited)).
  { intros d s. reflexivity. }
  split; [exact Hans|]. split; [exact Hsleep|].
  exact (rate_limit_exhaustion_raises (constant_server rate_limited) tt Hans Hsleep 3 2
           no_posts_yet).
Defined.

Lemma server_error_witness :
  always_answers (constant_server unavailable) tt
    (fun response => status_code response <> 200 /\ status_code response <> 429) /\
  sleeps_return (constant_server unavailable) /\
  1 <= 3 /\
  exists response w',
    _call_api_with_retry (constant_server unavailable) tt 3 2 no_posts_yet
    = (Returns response, w') /\
    status_code response <> 200 /\ status_code response <> 429 /\
    In (ERROR, "API request failed"%string) (log w').
Proof.
  assert (Hans : always_answers (constant_server unavailable) tt
                   (fun response => status_code response <> 200
                                    /\ status_code response <> 429)).
  { intros s. exists unavailable. repeat split; discriminate. }
  assert (Hsleep : sleeps_return (constant_server unavailable)).
  { intros d s. reflexivity. }
  split; [exact Hans|]. split; [exact Hsleep|]. split; [lia|].
  exact (server_error_exhaustion_returns_the_response (constant_server unavailable) tt
           Hans Hsleep 3 2 no_posts_yet ltac:(lia)).
Defined.
